(** * Interview preparation backend: a shallow embedding and its properties

    The development follows the layout of [backend/app]: the Python
    runtime pieces the handlers rely on ([Py]), the pydantic models
    ([Models]), the database session ([Db]), then one module per route or
    service file.  Python floats are idealised as exact rationals ([Q]).
    A [str] is the byte string of its UTF-8 encoding, on which equality,
    concatenation and [in] are those of the text; [str.lower()], which
    follows the Unicode case mapping, is a parameter ([str_lower]) of the
    functions that apply it to text they are given. *)

From Stdlib Require Import ZArith QArith List String Ascii Bool Lia Lqa.
From Stdlib Require Import Permutation Sorted.
From Stdlib Require Import DecimalString.
Import ListNotations.

Local Open Scope Z_scope.
Local Open Scope string_scope.

(* ================================================================== *)
(** * Python runtime                                                    *)
(* ================================================================== *)

Module Py.

(** Exceptions raised by the handlers or by the runtime under them. *)
Inductive exn : Type :=
| HTTPException (status_code : Z) (detail : string)
| RequestValidationError
| TypeError
| ZeroDivisionError.

Inductive result (A : Type) : Type :=
| Ok (a : A)
| Raise (e : exn).
Arguments Ok {A} a.
Arguments Raise {A} e.

(** A handler runs against a state [S] (the database, or the database
    and the object store).  The state is returned in both outcomes:
    writes made before an exception stay written. *)
Definition io (S A : Type) : Type := S -> S * result A.

Definition ret {S A} (a : A) : io S A := fun s => (s, Ok a).
Definition raise {S A} (e : exn) : io S A := fun s => (s, Raise e).
Definition bind {S A B} (c : io S A) (k : A -> io S B) : io S B :=
  fun s => match c s with
           | (s', Ok a) => k a s'
           | (s', Raise e) => (s', Raise e)
           end.
Definition gets {S A} (f : S -> A) : io S A := fun s => (s, Ok (f s)).
Definition modify {S} (f : S -> S) : io S unit := fun s => (f s, Ok tt).
Definition lift {S A} (r : result A) : io S A := fun s => (s, r).

Definition rbind {A B} (r : result A) (k : A -> result B) : result B :=
  match r with Ok a => k a | Raise e => Raise e end.

Fixpoint mapM {A B} (f : A -> result B) (l : list A) : result (list B) :=
  match l with
  | [] => Ok []
  | x :: xs => rbind (f x) (fun y => rbind (mapM f xs) (fun ys => Ok (y :: ys)))
  end.

(** Truth value testing: [None], [0], [0.0], [""] and [[]] are false. *)
Definition truthy_str (s : string) : bool :=
  match s with EmptyString => false | _ => true end.
Definition truthy_list {A} (l : list A) : bool :=
  match l with [] => false | _ => true end.
Definition truthy_float (q : Q) : bool := negb (Qnum q =? 0)%Z.
Definition truthy_opt {A} (t : A -> bool) (o : option A) : bool :=
  match o with None => false | Some a => t a end.
(** A database row (a non-empty named tuple) is true; [None] is false. *)
Definition truthy_row {A} (o : option A) : bool :=
  match o with None => false | Some _ => true end.

(** [x / y] on numbers. *)
Definition truediv (x y : Q) : result Q :=
  if (Qnum y =? 0)%Z then Raise ZeroDivisionError else Ok (x / y)%Q.

(** [sum(l)]: left to right from [0]. *)
Definition sum (l : list Q) : Q := fold_left Qplus l 0%Q.

Definition len {A} (l : list A) : Z := Z.of_nat (List.length l).

(** The case mapping of the ASCII letters: what [str.lower()] does to
    text whose capitals are ASCII.  It serves where the source lowers
    text to look for an ASCII literal, and as the instance of
    [str_lower] in the worked examples. *)
Definition lower_ascii (c : ascii) : ascii :=
  let n := nat_of_ascii c in
  if ((65 <=? n)%nat && (n <=? 90)%nat)%bool then ascii_of_nat (n + 32) else c.

Fixpoint ascii_lower (s : string) : string :=
  match s with
  | EmptyString => EmptyString
  | String c s' => String (lower_ascii c) (ascii_lower s')
  end.

(** [sub in s] on strings. *)
Fixpoint startswith (s sub : string) {struct sub} : bool :=
  match sub, s with
  | EmptyString, _ => true
  | String _ _, EmptyString => false
  | String a sub', String b s' => (Ascii.eqb a b && startswith s' sub')%bool
  end.

Fixpoint contains (s sub : string) : bool :=
  (startswith s sub ||
   match s with
   | EmptyString => false
   | String _ s' => contains s' sub
   end)%bool.

(** [sep.join(l)]. *)
Fixpoint join (sep : string) (l : list string) : string :=
  match l with
  | [] => ""
  | [x] => x
  | x :: xs => x ++ sep ++ join sep xs
  end.

(** [sorted(l, key=key, reverse=True)]: descending by key, and elements
    with equal keys keep their original order. *)
Section Sorted.
Context {A : Type} (key : A -> Z).

Fixpoint insert_desc (x : A) (l : list A) : list A :=
  match l with
  | [] => [x]
  | y :: l' => if (key y <=? key x)%Z then x :: y :: l' else y :: insert_desc x l'
  end.

Fixpoint sorted_reverse (l : list A) : list A :=
  match l with
  | [] => []
  | x :: xs => insert_desc x (sorted_reverse xs)
  end.
End Sorted.

(** [date.weekday()] is [(toordinal() + 6) % 7]; a date is its ordinal. *)
Definition date := Z.
Record datetime := mkDatetime { dt_ordinal : date; dt_micros : Z }.
Definition dt_date (d : datetime) : date := dt_ordinal d.
Definition weekday (d : datetime) : Z := (dt_ordinal d + 6) mod 7.
Definition date_sub_days (d : date) (days : Z) : date := d - days.

End Py.

Import Py.

Declare Scope io_scope.
Delimit Scope io_scope with io.
Notation "x <- c ;; k" := (bind c (fun x => k))
  (at level 61, c at next level, right associativity) : io_scope.
Notation "c ;;; k" := (bind c (fun _ => k))
  (at level 61, right associativity) : io_scope.

(* ================================================================== *)
(** * models/question.py, models/user.py and the table rows             *)
(* ================================================================== *)

Module Models.

Definition UUID := string.

Record InterviewQuestion := mkInterviewQuestion {
  q_id : UUID;
  q_category : string;
  q_difficulty : string;
  q_title : string;
  q_description : string;
  q_sample_answer : string;
  q_keywords : list string;
  q_created_at : datetime;
  q_tags : list string;
  q_company_tags : list string;
  q_likes : Z;
  q_views : Z
}.

Record UserAnswer := mkUserAnswer {
  a_id : UUID;
  a_user_id : UUID;
  a_question_id : UUID;
  a_answer_text : string;
  a_voice_recording_url : option string;
  a_feedback : option string;
  a_confidence_score : option Q;
  a_created_at : datetime;
  a_updated_at : option datetime
}.

(** A row of [question_progress].  A column an INSERT does not name is
    null ([None]). *)
Record QuestionProgress := mkQuestionProgress {
  p_user_id : UUID;
  p_question_id : UUID;
  p_status : string;
  p_attempts : Z;
  p_last_attempt_date : option datetime;
  p_mastery_level : option Q;
  p_notes : option string
}.

Record UserCreate := mkUserCreate {
  uc_email : string;
  uc_username : string;
  uc_full_name : string;
  uc_password : string
}.

Definition dict := list (string * string).

Record UserInDB := mkUserInDB {
  u_email : string;
  u_username : string;
  u_full_name : string;
  u_id : UUID;
  u_hashed_password : string;
  u_created_at : datetime;
  u_is_active : bool;
  u_skills : list string;
  u_progress : dict;
  u_preferences : dict
}.

Record User := mkUser {
  usr_email : string;
  usr_username : string;
  usr_full_name : string;
  usr_id : UUID;
  usr_is_active : bool;
  usr_created_at : datetime;
  usr_skills : list string;
  usr_progress : dict;
  usr_preferences : dict
}.

Record MediaFile := mkMediaFile {
  m_id : UUID;
  m_user_id : UUID;
  m_filename : string;
  m_original_filename : string;
  m_category : option string;
  m_tags : option (list string);
  m_upload_date : datetime;
  m_file_type : string;
  m_file_size : Z
}.

End Models.

Import Models.

(* ================================================================== *)
(** * db/connection.py: the session and the statements run on it        *)
(* ================================================================== *)

Module Db.

(** The tables the handlers below read and write.  A table is the list
    of its rows in insertion order; the source declares no schema, so no
    key constraint is built in. *)
Record session := mkSession {
  interview_questions : list InterviewQuestion;
  user_answers : list UserAnswer;
  question_progress : list QuestionProgress;
  users : list UserInDB;
  media_files : list MediaFile
}.

Definition empty : session := mkSession [] [] [] [] [].

(** [result.one()]: the first row, or [None]. *)
Definition one {A} (rows : list A) : option A := hd_error rows.

(** [UPDATE t SET ... WHERE cond]. *)
Definition update_where {A} (cond : A -> bool) (set : A -> A) (t : list A) : list A :=
  map (fun r => if cond r then set r else r) t.

(** [INSERT INTO t ...]. *)
Definition insert {A} (row : A) (t : list A) : list A := (t ++ [row])%list.

(** [DELETE FROM t WHERE cond]. *)
Definition delete_where {A} (cond : A -> bool) (t : list A) : list A :=
  filter (fun r => negb (cond r)) t.

(** A [ResultSet] is an iterator over the rows of the reply.  A loop
    that runs over it to the end leaves it exhausted: a later loop over
    the same object finds no row. *)
Definition exhausted {A} (result_set : list A) : list A := [].

(** [LIMIT n]: the first [n] rows, none when [n] is not positive. *)
Definition limit {A} (n : Z) (rows : list A) : list A := firstn (Z.to_nat n) rows.

Definition set_user_answers (f : list UserAnswer -> list UserAnswer) (s : session) :=
  mkSession (interview_questions s) (f (user_answers s)) (question_progress s)
            (users s) (media_files s).
Definition set_question_progress
  (f : list QuestionProgress -> list QuestionProgress) (s : session) :=
  mkSession (interview_questions s) (user_answers s) (f (question_progress s))
            (users s) (media_files s).
Definition set_users (f : list UserInDB -> list UserInDB) (s : session) :=
  mkSession (interview_questions s) (user_answers s) (question_progress s)
            (f (users s)) (media_files s).
Definition set_interview_questions
  (f : list InterviewQuestion -> list InterviewQuestion) (s : session) :=
  mkSession (f (interview_questions s)) (user_answers s) (question_progress s)
            (users s) (media_files s).
Definition set_media_files (f : list MediaFile -> list MediaFile) (s : session) :=
  mkSession (interview_questions s) (user_answers s) (question_progress s)
            (users s) (f (media_files s)).

(** A model built from a row of the session by keyword unpacking (the
    double-star call of the source).  [Cluster.connect()] is used with
    its default row factory, so the rows are named tuples, and keyword
    unpacking takes a mapping: the call raises [TypeError] before the
    model is built. *)
Definition unpack_row {Row Model : Type} (row : Row) : result Model :=
  Raise TypeError.

(** [WHERE user_id = %s AND question_id = %s] on [question_progress]. *)
Definition progress_key (user_id question_id : UUID) (p : QuestionProgress) : bool :=
  (String.eqb (p_user_id p) user_id && String.eqb (p_question_id p) question_id)%bool.

End Db.

Import Db.

(* ================================================================== *)
(** * routes/interview_routes.py                                        *)
(* ================================================================== *)

Module InterviewRoutes.

Local Open Scope io_scope.

Definition create_question (question : InterviewQuestion) (current_user : User)
  : io session InterviewQuestion :=
  modify (set_interview_questions (insert question)) ;;;
  ret question.

(** [if param: conditions.append(...)]: a filter constrains the rows only
    when its parameter is true. *)
Definition when_given (param : option string) (test : string -> bool) : bool :=
  if truthy_opt truthy_str param
  then match param with Some v => test v | None => true end
  else true.

(** The WHERE clause [get_questions] builds: the collected conditions
    joined by AND. *)
Definition conditions (category difficulty tag company : option string)
  (row : InterviewQuestion) : bool :=
  (when_given category (fun c => String.eqb (q_category row) c) &&
   when_given difficulty (fun d => String.eqb (q_difficulty row) d) &&
   when_given tag (fun t => existsb (String.eqb t) (q_tags row)) &&
   when_given company (fun c => existsb (String.eqb c) (q_company_tags row)))%bool.

(** [limit: int = Query(default=10, le=50)] is checked before the body
    runs; the last line builds an [InterviewQuestion] from each row of
    the result by keyword unpacking. *)
Definition get_questions (category difficulty tag company : option string)
  (limit : Z) (current_user : User) : io session (list InterviewQuestion) :=
  if (50 <? limit)%Z then raise RequestValidationError else
  result <- gets (fun s =>
    Db.limit limit (filter (conditions category difficulty tag company)
                           (interview_questions s))) ;;
  lift (mapM (unpack_row (Model := InterviewQuestion)) result).

(** The row written to [user_answers]: the answer's fields, under the
    caller's id. *)
Definition stored_answer (answer : UserAnswer) (current_user : User) : UserAnswer :=
  mkUserAnswer (a_id answer) (usr_id current_user) (a_question_id answer)
    (a_answer_text answer) (a_voice_recording_url answer) (a_feedback answer)
    (a_confidence_score answer) (a_created_at answer) None.

(** [SET attempts = attempts + 1, last_attempt_date = %s]. *)
Definition bump (answer : UserAnswer) (p : QuestionProgress) : QuestionProgress :=
  mkQuestionProgress (p_user_id p) (p_question_id p) (p_status p)
    (p_attempts p + 1) (Some (a_created_at answer)) (p_mastery_level p) (p_notes p).

(** The row inserted for a first attempt: [mastery_level] and [notes]
    are not among the inserted columns. *)
Definition created_progress (answer : UserAnswer) (current_user : User)
  : QuestionProgress :=
  mkQuestionProgress (usr_id current_user) (a_question_id answer)
    "in_progress" 1 (Some (a_created_at answer)) None None.

Definition submit_answer (answer : UserAnswer) (current_user : User)
  : io session UserAnswer :=
  question <- gets (fun s =>
    one (filter (fun q => String.eqb (q_id q) (a_question_id answer))
                (interview_questions s))) ;;
  if negb (truthy_row question)
  then raise (HTTPException 404 "Question not found")
  else
    modify (set_user_answers (insert (stored_answer answer current_user))) ;;;
    progress <- gets (fun s =>
      one (filter (progress_key (usr_id current_user) (a_question_id answer))
                  (question_progress s))) ;;
    (if truthy_row progress
     then modify (set_question_progress (update_where
            (progress_key (usr_id current_user) (a_question_id answer))
            (bump answer)))
     else modify (set_question_progress
            (insert (created_progress answer current_user)))) ;;;
    ret answer.

End InterviewRoutes.

(* ================================================================== *)
(** * services/progress_service.py                                      *)
(* ================================================================== *)

Module ProgressService.

Local Open Scope io_scope.

(** The value a bucket of [weekly_data] / [categories] holds. *)
Record bucket := mkBucket {
  questions_attempted : Z;
  average_score : Q;
  scores : list Q
}.

Definition default_bucket : bucket := mkBucket 0 0%Q [].

(** A [defaultdict] in insertion order; [touch k f d] is [f] applied in
    place to [d[k]], which is created from the default when missing. *)
Fixpoint touch {K} (eqb : K -> K -> bool) (k : K) (f : bucket -> bucket)
  (d : list (K * bucket)) : list (K * bucket) :=
  match d with
  | [] => [(k, f default_bucket)]
  | (k', b) :: d' =>
      if eqb k' k then (k', f b) :: d' else (k', b) :: touch eqb k f d'
  end.

(** The body of both loops over the answers:
    [questions_attempted += 1] and, [if answer.confidence_score:],
    [scores.append(answer.confidence_score)]. *)
Definition count_answer (answer : UserAnswer) (b : bucket) : bucket :=
  let b' := mkBucket (questions_attempted b + 1) (average_score b) (scores b) in
  match a_confidence_score answer with
  | Some c =>
      if truthy_float c
      then mkBucket (questions_attempted b') (average_score b') (scores b' ++ [c])%list
      else b'
  | None => b'
  end.

(** The second loop: the average is set when [scores] is non-empty, and
    [scores] is deleted. *)
Record summary := mkSummary {
  sm_questions_attempted : Z;
  sm_average_score : Q
}.

Definition summarise (b : bucket) : result summary :=
  if truthy_list (scores b)
  then rbind (truediv (sum (scores b)) (inject_Z (len (scores b))))
             (fun avg => Ok (mkSummary (questions_attempted b) avg))
  else Ok (mkSummary (questions_attempted b) (average_score b)).

Definition summarise_all {K} (d : list (K * bucket)) : result (list (K * summary)) :=
  mapM (fun kb => rbind (summarise (snd kb)) (fun sm => Ok (fst kb, sm))) d.

Definition week_start (answer : UserAnswer) : date :=
  date_sub_days (dt_date (a_created_at answer)) (weekday (a_created_at answer)).

Definition weekly_data (answers : list UserAnswer) : list (date * bucket) :=
  fold_left (fun d answer => touch Z.eqb (week_start answer) (count_answer answer) d)
            answers [].

Definition _get_weekly_progress (answers : list UserAnswer)
  : result (list (date * summary)) :=
  summarise_all (weekly_data answers).

(** [SELECT category FROM interview_questions WHERE id = %s] then
    [.one()]. *)
Definition category_of (s : session) (question_id : UUID) : option string :=
  option_map q_category
    (one (filter (fun q => String.eqb (q_id q) question_id) (interview_questions s))).

Definition categories (s : session) (answers : list UserAnswer)
  : list (string * bucket) :=
  fold_left (fun d answer =>
               match category_of s (a_question_id answer) with
               | Some category => touch String.eqb category (count_answer answer) d
               | None => d
               end)
            answers [].

Definition _get_category_performance (s : session) (answers : list UserAnswer)
  : result (list (string * summary)) :=
  summarise_all (categories s answers).

(** [datetime.now()] is the argument [now]. *)
Definition update_mastery_level (user_id question_id : UUID) (confidence_score : Q)
  (now : datetime) : io session unit :=
  current_progress <- gets (fun s =>
    one (filter (progress_key user_id question_id) (question_progress s))) ;;
  match current_progress with
  | Some cp =>
      match p_mastery_level cp with
      | None => raise TypeError
      | Some mastery =>
          new_mastery <- lift (truediv
            (mastery * inject_Z (p_attempts cp) + confidence_score)%Q
            (inject_Z (p_attempts cp + 1))) ;;
          modify (set_question_progress (update_where
            (progress_key user_id question_id)
            (fun p => mkQuestionProgress (p_user_id p) (p_question_id p) (p_status p)
                        (p_attempts p + 1) (Some now) (Some new_mastery) (p_notes p))))
      end
  | None =>
      modify (set_question_progress (insert
        (mkQuestionProgress user_id question_id "in_progress" 1 (Some now)
           (Some confidence_score) None)))
  end.

End ProgressService.

(* ================================================================== *)
(** * services/voice_service.py                                         *)
(* ================================================================== *)

Module VoiceService.

Local Open Scope io_scope.

Record analysis := mkAnalysis {
  score : Q;
  feedback : string;
  keywords_mentioned : list string;
  missing_keywords : list string
}.

Definition _generate_feedback (score : Q) (keywords_mentioned missing_keywords : list string)
  : string :=
  let feedback :=
    [if Qle_bool (8 # 10) score
     then "Excellent response! You covered most of the key points."
     else if Qle_bool (6 # 10) score
     then "Good response, but there's room for improvement."
     else "You might want to review this topic and try again."] in
  let feedback :=
    if truthy_list keywords_mentioned
    then (feedback ++ [("You effectively mentioned: " ++ join ", " keywords_mentioned)%string])%list
    else feedback in
  let feedback :=
    if truthy_list missing_keywords
    then (feedback ++ [("Consider including these points in your answer: "
                          ++ join ", " missing_keywords)%string])%list
    else feedback in
  join " " feedback.

Section Lower.
(** [str.lower()]. *)
Variable str_lower : string -> string.

(** [keyword.lower() in transcript.lower()]. *)
Definition mentioned (transcript keyword : string) : bool :=
  contains (str_lower transcript) (str_lower keyword).

Definition analyze_interview_response (transcript : string) (question_id : UUID)
  : io session analysis :=
  question <- gets (fun s =>
    one (filter (fun q => String.eqb (q_id q) question_id) (interview_questions s))) ;;
  match question with
  | None => ret (mkAnalysis 0 "Question not found" [] [])
  | Some question =>
      let (keywords_mentioned, missing_keywords) :=
        partition (mentioned transcript) (q_keywords question) in
      keyword_score <-
        (if truthy_list (q_keywords question)
         then lift (truediv (inject_Z (len keywords_mentioned))
                            (inject_Z (len (q_keywords question))))
         else ret 0%Q) ;;
      let feedback := _generate_feedback keyword_score keywords_mentioned missing_keywords in
      ret (mkAnalysis keyword_score feedback keywords_mentioned missing_keywords)
  end.
End Lower.

End VoiceService.

(* ================================================================== *)
(** * services/job_service.py                                           *)
(* ================================================================== *)

Module JobService.

Record JobPosting := mkJobPosting {
  j_id : UUID;
  j_title : string;
  j_company : string;
  j_location : string;
  j_description : string;
  j_requirements : list string;
  j_salary_range : option string;
  j_posting_url : string;
  j_source : string;
  j_posted_date : datetime;
  j_skills_required : list string;
  j_experience_level : string
}.

Section Lower.
(** [str.lower()]. *)
Variable str_lower : string -> string.

(** [sum(1 for skill in user_skills if any(skill.lower() in req.lower()
    for req in job.skills_required))]. *)
Definition calculate_relevance (user_skills : list string) (job : JobPosting) : Z :=
  len (filter (fun skill =>
                 existsb (fun req => contains (str_lower req) (str_lower skill))
                         (j_skills_required job))
              user_skills).

Definition _sort_jobs_by_relevance (jobs : list JobPosting) (user_skills : list string)
  : list JobPosting :=
  sorted_reverse (calculate_relevance user_skills) jobs.
End Lower.

End JobService.

(* ================================================================== *)
(** * routes/user_routes.py                                             *)
(* ================================================================== *)

Module UserRoutes.

Local Open Scope io_scope.

Section Register.
(** [utils.auth.get_password_hash], and the defaults of [UserInDB.id]
    and [UserInDB.created_at], which are computed when the class is
    defined. *)
Variable get_password_hash : string -> string.
Variable default_id : UUID.
Variable default_created_at : datetime.

Definition register_user (user : UserCreate) : io session User :=
  result <- gets (fun s =>
    filter (fun u => String.eqb (u_email u) (uc_email user)) (users s)) ;;
  if truthy_row (one result)
  then raise (HTTPException 400 "Email already registered")
  else
    let user_in_db :=
      mkUserInDB (uc_email user) (uc_username user) (uc_full_name user)
        default_id (get_password_hash (uc_password user)) default_created_at
        true [] [] [] in
    modify (set_users (insert user_in_db)) ;;;
    ret (mkUser (u_email user_in_db) (u_username user_in_db) (u_full_name user_in_db)
           (u_id user_in_db) (u_is_active user_in_db) (u_created_at user_in_db)
           (u_skills user_in_db) (u_progress user_in_db) (u_preferences user_in_db)).
End Register.

End UserRoutes.

(* ================================================================== *)
(** * routes/media_routes.py                                            *)
(* ================================================================== *)

Module MediaRoutes.

Local Open Scope io_scope.

Section Storage.
(** The object store behind [s3_client]: [delete_object Bucket Key]
    returns the store after the call and, when the call raised, the
    text of the exception. *)
Variable S3 : Type.
Variable delete_object : string -> string -> S3 -> S3 * option string.
Variable BUCKET_NAME : string.

Record world := mkWorld { db : session; s3 : S3 }.

Definition on_db {A} (c : io session A) : io world A :=
  fun w => let (d, r) := c (db w) in (mkWorld d (s3 w), r).

Definition s3_delete_object (bucket key : string) : io world (option string) :=
  fun w => let (st, e) := delete_object bucket key (s3 w) in
           (mkWorld (db w) st, Ok e).

Definition delete_file (file_id : UUID) (current_user : User) : io world string :=
  file_info <- on_db (gets (fun s =>
    one (filter (fun m => (String.eqb (m_id m) file_id
                           && String.eqb (m_user_id m) (usr_id current_user))%bool)
                (media_files s)))) ;;
  match file_info with
  | None => raise (HTTPException 404 "File not found")
  | Some file_info =>
      e <- s3_delete_object BUCKET_NAME
             ("uploads/" ++ usr_id current_user ++ "/" ++ m_filename file_info) ;;
      match e with
      | Some msg => raise (HTTPException 500 msg)
      | None =>
          on_db (modify (set_media_files
                   (delete_where (fun m => String.eqb (m_id m) file_id)))) ;;;
          ret "File deleted successfully"
      end
  end.
End Storage.

Arguments mkWorld {S3} db s3.
Arguments db {S3} w.
Arguments s3 {S3} w.
Arguments delete_file {S3} delete_object BUCKET_NAME file_id current_user.

End MediaRoutes.

(* ================================================================== *)
(** * The stores the handlers can produce                               *)
(* ================================================================== *)

(** [reachable s]: the [question_progress] table of [s] can arise from
    the empty table.  In the source only [submit_answer] and
    [update_mastery_level] write to that table; [reach_other] stands
    for every other handler, and for any change whatever of the other
    tables. *)
Inductive reachable : session -> Prop :=
| reach_start s :
    question_progress s = [] ->
    reachable s
| reach_other s s' :
    reachable s ->
    question_progress s' = question_progress s ->
    reachable s'
| reach_submit_answer s answer current_user :
    reachable s ->
    reachable (fst (InterviewRoutes.submit_answer answer current_user s))
| reach_update_mastery_level s user_id question_id confidence_score now :
    reachable s ->
    reachable (fst (ProgressService.update_mastery_level
                      user_id question_id confidence_score now s)).

(* ================================================================== *)
(** * Notions the statements below use                                  *)
(* ================================================================== *)

(** The composite key of a progress row. *)
Definition key_of (p : QuestionProgress) : UUID * UUID := (p_user_id p, p_question_id p).

(** What the handlers keep true of [question_progress]: every row has
    been attempted at least once, and no two rows share a key. *)
Definition progress_wf (t : list QuestionProgress) : Prop :=
  Forall (fun p => 1 <= p_attempts p) t /\ NoDup (map key_of t).

(** [q] lies in the closed unit interval. *)
Definition in_unit (q : Q) : Prop := (0 <= q)%Q /\ (q <= 1)%Q.

(** The bound of the data model on one row: a non-negative attempt
    count, and a mastery level in [0,1] whenever the column holds a
    number. *)
Definition bounded_row (p : QuestionProgress) : Prop :=
  0 <= p_attempts p /\
  match p_mastery_level p with Some m => in_unit m | None => True end.

(** [counts P l n]: exactly [n] elements of [l], counted with
    repetitions, satisfy [P]. *)
Inductive counts {A} (P : A -> Prop) : list A -> nat -> Prop :=
| counts_nil : counts P [] 0
| counts_yes x l n : P x -> counts P l n -> counts P (x :: l) (S n)
| counts_no x l n : ~ P x -> counts P l n -> counts P (x :: l) n.

(** [sub] occurs in [s]. *)
Definition occurs_in (sub s : string) : Prop :=
  exists pre post, s = (pre ++ sub ++ post)%string.

(** [sub] occurs in [s] up to the case of the ASCII letters: some
    stretch of [s] has the same lower-case form as [sub]. *)
Definition occurs_ignoring_case (sub s : string) : Prop :=
  exists pre mid post,
    s = (pre ++ mid ++ post)%string /\ ascii_lower mid = ascii_lower sub.

(** The case-insensitive substring match for a case mapping
    [str_lower]: the lower-case form of [sub] occurs in the lower-case
    form of [s]. *)
Definition occurs_lowered (str_lower : string -> string) (sub s : string) : Prop :=
  occurs_in (str_lower sub) (str_lower s).

(** A filter parameter that [get_questions] takes into account: it is
    present and not the empty string. *)
Definition given (param : option string) (v : string) : Prop :=
  param = Some v /\ v <> "".

(** A user skill matches a posting when it occurs, up to letter case, in
    at least one of the posting's required-skill strings. *)
Definition skill_matches (str_lower : string -> string)
  (job : JobService.JobPosting) (skill : string) : Prop :=
  exists req, In req (JobService.j_skills_required job) /\
              occurs_lowered str_lower skill req.

(** [c] is the category of the question an answer refers to: the
    category of the first stored question that has the id (of the one
    question that has it, when ids are unique). *)
Definition category_of_question (s : session) (question_id : UUID) (c : string) : Prop :=
  exists before q after,
    interview_questions s = (before ++ q :: after)%list /\
    (forall q', In q' before -> q_id q' <> question_id) /\
    q_id q = question_id /\ q_category q = c.

(** The day of an answer, as the ordinal of its date; day 1, the first
    of January of year 1, is a Monday, so the Mondays are the days
    [7 k + 1]. *)
Definition day_of (answer : UserAnswer) : Z := dt_ordinal (a_created_at answer).
Definition monday (day : Z) : Prop := day mod 7 = 1.

(** The answers of the week that starts on [week]. *)
Definition in_week (week : Z) (answer : UserAnswer) : bool :=
  ((week <=? day_of answer)%Z && (day_of answer <=? week + 6)%Z)%bool.

(** [a] stands somewhere before [b] in [l]. *)
Definition precedes {A} (a b : A) (l : list A) : Prop :=
  exists l1 l2 l3, l = (l1 ++ a :: l2 ++ b :: l3)%list.

(** The confidence scores present on the answers, and those among them
    that are not zero. *)
Definition available_scores (answers : list UserAnswer) : list Q :=
  flat_map (fun a => match a_confidence_score a with Some c => [c] | None => [] end)
           answers.

Definition nonzero_scores (answers : list UserAnswer) : list Q :=
  flat_map (fun a => match a_confidence_score a with
                     | Some c => if truthy_float c then [c] else []
                     | None => []
                     end)
           answers.

(** The arithmetic mean of a non-empty list, as the source computes it:
    [sum(l) / len(l)], the sum taken from the left. *)
Definition mean (l : list Q) : Q := (Py.sum l / inject_Z (len l))%Q.

(** The answers of a bucket and the scores the aggregation takes from
    them, for any way [key_of_answer] of assigning an answer to a bucket
    (its week, or the category of its question; [None] when the answer
    is skipped). *)
Section Buckets.
Context {K : Type} (eqb : K -> K -> bool) (key_of_answer : UserAnswer -> option K).

Definition in_bucket (k : K) (answer : UserAnswer) : bool :=
  match key_of_answer answer with Some k' => eqb k' k | None => false end.

Definition members (k : K) (answers : list UserAnswer) : list UserAnswer :=
  filter (in_bucket k) answers.

Definition group_step (d : list (K * ProgressService.bucket)) (answer : UserAnswer)
  : list (K * ProgressService.bucket) :=
  match key_of_answer answer with
  | Some k => ProgressService.touch eqb k (ProgressService.count_answer answer) d
  | None => d
  end.

(** What the two loops leave in the accumulator after the answers
    [done]: one entry per non-empty bucket, holding its exact content. *)
Definition grouped (d : list (K * ProgressService.bucket)) (done : list UserAnswer)
  : Prop :=
  NoDup (map fst d) /\
  (forall k b, In (k, b) d ->
     members k done <> [] /\
     b = ProgressService.mkBucket
           (len (members k done)) 0%Q
           (nonzero_scores (members k done))) /\
  (forall k, members k done <> [] -> In k (map fst d)).
End Buckets.

(** Successive mastery updates of one (user, question), one per score. *)
Fixpoint replay (user_id question_id : UUID) (now : datetime) (scores : list Q)
  (s : session) : session :=
  match scores with
  | [] => s
  | c :: cs =>
      replay user_id question_id now cs
        (fst (ProgressService.update_mastery_level user_id question_id c now s))
  end.

(* ================================================================== *)
(** * Sample data used by the worked instances below                    *)
(* ================================================================== *)

Module Sample.

Definition t0 : datetime := mkDatetime 738000 0.
Definition t1 : datetime := mkDatetime 738001 0.

Definition alice : User :=
  mkUser "alice@example.com" "alice" "Alice A" "u-1" true t0 ["python"; "sql"] [] [].

Definition q1 : InterviewQuestion :=
  mkInterviewQuestion "q-1" "algorithms" "easy" "Two sum" "Find two addends"
    "Use a hash map" ["hash"; "Map"; "complexity"] t0 ["arrays"] ["acme"] 0 0.

Definition q2 : InterviewQuestion :=
  mkInterviewQuestion "q-2" "python" "hard" "GIL" "Explain the GIL"
    "A global lock" [] t0 ["runtime"] ["initech"] 0 0.

Definition ans1 : UserAnswer :=
  mkUserAnswer "a-1" "u-1" "q-1" "I would use a hash map" None None (Some (1 # 2)) t1 None.

(** An answer that names another user and carries an [updated_at]. *)
Definition for_someone_else : UserAnswer :=
  mkUserAnswer "a-5" "u-9" "q-1" "Posted under another id" (Some "s3://rec/5")
    (Some "fine") (Some (1 # 4)) t1 (Some t1).

Definition with_questions : session := mkSession [q1; q2] [] [] [] [].

Definition with_progress : session :=
  mkSession [q1; q2] []
    [mkQuestionProgress "u-2" "q-1" "completed" 4 (Some t0) (Some (3 # 4)) (Some "ok");
     mkQuestionProgress "u-1" "q-1" "in_progress" 2 (Some t0) (Some (1 # 2)) None]
    [] [].

Definition hash (password : string) : string := "hashed:" ++ password.

Definition bob : UserCreate := mkUserCreate "bob@example.com" "bob" "Bob B" "pw1".
Definition bob_again : UserCreate := mkUserCreate "bob@example.com" "bobby" "Bob B" "pw2".

Definition posting (id : string) (skills_required : list string)
  : JobService.JobPosting :=
  JobService.mkJobPosting id "Engineer" "Acme" "Remote" "Build things" []
    None "https://jobs.example/1" "linkedin" t0 skills_required "senior".

Definition P1 := posting "j-1" ["Python 3"; "PostgreSQL"].
Definition P2 := posting "j-2" ["Go"; "Kubernetes"].

(** An object store as the list of its keys, with a client whose delete
    succeeds and one whose delete raises. *)
Definition bucket_keys := list string.

Definition delete_ok (bucket key : string) (st : bucket_keys)
  : bucket_keys * option string :=
  (filter (fun k => negb (String.eqb k key)) st, None).

Definition delete_denied (bucket key : string) (st : bucket_keys)
  : bucket_keys * option string :=
  (st, Some "AccessDenied").

Definition cv : MediaFile :=
  mkMediaFile "f-1" "u-1" "9f.pdf" "cv.pdf" (Some "resume") None t0 "application/pdf" 1024.

Definition photo : MediaFile :=
  mkMediaFile "f-2" "u-2" "77.png" "me.png" None None t0 "image/png" 2048.

Definition with_files : MediaRoutes.world bucket_keys :=
  MediaRoutes.mkWorld (mkSession [] [] [] [] [cv; photo])
    ["uploads/u-1/9f.pdf"; "uploads/u-2/77.png"].

(** Two answers of one user in the same week, scored 0.0 and 1.0. *)
Definition zero_scored : UserAnswer :=
  mkUserAnswer "a-2" "u-1" "q-1" "No idea" None None (Some 0%Q) t0 None.

Definition full_scored : UserAnswer :=
  mkUserAnswer "a-3" "u-1" "q-1" "A hash map" None None (Some 1%Q) t1 None.

End Sample.

(* ================================================================== *)
(** * Further runtime pieces                                            *)
(* ================================================================== *)

Module PyMore.

(** [l[:n]]: the first [n] elements, or all but the last [-n] when [n]
    is negative. *)
Definition slice_to {A} (n : Z) (l : list A) : list A :=
  if (0 <=? n)%Z then firstn (Z.to_nat n) l
  else firstn (Z.to_nat (len l + n)) l.

(** [d.get(k, default)] on a dict of strings. *)
Fixpoint dict_get (d : dict) (k : string) (default : string) : string :=
  match d with
  | [] => default
  | (k', v) :: d' => if String.eqb k' k then v else dict_get d' k default
  end.

(** [sorted(l, key=key)] with float keys: ascending, and elements with
    equal keys keep their original order. *)
Section SortedKey.
Context {A : Type} (key : A -> Q).

Fixpoint insert_asc (x : A) (l : list A) : list A :=
  match l with
  | [] => [x]
  | y :: l' => if Qle_bool (key x) (key y) then x :: y :: l' else y :: insert_asc x l'
  end.

Fixpoint sorted_key (l : list A) : list A :=
  match l with
  | [] => []
  | x :: xs => insert_asc x (sorted_key xs)
  end.
End SortedKey.

(** [str(n)] for an integer. *)
Definition str_of_int (n : Z) : string := NilZero.string_of_int (Z.to_int n).

End PyMore.

Import PyMore.

(* ================================================================== *)
(** * routes/interview_routes.py: liking a question                     *)
(* ================================================================== *)

Module Catalogue.

Local Open Scope io_scope.

(** [UPDATE interview_questions SET likes = likes + 1 WHERE id = %s]. *)
Definition add_like (q : InterviewQuestion) : InterviewQuestion :=
  mkInterviewQuestion (q_id q) (q_category q) (q_difficulty q) (q_title q)
    (q_description q) (q_sample_answer q) (q_keywords q) (q_created_at q)
    (q_tags q) (q_company_tags q) (q_likes q + 1) (q_views q).

Definition like_question (question_id : UUID) (current_user : User)
  : io session dict :=
  modify (set_interview_questions
            (update_where (fun q => String.eqb (q_id q) question_id) add_like)) ;;;
  ret [("message", "Question liked successfully")].

End Catalogue.

(* ================================================================== *)
(** * services/job_service.py and routes/job_routes.py: the rest        *)
(* ================================================================== *)

Module JobSearch.

Local Open Scope io_scope.

Definition common_skills : list string :=
  ["python"; "java"; "javascript"; "react"; "node.js"; "sql";
   "aws"; "docker"; "kubernetes"; "machine learning"].

(** The two needles are ASCII, and the Unicode case mapping yields none
    of their letters from a non-ASCII character except next to a
    combining mark (U+0130) or as [k] (U+212A): whether a needle occurs
    in [description.lower()] is decided by the ASCII capitals, which
    [ascii_lower] maps. *)
Definition _extract_experience_level (description : string) : string :=
  if contains (ascii_lower description) "senior" then "senior"
  else if contains (ascii_lower description) "junior" then "junior"
  else "mid-level".

Section Providers.
(** [str.lower()]. *)
Variable str_lower : string -> string.

Definition _extract_skills (description : string) : list string :=
  filter (fun skill => contains (str_lower description) (str_lower skill)) common_skills.

(** The two job-board calls: what they return, or the exception they
    raise, for the keywords and the location they are given. *)
Variable fetch_linkedin_jobs : list string -> string -> result (list JobService.JobPosting).
Variable fetch_indeed_jobs : list string -> string -> result (list JobService.JobPosting).

Definition get_recommended_jobs (user_id : UUID) (limit : Z)
  : io session (list JobService.JobPosting) :=
  user_data <- gets (fun s =>
    one (filter (fun u => String.eqb (u_id u) user_id) (users s))) ;;
  match user_data with
  | None => ret []
  | Some user_data =>
      let user_skills := u_skills user_data in
      let preferences := u_preferences user_data in
      let location := dict_get preferences "preferred_location" "" in
      linkedin_jobs <- lift (fetch_linkedin_jobs user_skills location) ;;
      indeed_jobs <- lift (fetch_indeed_jobs user_skills location) ;;
      let all_jobs := (linkedin_jobs ++ indeed_jobs)%list in
      ret (slice_to limit
             (JobService._sort_jobs_by_relevance str_lower all_jobs user_skills))
  end.

(** [limit: int = Query(default=10, le=50)], then the service call. *)
Definition get_job_recommendations (limit : Z) (current_user : User)
  : io session (list JobService.JobPosting) :=
  if (50 <? limit)%Z then raise RequestValidationError
  else get_recommended_jobs (usr_id current_user) limit.

Definition search_jobs (keywords : option (list string))
  (location experience_level : option string) (current_user : User)
  : io session (list JobService.JobPosting) :=
  keywords <-
    (if negb (truthy_opt truthy_list keywords)
     then
       user_data <- gets (fun s =>
         one (filter (fun u => String.eqb (u_id u) (usr_id current_user)) (users s))) ;;
       ret (match user_data with Some user_data => u_skills user_data | None => [] end)
     else ret (match keywords with Some k => k | None => [] end)) ;;
  let location_or_empty :=
    match location with
    | Some l => if truthy_str l then l else ""
    | None => ""
    end in
  linkedin_jobs <- lift (fetch_linkedin_jobs keywords location_or_empty) ;;
  indeed_jobs <- lift (fetch_indeed_jobs keywords location_or_empty) ;;
  let all_jobs := (linkedin_jobs ++ indeed_jobs)%list in
  let all_jobs :=
    match experience_level with
    | Some level =>
        if truthy_str level
        then filter (fun job =>
                       String.eqb (str_lower (JobService.j_experience_level job))
                                  (str_lower level))
                    all_jobs
        else all_jobs
    | None => all_jobs
    end in
  ret all_jobs.
End Providers.

End JobSearch.

(* ================================================================== *)
(** * routes/media_routes.py: upload, listing and download              *)
(* ================================================================== *)

Module MediaFiles.

Local Open Scope io_scope.

(** What the handler reads of an [UploadFile]. *)
Record UploadFile := mkUploadFile {
  filename : string;
  file : string;
  content_type : string;
  size : Z
}.

Section Storage.
(** The object store behind [s3_client], as for [delete_object]:
    [upload_fileobj] returns the store after the call and the text of
    the exception when it raised; [generate_presigned_url] returns the
    URL, or the text of the exception.  [splitext_ext p] is
    [os.path.splitext(p)[1]]. *)
Variable S3 : Type.
Variable upload_fileobj : string -> string -> string -> S3 -> S3 * option string.
Variable generate_presigned_url : string -> string -> Z -> S3 -> string + string.
Variable BUCKET_NAME : string.
Variable splitext_ext : string -> string.

Definition s3_upload_fileobj (content bucket key : string)
  : io (MediaRoutes.world S3) (option string) :=
  fun w => let (st, e) := upload_fileobj content bucket key (MediaRoutes.s3 w) in
           (MediaRoutes.mkWorld (MediaRoutes.db w) st, Ok e).

(** [name_uuid], [row_uuid] and [now] are the two [uuid4()] draws and
    [datetime.now()]. *)
Definition upload_file (file : UploadFile) (category : option string)
  (tags : option (list string)) (current_user : User)
  (name_uuid row_uuid : UUID) (now : datetime)
  : io (MediaRoutes.world S3) dict :=
  let file_extension := splitext_ext (filename file) in
  let unique_filename := (name_uuid ++ file_extension)%string in
  e <- s3_upload_fileobj (MediaFiles.file file) BUCKET_NAME
         ("uploads/" ++ usr_id current_user ++ "/" ++ unique_filename) ;;
  match e with
  | Some msg => raise (HTTPException 500 msg)
  | None =>
      MediaRoutes.on_db S3 (modify (set_media_files (insert
        (mkMediaFile row_uuid (usr_id current_user) unique_filename (filename file)
           category tags now (content_type file) (size file))))) ;;;
      ret [("message", "File uploaded successfully"); ("filename", unique_filename)]
  end.

(** The WHERE clause of [list_files]: the caller's rows, narrowed by
    each parameter that is true. *)
Definition listed (category tag : option string) (current_user : User)
  (m : MediaFile) : bool :=
  (String.eqb (m_user_id m) (usr_id current_user) &&
   InterviewRoutes.when_given category
     (fun c => match m_category m with Some c' => String.eqb c' c | None => false end) &&
   InterviewRoutes.when_given tag
     (fun t => match m_tags m with Some ts => existsb (String.eqb t) ts | None => false end))%bool.

Definition list_files (category tag : option string) (current_user : User)
  : io (MediaRoutes.world S3) (list MediaFile) :=
  result <- MediaRoutes.on_db S3 (gets (fun s =>
    filter (listed category tag current_user) (media_files s))) ;;
  ret result.

Definition get_file (file_id : UUID) (current_user : User)
  : io (MediaRoutes.world S3) dict :=
  file_info <- MediaRoutes.on_db S3 (gets (fun s =>
    one (filter (fun m => (String.eqb (m_id m) file_id
                           && String.eqb (m_user_id m) (usr_id current_user))%bool)
                (media_files s)))) ;;
  match file_info with
  | None => raise (HTTPException 404 "File not found")
  | Some file_info =>
      fun w =>
        match generate_presigned_url BUCKET_NAME
                ("uploads/" ++ usr_id current_user ++ "/" ++ m_filename file_info)
                3600 (MediaRoutes.s3 w) with
        | inl url => (w, Ok [("url", url)])
        | inr msg => (w, Raise (HTTPException 500 msg))
        end
  end.
End Storage.

Arguments upload_file {S3} upload_fileobj BUCKET_NAME splitext_ext
  file category tags current_user name_uuid row_uuid now.
Arguments list_files {S3} category tag current_user.
Arguments get_file {S3} generate_presigned_url BUCKET_NAME file_id current_user.

End MediaFiles.

(* ================================================================== *)
(** * routes/user_routes.py: login and profile updates                  *)
(* ================================================================== *)

Module Accounts.

Local Open Scope io_scope.

(** What [login] answers: the token, or the [HTTPException] it raises
    with its headers. *)
Inductive login_outcome : Type :=
| Token (access_token token_type : string)
| Refused (status_code : Z) (detail : string) (headers : dict).

Section Auth.
(** [utils.auth.verify_password] and [utils.auth.create_access_token]
    (its [data] dict and the minutes of [expires_delta]). *)
Variable verify_password : string -> string -> bool.
Variable create_access_token : dict -> Z -> string.

Definition login (username password : string) (s : session) : login_outcome :=
  let user := one (filter (fun u => String.eqb (u_username u) username) (users s)) in
  match user with
  | None =>
      Refused 401 "Incorrect username or password" [("WWW-Authenticate", "Bearer")]
  | Some user =>
      if negb (verify_password password (u_hashed_password user))
      then Refused 401 "Incorrect username or password" [("WWW-Authenticate", "Bearer")]
      else Token (create_access_token [("sub", u_username user)] 30) "bearer"
  end.
End Auth.

(** [SET email = %s, username = %s, full_name = %s]. *)
Definition set_profile (user_update : UserCreate) (u : UserInDB) : UserInDB :=
  mkUserInDB (uc_email user_update) (uc_username user_update) (uc_full_name user_update)
    (u_id u) (u_hashed_password u) (u_created_at u) (u_is_active u)
    (u_skills u) (u_progress u) (u_preferences u).

Definition update_user (user_update : UserCreate) (current_user : User)
  : io session User :=
  modify (set_users (update_where
            (fun u => String.eqb (u_id u) (usr_id current_user))
            (set_profile user_update))) ;;;
  ret (mkUser (uc_email user_update) (uc_username user_update) (uc_full_name user_update)
         (usr_id current_user) (usr_is_active current_user) (usr_created_at current_user)
         (usr_skills current_user) (usr_progress current_user)
         (usr_preferences current_user)).

(** [SET skills = %s]. *)
Definition set_skills (skills : list string) (u : UserInDB) : UserInDB :=
  mkUserInDB (u_email u) (u_username u) (u_full_name u) (u_id u) (u_hashed_password u)
    (u_created_at u) (u_is_active u) skills (u_progress u) (u_preferences u).

Definition update_skills (skills : list string) (current_user : User)
  : io session dict :=
  modify (set_users (update_where
            (fun u => String.eqb (u_id u) (usr_id current_user))
            (set_skills skills))) ;;;
  ret [("message", "Skills updated successfully")].

Definition get_progress (current_user : User) : io session dict :=
  result <- gets (fun s =>
    one (filter (fun u => String.eqb (u_id u) (usr_id current_user)) (users s))) ;;
  ret (match result with Some row => u_progress row | None => [] end).

End Accounts.

(* ================================================================== *)
(** * services/progress_service.py: statistics and study plan           *)
(* ================================================================== *)

Module Statistics.

Local Open Scope io_scope.

Record stats := mkStats {
  total_questions_attempted : Z;
  questions_completed : Z;
  average_confidence_score : Q;
  practice_sessions : Z;
  total_practice_time : Z;
  strength_areas : list string;
  weak_areas : list string;
  recent_activity : list string;
  weekly_progress : list (date * ProgressService.summary);
  category_performance : list (string * ProgressService.summary)
}.

Record focus_area := mkFocusArea {
  category : string;
  current_score : Q;
  recommended_practice_time : string
}.

Record study_plan := mkStudyPlan {
  focus_areas : list focus_area;
  recommended_questions : list InterviewQuestion;
  daily_goals : list string;
  estimated_improvement_time : string
}.

Definition _calculate_improvement_time (st : stats) : string :=
  let avg_score := average_confidence_score st in
  if negb (Qle_bool avg_score (8 # 10)) then "1-2 weeks"
  else if negb (Qle_bool avg_score (6 # 10)) then "2-3 weeks"
  else "4-6 weeks".

(** [x < y] on floats. *)
Definition float_lt (x y : Q) : bool := negb (Qle_bool y x).

Section Queries.
(** [ORDER BY created_at DESC] on the rows of one user, and the query
    of [get_recommended_questions] for a user, a category and a limit:
    its rows in the given store, or the exception it raises. *)
Variable order_by_created_at_desc : list UserAnswer -> list UserAnswer.
Variable unattempted_questions :
  UUID -> string -> Z -> session -> result (list InterviewQuestion).

(** [answers] is one [ResultSet], passed to [_get_weekly_progress], then
    to [_get_category_performance], then looped over: the first of the
    three runs it to the end. *)
Definition get_user_statistics (user_id : UUID) : io session stats :=
  answers <- gets (fun s =>
    order_by_created_at_desc
      (filter (fun a => String.eqb (a_user_id a) user_id) (user_answers s))) ;;
  progress <- gets (fun s =>
    filter (fun p => String.eqb (p_user_id p) user_id) (question_progress s)) ;;
  weekly <- lift (ProgressService._get_weekly_progress answers) ;;
  let answers := exhausted answers in
  by_category <- (fun s => (s, ProgressService._get_category_performance s answers)) ;;
  let answers := exhausted answers in
  let total := fold_left (fun n _ => n + 1) answers 0 in
  let confidence_scores :=
    fold_left (fun l answer =>
                 match a_confidence_score answer with
                 | Some c => if truthy_float c then (l ++ [c])%list else l
                 | None => l
                 end) answers [] in
  let completed :=
    fold_left (fun n prog =>
                 if String.eqb (p_status prog) "completed" then n + 1 else n)
              progress 0 in
  average <-
    (if truthy_list confidence_scores
     then lift (truediv (Py.sum confidence_scores) (inject_Z (len confidence_scores)))
     else ret 0%Q) ;;
  ret (mkStats total completed average 0 0 [] [] [] weekly by_category).

(** The loop of [get_recommended_questions] over the sorted categories:
    it stops once [limit] questions are collected. *)
Fixpoint recommend (user_id : UUID) (limit : Z)
  (sorted_categories : list (string * ProgressService.summary))
  (recommended_questions : list InterviewQuestion) (s : session)
  : result (list InterviewQuestion) :=
  match sorted_categories with
  | [] => Ok recommended_questions
  | (category, _) :: rest =>
      if (limit <=? len recommended_questions)%Z then Ok recommended_questions
      else rbind (unattempted_questions user_id category
                    (limit - len recommended_questions) s)
                 (fun questions =>
                    recommend user_id limit rest
                      (recommended_questions ++ questions)%list s)
  end.

Definition get_recommended_questions (user_id : UUID) (limit : Z)
  : io session (list InterviewQuestion) :=
  st <- get_user_statistics user_id ;;
  let sorted_categories :=
    sorted_key (fun x => ProgressService.sm_average_score (snd x))
               (category_performance st) in
  fun s => (s, recommend user_id limit sorted_categories [] s).

Definition get_study_plan (user_id : UUID) : io session study_plan :=
  st <- get_user_statistics user_id ;;
  let weak_categories :=
    firstn 3 (sorted_key (fun x => ProgressService.sm_average_score (snd x))
                         (category_performance st)) in
  recommended <- get_recommended_questions user_id 10 ;;
  ret (mkStudyPlan
         (map (fun cd =>
                 mkFocusArea (fst cd) (ProgressService.sm_average_score (snd cd))
                   (if float_lt (ProgressService.sm_average_score (snd cd)) (6 # 10)
                    then "30 minutes" else "15 minutes"))
              weak_categories)
         recommended
         [("Practice " ++ str_of_int (len weak_categories)
             ++ " questions from your weak areas")%string;
          "Review previous answers and feedback";
          "Update your progress tracking"]
         (_calculate_improvement_time st)).
End Queries.

End Statistics.

(* ================================================================== *)
(** * Further notions the statements use                                *)
(* ================================================================== *)

(** Answers submitted one after the other by one user. *)
Fixpoint submit_all (answers : list UserAnswer) (current_user : User) (s : session)
  : session :=
  match answers with
  | [] => s
  | answer :: rest =>
      submit_all rest current_user
        (fst (InterviewRoutes.submit_answer answer current_user s))
  end.

(** [k] likes of one question, one after the other. *)
Fixpoint like_times (k : nat) (question_id : UUID) (current_user : User) (s : session)
  : session :=
  match k with
  | O => s
  | S k' =>
      like_times k' question_id current_user
        (fst (Catalogue.like_question question_id current_user s))
  end.

(** Two strings are equal up to the case of their letters, for a case
    mapping [str_lower]. *)
Definition same_ignoring_case (str_lower : string -> string) (a b : string) : Prop :=
  str_lower a = str_lower b.

(* ================================================================== *)
(** * Further sample data                                               *)
(* ================================================================== *)

Module SampleMore.

Definition carol : UserInDB :=
  mkUserInDB "carol@example.com" "carol" "Carol C" "u-3" "hashed:pw3" Sample.t0 true
    ["Python"; "sql"] [] [("preferred_location", "Berlin")].

Definition carol_user : User :=
  mkUser "carol@example.com" "carol" "Carol C" "u-3" true Sample.t0
    ["Python"; "sql"] [] [("preferred_location", "Berlin")].

Definition with_carol : session := mkSession [Sample.q1; Sample.q2] [] [] [carol] [].

Definition P3 := Sample.posting "j-3" ["SQL Server"].

Definition linkedin (keywords : list string) (location : string)
  : result (list JobService.JobPosting) := Ok [Sample.P2; P3].

Definition indeed (keywords : list string) (location : string)
  : result (list JobService.JobPosting) := Ok [Sample.P1].

Definition verify (password hashed : string) : bool :=
  String.eqb (Sample.hash password) hashed.

Definition make_token (data : dict) (minutes : Z) : string :=
  ("token:" ++ dict_get data "sub" "")%string.

Definition upload_ok (content bucket key : string) (st : Sample.bucket_keys)
  : Sample.bucket_keys * option string := ((st ++ [key])%list, None).

Definition upload_denied (content bucket key : string) (st : Sample.bucket_keys)
  : Sample.bucket_keys * option string := (st, Some "AccessDenied").

Definition presign (bucket key : string) (expires : Z) (st : Sample.bucket_keys)
  : string + string := inl ("https://" ++ bucket ++ "/" ++ key)%string.

Definition ext (p : string) : string := ".pdf".

Definition letter : MediaFiles.UploadFile :=
  MediaFiles.mkUploadFile "letter.pdf" "%PDF" "application/pdf" 4.

Definition ans2 : UserAnswer :=
  mkUserAnswer "a-4" "u-1" "q-1" "Second try" None None (Some (3 # 4)) Sample.t1 None.

Definition newest_first (answers : list UserAnswer) : list UserAnswer :=
  sorted_reverse (fun a => dt_ordinal (a_created_at a) * 86400000000
                           + dt_micros (a_created_at a)) answers.

(** A recommendation query that answers with the whole catalogue. *)
Definition whole_catalogue (user_id : UUID) (category : string) (limit : Z)
  (s : session) : result (list InterviewQuestion) := Ok (interview_questions s).

Definition trainee : JobService.JobPosting :=
  JobService.mkJobPosting "j-4" "Trainee" "Acme" "Remote" "Learn things" []
    None "https://jobs.example/4" "indeed" Sample.t0 ["Excel"] "Junior".

Definition indeed_more (keywords : list string) (location : string)
  : result (list JobService.JobPosting) := Ok [trainee; Sample.P1].

End SampleMore.

(* ================================================================== *)
(** * Basic facts about the runtime and the session                     *)
(* ================================================================== *)

Lemma one_filter_none {A} (f : A -> bool) (l : list A) :
  one (filter f l) = None <-> forall x, In x l -> f x = false.
Proof.
  induction l as [|a l IH]; cbn.
  - split; [intros _ x []|reflexivity].
  - destruct (f a) eqn:Fa; cbn.
    + split; [discriminate|]. intros H. rewrite (H a) in Fa by auto. discriminate.
    + rewrite IH. split.
      * intros H x [<-|Hx]; auto.
      * intros H x Hx. apply H. auto.
Qed.

Lemma one_filter_some {A} (f : A -> bool) (l : list A) (x : A) :
  one (filter f l) = Some x -> In x l /\ f x = true.
Proof.
  intros H. assert (Hin : In x (filter f l)).
  { destruct (filter f l); cbn in H; [discriminate|]. injection H as ->. now left. }
  now apply filter_In in Hin.
Qed.

Lemma one_filter_exists {A} (f : A -> bool) (l : list A) :
  (exists x, In x l /\ f x = true) -> exists y, one (filter f l) = Some y.
Proof.
  intros (x & Hin & Hf). destruct (one (filter f l)) as [y|] eqn:E; [eauto|].
  rewrite one_filter_none in E. rewrite (E x Hin) in Hf. discriminate.
Qed.

Lemma progress_key_spec user_id question_id p :
  progress_key user_id question_id p = true <->
  p_user_id p = user_id /\ p_question_id p = question_id.
Proof.
  unfold progress_key. rewrite andb_true_iff, !String.eqb_eq. tauto.
Qed.

Lemma update_where_Forall2 {A} (cond : A -> bool) (set : A -> A) (t : list A) :
  Forall2 (fun r r' => r' = if cond r then set r else r) t (update_where cond set t).
Proof.
  induction t; cbn; constructor; auto.
Qed.

Lemma Forall2_impl {A B} (R R' : A -> B -> Prop) l l' :
  (forall a b, R a b -> R' a b) -> Forall2 R l l' -> Forall2 R' l l'.
Proof. intros H F. induction F; constructor; auto. Qed.

(* ================================================================== *)
(** * Answer submission                                                 *)
(* ================================================================== *)

Section SubmitAnswer.
Variables (answer : UserAnswer) (current_user : User).

Let uid := usr_id current_user.
Let qid := a_question_id answer.

Lemma submit_answer_missing s :
  one (filter (fun q => String.eqb (q_id q) qid) (interview_questions s)) = None ->
  InterviewRoutes.submit_answer answer current_user s =
    (s, Raise (HTTPException 404 "Question not found")).
Proof.
  intros H. unfold InterviewRoutes.submit_answer, bind, gets, raise.
  fold qid. now rewrite H.
Qed.

Lemma submit_answer_update s q p :
  one (filter (fun q => String.eqb (q_id q) qid) (interview_questions s)) = Some q ->
  one (filter (progress_key uid qid) (question_progress s)) = Some p ->
  InterviewRoutes.submit_answer answer current_user s =
    (mkSession (interview_questions s)
       (insert (InterviewRoutes.stored_answer answer current_user) (user_answers s))
       (update_where (progress_key uid qid) (InterviewRoutes.bump answer)
          (question_progress s))
       (users s) (media_files s),
     Ok answer).
Proof.
  intros Hq Hp. unfold InterviewRoutes.submit_answer, bind, gets, modify, ret.
  fold qid uid. rewrite Hq. cbn. now rewrite Hp.
Qed.

Lemma submit_answer_create s q :
  one (filter (fun q => String.eqb (q_id q) qid) (interview_questions s)) = Some q ->
  one (filter (progress_key uid qid) (question_progress s)) = None ->
  InterviewRoutes.submit_answer answer current_user s =
    (mkSession (interview_questions s)
       (insert (InterviewRoutes.stored_answer answer current_user) (user_answers s))
       (insert (InterviewRoutes.created_progress answer current_user)
          (question_progress s))
       (users s) (media_files s),
     Ok answer).
Proof.
  intros Hq Hp. unfold InterviewRoutes.submit_answer, bind, gets, modify, ret.
  fold qid uid. rewrite Hq. cbn. now rewrite Hp.
Qed.
End SubmitAnswer.

Lemma Forall2_same {A} (R : A -> A -> Prop) (l : list A) :
  (forall a, R a a) -> Forall2 R l l.
Proof. intros H. induction l; constructor; auto. Qed.

Lemma question_lookup answer s :
  (exists q, In q (interview_questions s) /\ q_id q = a_question_id answer) ->
  exists q, one (filter (fun q => String.eqb (q_id q) (a_question_id answer))
                        (interview_questions s)) = Some q.
Proof.
  intros (q & Hin & Hq). apply one_filter_exists. exists q.
  split; [assumption|]. now apply String.eqb_eq.
Qed.

(** C3: [submit_answer] raises 404 "Question not found" and leaves the
    store as it was when no question has the answer's [question_id].
    Otherwise it returns the answer and appends one row to
    [user_answers]: the answer's id, question, text, recording, feedback,
    score and creation time, under the id of the caller (not the
    [user_id] the answer carries) and without [updated_at].  It upserts
    [question_progress]: when a row of the caller for that question
    exists, each such row gets [attempts + 1] and the answer's timestamp
    as [last_attempt_date], its other columns and every other row
    staying as they were; when none exists, one row is added for the
    caller and the question with status "in_progress", [attempts = 1],
    the answer's timestamp and no mastery level or notes.  The other
    tables are untouched. *)
Theorem submit_answer_upsert (answer : UserAnswer) (current_user : User) (s : session) :
  let uid := usr_id current_user in
  let qid := a_question_id answer in
  let mine p := p_user_id p = uid /\ p_question_id p = qid in
  ((forall q, In q (interview_questions s) -> q_id q <> qid) ->
   InterviewRoutes.submit_answer answer current_user s =
     (s, Raise (HTTPException 404 "Question not found")))
  /\
  ((exists q, In q (interview_questions s) /\ q_id q = qid) ->
   exists s',
     InterviewRoutes.submit_answer answer current_user s = (s', Ok answer) /\
     user_answers s' =
       (user_answers s ++
        [mkUserAnswer (a_id answer) uid qid (a_answer_text answer)
           (a_voice_recording_url answer) (a_feedback answer)
           (a_confidence_score answer) (a_created_at answer) None])%list /\
     interview_questions s' = interview_questions s /\
     users s' = users s /\ media_files s' = media_files s /\
     ((exists p, In p (question_progress s) /\ mine p) ->
      Forall2 (fun p p' =>
                 (mine p ->
                  p' = mkQuestionProgress (p_user_id p) (p_question_id p) (p_status p)
                         (p_attempts p + 1) (Some (a_created_at answer))
                         (p_mastery_level p) (p_notes p)) /\
                 (~ mine p -> p' = p))
              (question_progress s) (question_progress s')) /\
     ((forall p, In p (question_progress s) -> ~ mine p) ->
      question_progress s' =
        (question_progress s ++
         [mkQuestionProgress uid qid "in_progress" 1 (Some (a_created_at answer))
            None None])%list)).
Proof.
  cbv zeta.
  set (uid := usr_id current_user). set (qid := a_question_id answer).
  split.
  - intros Hno. apply submit_answer_missing. apply one_filter_none.
    intros q Hin. apply String.eqb_neq. now apply Hno.
  - intros Hq. destruct (question_lookup answer s Hq) as [q Eq].
    destruct (one (filter (progress_key uid qid) (question_progress s)))
      as [p|] eqn:Ep.
    + eexists. split; [now apply (submit_answer_update answer current_user s q p)|].
      cbn. repeat (split; [reflexivity|]). split.
      * intros _. eapply Forall2_impl; [|apply update_where_Forall2].
        cbn. fold uid qid. intros a b ->.
        destruct (progress_key uid qid a) eqn:K.
        -- split; [intros _; reflexivity|]. intros N. apply progress_key_spec in K.
           now destruct N.
        -- split; [|reflexivity]. intros M. apply progress_key_spec in M. congruence.
      * intros Hno. apply one_filter_some in Ep as [Hin K].
        apply progress_key_spec in K. now destruct (Hno p Hin).
    + eexists. split; [now apply (submit_answer_create answer current_user s q)|].
      cbn. repeat (split; [reflexivity|]). split.
      * intros (p & Hin & M). rewrite one_filter_none in Ep.
        apply progress_key_spec in M. rewrite (Ep p Hin) in M. discriminate.
      * intros _. reflexivity.
Qed.

(** C10: when [submit_answer] finds a progress row of the caller for the
    answer's question, every row of [question_progress] keeps its key,
    [mastery_level], [status] and [notes], and a row of any other
    (user, question) pair is left exactly as it was; the other tables but
    [user_answers] are untouched. *)
Theorem submit_answer_frame (answer : UserAnswer) (current_user : User)
  (s s' : session) (r : result UserAnswer) :
  let mine p := p_user_id p = usr_id current_user /\
                p_question_id p = a_question_id answer in
  (exists p, In p (question_progress s) /\ mine p) ->
  InterviewRoutes.submit_answer answer current_user s = (s', r) ->
  Forall2 (fun p p' =>
             p_user_id p' = p_user_id p /\ p_question_id p' = p_question_id p /\
             p_mastery_level p' = p_mastery_level p /\
             p_status p' = p_status p /\ p_notes p' = p_notes p /\
             (~ mine p -> p' = p))
          (question_progress s) (question_progress s') /\
  interview_questions s' = interview_questions s /\
  users s' = users s /\ media_files s' = media_files s.
Proof.
  cbv zeta. intros (p0 & Hin & M) Hrun.
  destruct (one (filter (fun q => String.eqb (q_id q) (a_question_id answer))
                        (interview_questions s))) as [q|] eqn:Eq.
  - destruct (one_filter_exists (progress_key (usr_id current_user) (a_question_id answer))
                (question_progress s)) as [p Ep].
    { exists p0. split; [assumption|]. now apply progress_key_spec. }
    rewrite (submit_answer_update answer current_user s q p Eq Ep) in Hrun.
    injection Hrun as <- <-. cbn. repeat split.
    eapply Forall2_impl; [|apply update_where_Forall2].
    cbn. intros a b ->.
    destruct (progress_key (usr_id current_user) (a_question_id answer) a) eqn:K.
    + cbn. repeat split; auto. intros N. apply progress_key_spec in K.
      now destruct N.
    + repeat split; auto.
  - rewrite (submit_answer_missing answer current_user s Eq) in Hrun.
    injection Hrun as <- <-. repeat split.
    apply Forall2_same. intros a. repeat split; auto.
Qed.

Lemma submit_answer_upsert_witness :
  InterviewRoutes.submit_answer Sample.ans1 Sample.alice Db.empty =
    (Db.empty, Raise (HTTPException 404 "Question not found")) /\
  (exists s',
     InterviewRoutes.submit_answer Sample.for_someone_else Sample.alice
       Sample.with_questions = (s', Ok Sample.for_someone_else) /\
     user_answers s' =
       [mkUserAnswer "a-5" "u-1" "q-1" "Posted under another id" (Some "s3://rec/5")
          (Some "fine") (Some (1 # 4)) Sample.t1 None] /\
     question_progress s' =
       [mkQuestionProgress "u-1" "q-1" "in_progress" 1 (Some Sample.t1) None None]) /\
  (exists s',
     InterviewRoutes.submit_answer Sample.ans1 Sample.alice Sample.with_progress =
       (s', Ok Sample.ans1) /\
     Forall2 (fun p p' =>
                (p_user_id p = "u-1" /\ p_question_id p = "q-1" ->
                 p' = mkQuestionProgress (p_user_id p) (p_question_id p) (p_status p)
                        (p_attempts p + 1) (Some Sample.t1)
                        (p_mastery_level p) (p_notes p)) /\
                (~ (p_user_id p = "u-1" /\ p_question_id p = "q-1") -> p' = p))
             (question_progress Sample.with_progress) (question_progress s')).
Proof.
  split; [|split].
  - apply (proj1 (submit_answer_upsert Sample.ans1 Sample.alice Db.empty)).
    intros q [].
  - destruct (proj2 (submit_answer_upsert Sample.for_someone_else Sample.alice
                       Sample.with_questions))
      as (s' & E & Ha & _ & _ & _ & _ & Hc).
    { exists Sample.q1. cbn. auto. }
    exists s'. split; [exact E|]. split; [exact Ha|].
    apply Hc. intros p [].
  - destruct (proj2 (submit_answer_upsert Sample.ans1 Sample.alice Sample.with_progress))
      as (s' & E & _ & _ & _ & _ & Hu & _).
    { exists Sample.q1. cbn. auto. }
    exists s'. split; [exact E|]. apply Hu.
    eexists. split; [right; left; reflexivity|]. cbn. auto.
Defined.

Lemma submit_answer_frame_witness :
  Forall2 (fun p p' =>
             p_user_id p' = p_user_id p /\ p_question_id p' = p_question_id p /\
             p_mastery_level p' = p_mastery_level p /\
             p_status p' = p_status p /\ p_notes p' = p_notes p /\
             (~ (p_user_id p = "u-1" /\ p_question_id p = "q-1") -> p' = p))
          (question_progress Sample.with_progress)
          (question_progress
             (fst (InterviewRoutes.submit_answer Sample.ans1 Sample.alice
                     Sample.with_progress))) /\
  interview_questions
    (fst (InterviewRoutes.submit_answer Sample.ans1 Sample.alice Sample.with_progress)) =
    interview_questions Sample.with_progress /\
  users (fst (InterviewRoutes.submit_answer Sample.ans1 Sample.alice Sample.with_progress)) =
    users Sample.with_progress /\
  media_files
    (fst (InterviewRoutes.submit_answer Sample.ans1 Sample.alice Sample.with_progress)) =
    media_files Sample.with_progress.
Proof.
  apply (submit_answer_frame Sample.ans1 Sample.alice Sample.with_progress _
           (snd (InterviewRoutes.submit_answer Sample.ans1 Sample.alice
                   Sample.with_progress))).
  - eexists. split; [right; left; reflexivity|]. cbn. auto.
  - apply surjective_pairing.
Defined.

(* ================================================================== *)
(** * Mastery level                                                     *)
(* ================================================================== *)

Section UpdateMastery.
Variables (user_id question_id : UUID) (confidence_score : Q) (now : datetime).

Lemma update_mastery_level_create s :
  one (filter (progress_key user_id question_id) (question_progress s)) = None ->
  ProgressService.update_mastery_level user_id question_id confidence_score now s =
    (set_question_progress
       (insert (mkQuestionProgress user_id question_id "in_progress" 1 (Some now)
                  (Some confidence_score) None)) s,
     Ok tt).
Proof.
  intros H. unfold ProgressService.update_mastery_level, bind, gets, modify.
  now rewrite H.
Qed.

Lemma update_mastery_level_null s cp :
  one (filter (progress_key user_id question_id) (question_progress s)) = Some cp ->
  p_mastery_level cp = None ->
  ProgressService.update_mastery_level user_id question_id confidence_score now s =
    (s, Raise TypeError).
Proof.
  intros H N. unfold ProgressService.update_mastery_level, bind, gets, raise.
  now rewrite H, N.
Qed.

Lemma update_mastery_level_zero s cp mastery :
  one (filter (progress_key user_id question_id) (question_progress s)) = Some cp ->
  p_mastery_level cp = Some mastery ->
  p_attempts cp = -1 ->
  ProgressService.update_mastery_level user_id question_id confidence_score now s =
    (s, Raise ZeroDivisionError).
Proof.
  intros H M A.
  unfold ProgressService.update_mastery_level, bind, gets, lift, truediv.
  now rewrite H, M, A.
Qed.

Lemma update_mastery_level_update s cp mastery :
  one (filter (progress_key user_id question_id) (question_progress s)) = Some cp ->
  p_mastery_level cp = Some mastery ->
  p_attempts cp <> -1 ->
  ProgressService.update_mastery_level user_id question_id confidence_score now s =
    (set_question_progress
       (update_where (progress_key user_id question_id)
          (fun p => mkQuestionProgress (p_user_id p) (p_question_id p) (p_status p)
                      (p_attempts p + 1) (Some now)
                      (Some ((mastery * inject_Z (p_attempts cp) + confidence_score)
                             / inject_Z (p_attempts cp + 1))%Q)
                      (p_notes p))) s,
     Ok tt).
Proof.
  intros H M A.
  unfold ProgressService.update_mastery_level, bind, gets, lift, truediv, modify.
  rewrite H, M. cbn [inject_Z Qnum].
  destruct (p_attempts cp + 1 =? 0)%Z eqn:E; [|reflexivity].
  apply Z.eqb_eq in E. lia.
Qed.
End UpdateMastery.

(** ** What every reachable store satisfies *)

Lemma map_key_update_where cond set (t : list QuestionProgress) :
  (forall p, key_of (set p) = key_of p) ->
  map key_of (update_where cond set t) = map key_of t.
Proof.
  intros H. unfold update_where. rewrite map_map. apply map_ext.
  intros p. destruct (cond p); auto.
Qed.

Lemma Forall_update_where {A} (P : A -> Prop) cond set (t : list A) :
  (forall p, P p -> cond p = true -> P (set p)) ->
  Forall P t -> Forall P (update_where cond set t).
Proof.
  intros H F. unfold update_where. induction F; cbn; constructor; auto.
  destruct (cond x) eqn:E; auto.
Qed.

Lemma progress_wf_insert t p :
  progress_wf t -> 1 <= p_attempts p ->
  one (filter (progress_key (p_user_id p) (p_question_id p)) t) = None ->
  progress_wf (insert p t).
Proof.
  intros [Ha Hk] Hp Hnone. unfold insert. split.
  - apply Forall_app. split; [assumption|]. now constructor.
  - rewrite map_app. cbn.
    apply NoDup_app; [assumption|repeat constructor; intros []|].
    intros k Hin [<-|[]]. apply in_map_iff in Hin as (p' & Hk' & Hin).
    rewrite one_filter_none in Hnone. specialize (Hnone p' Hin).
    unfold key_of in Hk'. injection Hk' as H1 H2.
    assert (K : progress_key (p_user_id p) (p_question_id p) p' = true)
      by now apply progress_key_spec.
    congruence.
Qed.

Lemma progress_wf_update_where t cond set :
  progress_wf t ->
  (forall p, key_of (set p) = key_of p) ->
  (forall p, 1 <= p_attempts p -> 1 <= p_attempts (set p)) ->
  progress_wf (update_where cond set t).
Proof.
  intros [Ha Hk] Hkey Hatt. split.
  - apply Forall_update_where; auto.
  - now rewrite map_key_update_where.
Qed.

Lemma submit_answer_wf answer current_user s :
  progress_wf (question_progress s) ->
  progress_wf (question_progress
                 (fst (InterviewRoutes.submit_answer answer current_user s))).
Proof.
  intros W.
  destruct (one (filter (fun q => String.eqb (q_id q) (a_question_id answer))
                        (interview_questions s))) as [q|] eqn:Eq.
  - destruct (one (filter (progress_key (usr_id current_user) (a_question_id answer))
                          (question_progress s))) as [p|] eqn:Ep.
    + rewrite (submit_answer_update _ _ _ _ _ Eq Ep). cbn.
      apply progress_wf_update_where; auto. cbn. intros; lia.
    + rewrite (submit_answer_create _ _ _ _ Eq Ep). cbn.
      apply progress_wf_insert; auto. cbn. lia.
  - now rewrite (submit_answer_missing _ _ _ Eq).
Qed.

Lemma update_mastery_level_wf user_id question_id confidence_score now s :
  progress_wf (question_progress s) ->
  progress_wf (question_progress
                 (fst (ProgressService.update_mastery_level
                         user_id question_id confidence_score now s))).
Proof.
  intros W.
  destruct (one (filter (progress_key user_id question_id) (question_progress s)))
    as [cp|] eqn:E.
  - destruct (p_mastery_level cp) as [m|] eqn:M.
    + destruct (Z.eq_dec (p_attempts cp) (-1)) as [A|A].
      * now rewrite (update_mastery_level_zero _ _ _ _ _ _ _ E M A).
      * rewrite (update_mastery_level_update _ _ _ _ _ _ _ E M A). cbn.
        apply progress_wf_update_where; auto. cbn. intros; lia.
    + now rewrite (update_mastery_level_null _ _ _ _ _ _ E M).
  - rewrite (update_mastery_level_create _ _ _ _ _ E). cbn.
    apply progress_wf_insert; auto. cbn. lia.
Qed.

Lemma delete_file_progress {S3} delete_object bucket file_id current_user
  (w : MediaRoutes.world S3) :
  question_progress
    (MediaRoutes.db (fst (MediaRoutes.delete_file delete_object bucket
                            file_id current_user w))) =
  question_progress (MediaRoutes.db w).
Proof.
  unfold MediaRoutes.delete_file, MediaRoutes.on_db, MediaRoutes.s3_delete_object,
    bind, gets, modify, raise, ret.
  cbn. destruct (one _) as [f|]; cbn; [|reflexivity].
  destruct (delete_object _ _ _) as [st [msg|]]; reflexivity.
Qed.

Lemma register_user_progress hash default_id default_created_at user s :
  question_progress
    (fst (UserRoutes.register_user hash default_id default_created_at user s)) =
  question_progress s.
Proof.
  unfold UserRoutes.register_user, bind, gets, modify, raise, ret.
  now destruct (truthy_row _).
Qed.

Lemma reachable_progress_wf s : reachable s -> progress_wf (question_progress s).
Proof.
  induction 1 as [s E|s s' R IH E|s answer current_user R IH|s u q c now R IH].
  - rewrite E. split; constructor.
  - now rewrite E.
  - now apply submit_answer_wf.
  - now apply update_mastery_level_wf.
Qed.

Lemma unique_row t row p :
  NoDup (map key_of t) -> In row t -> In p t -> key_of p = key_of row -> p = row.
Proof.
  induction t as [|x t IH]; cbn; [intros _ []|].
  intros ND Hr Hp K. inversion ND as [|? ? Hnin ND']; subst.
  destruct Hr as [->|Hr], Hp as [->|Hp]; auto.
  - exfalso. apply Hnin. rewrite <- K. now apply in_map.
  - exfalso. apply Hnin. rewrite K. now apply in_map.
Qed.

Lemma select_only t row :
  In row t ->
  (forall p, In p t -> p_user_id p = p_user_id row ->
             p_question_id p = p_question_id row -> p = row) ->
  one (filter (progress_key (p_user_id row) (p_question_id row)) t) = Some row.
Proof.
  intros Hin U.
  destruct (one_filter_exists (progress_key (p_user_id row) (p_question_id row)) t)
    as [y Hy].
  { exists row. split; [assumption|]. now apply progress_key_spec. }
  rewrite Hy. f_equal. apply one_filter_some in Hy as [Hy K].
  apply progress_key_spec in K as [K1 K2]. now apply U.
Qed.

Lemma Forall2_In_l {A B} (R : A -> B -> Prop) l l' :
  Forall2 R l l' -> Forall2 (fun a b => In a l /\ R a b) l l'.
Proof.
  induction 1; constructor.
  - split; [now left|assumption].
  - eapply Forall2_impl; [|eassumption]. cbn. intros a b [Ha HR].
    split; [now right|assumption].
Qed.

(** C1: for every progress row of a (user, question) pair that has no
    other row, with mastery [m] and attempts [a], and for every score
    [s], [update_mastery_level] succeeds and rewrites that row to mastery
    exactly [(m * a + s) / (a + 1)] and attempts [a + 1] (the divisor is
    formed from the old count [a]), stamps it with the current time,
    keeps its key, status and notes, and changes no other row and no
    other table.  The attempts may be any integer but [-1], where the
    quotient has no value. *)
Theorem update_mastery_level_running_mean
  (s : session) (row : QuestionProgress) (m : Q) (a : Z)
  (confidence_score : Q) (now : datetime) :
  In row (question_progress s) ->
  (forall p, In p (question_progress s) ->
             p_user_id p = p_user_id row -> p_question_id p = p_question_id row ->
             p = row) ->
  p_mastery_level row = Some m ->
  p_attempts row = a ->
  a <> -1 ->
  exists s',
    ProgressService.update_mastery_level
      (p_user_id row) (p_question_id row) confidence_score now s = (s', Ok tt) /\
    Forall2 (fun p p' =>
               (p = row ->
                p' = mkQuestionProgress (p_user_id row) (p_question_id row)
                       (p_status row) (a + 1) (Some now)
                       (Some ((m * inject_Z a + confidence_score) / inject_Z (a + 1))%Q)
                       (p_notes row)) /\
               (p <> row -> p' = p))
            (question_progress s) (question_progress s') /\
    interview_questions s' = interview_questions s /\
    user_answers s' = user_answers s /\
    users s' = users s /\ media_files s' = media_files s.
Proof.
  intros Hin U M A A1.
  pose proof (select_only _ _ Hin U) as Sel.
  rewrite <- A in A1.
  eexists. split.
  - apply (update_mastery_level_update _ _ _ _ _ _ _ Sel M A1).
  - cbn. split; [|repeat split; reflexivity].
    eapply Forall2_impl; [|apply Forall2_In_l, update_where_Forall2].
    cbn. intros p p' [Hp ->].
    destruct (progress_key (p_user_id row) (p_question_id row) p) eqn:K.
    + split.
      * intros ->. now rewrite A.
      * intros N. exfalso. apply N.
        apply progress_key_spec in K as [K1 K2]. now apply U.
    + split; [|reflexivity]. intros ->.
      assert (K' : progress_key (p_user_id row) (p_question_id row) row = true)
        by now apply progress_key_spec.
      congruence.
Qed.

Lemma update_mastery_level_running_mean_witness :
  exists s',
    ProgressService.update_mastery_level "u-1" "q-1" 1 Sample.t1 Sample.with_progress =
      (s', Ok tt) /\
    Forall2 (fun p p' =>
               (p = mkQuestionProgress "u-1" "q-1" "in_progress" 2 (Some Sample.t0)
                      (Some (1 # 2)) None ->
                p' = mkQuestionProgress "u-1" "q-1" "in_progress" (2 + 1) (Some Sample.t1)
                       (Some (((1 # 2) * inject_Z 2 + 1) / inject_Z (2 + 1))%Q) None) /\
               (p <> mkQuestionProgress "u-1" "q-1" "in_progress" 2 (Some Sample.t0)
                       (Some (1 # 2)) None -> p' = p))
            (question_progress Sample.with_progress) (question_progress s') /\
    interview_questions s' = interview_questions Sample.with_progress /\
    user_answers s' = user_answers Sample.with_progress /\
    users s' = users Sample.with_progress /\
    media_files s' = media_files Sample.with_progress.
Proof.
  apply (update_mastery_level_running_mean
           Sample.with_progress
           (mkQuestionProgress "u-1" "q-1" "in_progress" 2 (Some Sample.t0)
              (Some (1 # 2)) None)
           (1 # 2) 2 1 Sample.t1).
  - right. left. reflexivity.
  - intros p [<-|[<-|[]]] K1 K2; [discriminate K1|reflexivity].
  - reflexivity.
  - reflexivity.
  - lia.
Defined.

(** Three updates with the scores 1/2, 1 and 0: three attempts, mastery
    level 1/2. *)
Example three_updates_running_mean :
  exists m,
    map (fun p => (p_attempts p, p_mastery_level p))
        (question_progress
           (replay "u-1" "q-1" Sample.t0 [1 # 2; 1; 0]%Q Db.empty)) = [(3, Some m)] /\
    (m == 1 # 2)%Q.
Proof. eexists. split; reflexivity. Qed.

Lemma running_mean_in_unit (m s : Q) (a : Z) :
  in_unit m -> 0 <= a -> in_unit s ->
  in_unit ((m * inject_Z a + s) / inject_Z (a + 1))%Q.
Proof.
  unfold in_unit. intros [Hm0 Hm1] Ha [Hs0 Hs1].
  assert (Ha' : (0 <= inject_Z a)%Q)
    by (change 0%Q with (inject_Z 0); rewrite <- Zle_Qle; exact Ha).
  assert (Hd : (0 < inject_Z (a + 1))%Q).
  { rewrite inject_Z_plus. change (inject_Z 1) with 1%Q. lra. }
  assert (Hma : (0 <= m * inject_Z a)%Q) by (apply Qmult_le_0_compat; assumption).
  assert (Hma1 : (m * inject_Z a <= inject_Z a)%Q).
  { setoid_replace (inject_Z a) with (1 * inject_Z a)%Q at 2 by ring.
    apply Qmult_le_compat_r; assumption. }
  split.
  - apply Qle_shift_div_l; [assumption|]. lra.
  - apply Qle_shift_div_r; [assumption|].
    rewrite inject_Z_plus. change (inject_Z 1) with 1%Q. lra.
Qed.

(** ** Successive updates of one pair *)

Lemma select_last t row user_id question_id :
  (forall p, In p t -> ~ (p_user_id p = user_id /\ p_question_id p = question_id)) ->
  p_user_id row = user_id -> p_question_id row = question_id ->
  one (filter (progress_key user_id question_id) (t ++ [row])%list) = Some row.
Proof.
  intros Hno Hu Hq. rewrite filter_app.
  assert (E : filter (progress_key user_id question_id) t = []).
  { induction t as [|x t IH]; [reflexivity|]. cbn.
    destruct (progress_key user_id question_id x) eqn:K.
    - apply progress_key_spec in K. destruct (Hno x); [now left|assumption].
    - apply IH. intros p Hp. apply Hno. now right. }
  rewrite E. cbn.
  assert (K : progress_key user_id question_id row = true)
    by now apply progress_key_spec.
  now rewrite K.
Qed.

Lemma update_where_last t row user_id question_id (set : QuestionProgress -> QuestionProgress) :
  (forall p, In p t -> ~ (p_user_id p = user_id /\ p_question_id p = question_id)) ->
  p_user_id row = user_id -> p_question_id row = question_id ->
  update_where (progress_key user_id question_id) set (t ++ [row])%list =
    (t ++ [set row])%list.
Proof.
  intros Hno Hu Hq. unfold update_where. rewrite map_app. cbn.
  assert (K : progress_key user_id question_id row = true)
    by now apply progress_key_spec.
  rewrite K. f_equal.
  induction t as [|x t IH]; [reflexivity|]. cbn.
  destruct (progress_key user_id question_id x) eqn:Kx.
  - apply progress_key_spec in Kx. destruct (Hno x); [now left|assumption].
  - f_equal. apply IH. intros p Hp. apply Hno. now right.
Qed.

Lemma replay_last_row user_id question_id now (cs : list Q) :
  forall s t status a m notes,
    question_progress s =
      (t ++ [mkQuestionProgress user_id question_id status a (Some now) (Some m) notes])%list ->
    (forall p, In p t -> ~ (p_user_id p = user_id /\ p_question_id p = question_id)) ->
    0 <= a ->
    exists m',
      question_progress (replay user_id question_id now cs s) =
        (t ++ [mkQuestionProgress user_id question_id status (a + len cs) (Some now)
                 (Some m') notes])%list /\
      (cs = [] -> m' = m) /\
      (in_unit m -> Forall in_unit cs -> in_unit m').
Proof.
  induction cs as [|c cs IH]; intros s t status a m notes E Hno Ha.
  - exists m. cbn. unfold len. cbn. rewrite Z.add_0_r. auto.
  - set (row := mkQuestionProgress user_id question_id status a (Some now) (Some m) notes)
      in *.
    assert (Sel : one (filter (progress_key user_id question_id) (question_progress s))
                  = Some row)
      by (rewrite E; now apply select_last).
    assert (A : p_attempts row <> -1) by (cbn; lia).
    pose proof (update_mastery_level_update user_id question_id c now s row m Sel
                  eq_refl A) as Eq.
    cbn [replay].
    destruct (IH (fst (ProgressService.update_mastery_level user_id question_id c now s))
                t status (a + 1)
                ((m * inject_Z a + c) / inject_Z (a + 1))%Q notes)
      as (m' & E' & _ & Hunit).
    + rewrite Eq. cbn [fst set_question_progress question_progress]. rewrite E.
      now rewrite (update_where_last t row user_id question_id).
    + assumption.
    + lia.
    + exists m'. split; [|split].
      * rewrite E'.
        replace (a + 1 + len cs) with (a + len (c :: cs))
          by (unfold len; cbn [List.length]; lia).
        reflexivity.
      * intros H. discriminate H.
      * intros Hm Hcs. inversion Hcs as [|? ? Hc Hcs']; subst.
        apply Hunit; [|assumption]. now apply running_mean_in_unit.
Qed.

(** After a first score and any further ones for a (user, question)
    pair that had no progress row, the table holds the rows it had and,
    after them, one row for the pair: status "in_progress", as many
    attempts as scores were given, the time of the update, no notes.
    After a single score the mastery level is that score, and when every
    score lies between 0 and 1 so does the mastery level. *)
Theorem updates_leave_one_row
  (s : session) (user_id question_id : UUID) (now : datetime) (c : Q) (cs : list Q) :
  (forall p, In p (question_progress s) ->
             ~ (p_user_id p = user_id /\ p_question_id p = question_id)) ->
  exists m,
    question_progress (replay user_id question_id now (c :: cs) s) =
      (question_progress s ++
       [mkQuestionProgress user_id question_id "in_progress" (len (c :: cs)) (Some now)
          (Some m) None])%list /\
    (cs = [] -> m = c) /\
    (Forall in_unit (c :: cs) -> in_unit m).
Proof.
  intros Hnone.
  assert (Sel : one (filter (progress_key user_id question_id) (question_progress s))
                = None).
  { apply one_filter_none. intros p Hp.
    destruct (progress_key user_id question_id p) eqn:K; [|reflexivity].
    apply progress_key_spec in K. now destruct (Hnone p Hp). }
  pose proof (update_mastery_level_create user_id question_id c now s Sel) as Eq.
  destruct (replay_last_row user_id question_id now cs
              (fst (ProgressService.update_mastery_level user_id question_id c now s))
              (question_progress s) "in_progress" 1 c None)
    as (m & E & Hone & Hunit).
  - rewrite Eq. reflexivity.
  - assumption.
  - lia.
  - exists m. cbn [replay]. split; [|split].
    + rewrite E.
      replace (1 + len cs) with (len (c :: cs))
        by (unfold len; cbn [List.length]; lia).
      reflexivity.
    + assumption.
    + intros H. inversion H; subst. now apply Hunit.
Qed.


Lemma Forall_insert {A} (P : A -> Prop) (row : A) (t : list A) :
  Forall P t -> P row -> Forall P (insert row t).
Proof.
  intros F H. unfold insert. apply Forall_app. split; [assumption|now constructor].
Qed.

Lemma submit_answer_bounded answer current_user s :
  Forall bounded_row (question_progress s) ->
  Forall bounded_row
    (question_progress (fst (InterviewRoutes.submit_answer answer current_user s))).
Proof.
  intros B.
  destruct (one (filter (fun q => String.eqb (q_id q) (a_question_id answer))
                        (interview_questions s))) as [q|] eqn:Eq.
  - destruct (one (filter (progress_key (usr_id current_user) (a_question_id answer))
                          (question_progress s))) as [p|] eqn:Ep.
    + rewrite (submit_answer_update _ _ _ _ _ Eq Ep). cbn.
      apply Forall_update_where; [|assumption].
      intros r [Hr Hm] _. split; cbn; [lia|assumption].
    + rewrite (submit_answer_create _ _ _ _ Eq Ep). cbn.
      apply Forall_insert; [assumption|]. split; cbn; [lia|exact I].
  - now rewrite (submit_answer_missing _ _ _ Eq).
Qed.

(** C2: from a store whose progress rows have non-negative attempts and
    a mastery level in [0,1] (whenever the column holds a number), and
    for a score in [0,1], [update_mastery_level] keeps that bound on
    every row, never divides by zero, and when it succeeds (update or
    create branch) the rows of that (user, question) hold a mastery level
    in [0,1].  [submit_answer] keeps the bound as well: it never writes
    a mastery level. *)
Theorem mastery_level_bounded
  (s : session) (user_id question_id : UUID) (confidence_score : Q) (now : datetime) :
  Forall bounded_row (question_progress s) ->
  in_unit confidence_score ->
  let out := ProgressService.update_mastery_level
               user_id question_id confidence_score now s in
  Forall bounded_row (question_progress (fst out)) /\
  snd out <> Raise ZeroDivisionError /\
  (snd out = Ok tt ->
   forall p, In p (question_progress (fst out)) ->
     p_user_id p = user_id -> p_question_id p = question_id ->
     exists m', p_mastery_level p = Some m' /\ in_unit m') /\
  (forall answer current_user,
     Forall bounded_row
       (question_progress (fst (InterviewRoutes.submit_answer answer current_user s)))) /\
  (forall question current_user,
     question_progress (fst (InterviewRoutes.create_question question current_user s)) =
     question_progress s) /\
  (forall hash default_id default_created_at user,
     question_progress
       (fst (UserRoutes.register_user hash default_id default_created_at user s)) =
     question_progress s) /\
  (forall (S3 : Type) delete_object bucket file_id current_user (st : S3),
     question_progress
       (MediaRoutes.db (fst (MediaRoutes.delete_file delete_object bucket file_id
                               current_user (MediaRoutes.mkWorld s st)))) =
     question_progress s).
Proof.
  intros B Hs. cbv zeta.
  assert (Others :
    (forall question current_user,
       question_progress
         (fst (InterviewRoutes.create_question question current_user s)) =
       question_progress s) /\
    (forall hash default_id default_created_at user,
       question_progress
         (fst (UserRoutes.register_user hash default_id default_created_at user s)) =
       question_progress s) /\
    (forall (S3 : Type) delete_object bucket file_id current_user (st : S3),
       question_progress
         (MediaRoutes.db (fst (MediaRoutes.delete_file delete_object bucket file_id
                                 current_user (MediaRoutes.mkWorld s st)))) =
       question_progress s)).
  { split; [reflexivity|]. split.
    - intros. apply register_user_progress.
    - intros. now rewrite delete_file_progress. }
  assert (Sub : forall answer current_user,
             Forall bounded_row
               (question_progress
                  (fst (InterviewRoutes.submit_answer answer current_user s))))
    by (intros; now apply submit_answer_bounded).
  destruct (one (filter (progress_key user_id question_id) (question_progress s)))
    as [cp|] eqn:E.
  - pose proof (one_filter_some _ _ _ E) as [Hin _].
    pose proof (proj1 (Forall_forall _ _) B cp Hin) as [Hatt Hmast].
    destruct (p_mastery_level cp) as [m|] eqn:M.
    + assert (A : p_attempts cp <> -1) by lia.
      rewrite (update_mastery_level_update _ _ _ _ _ _ _ E M A). cbn [fst snd].
      pose proof (running_mean_in_unit m confidence_score (p_attempts cp) Hmast Hatt Hs)
        as Hnew.
      split; [|split; [discriminate|split; [|split; [exact Sub|exact Others]]]].
      * cbn. apply Forall_update_where; [|assumption].
        intros r [Hr _] _. split; cbn; [lia|assumption].
      * intros _ p Hp K1 K2. cbn in Hp. unfold update_where in Hp.
        apply in_map_iff in Hp as (r & <- & Hr).
        destruct (progress_key user_id question_id r) eqn:K.
        -- cbn. eauto.
        -- exfalso. assert (K' : progress_key user_id question_id r = true)
             by now apply progress_key_spec.
           congruence.
    + rewrite (update_mastery_level_null _ _ _ _ _ _ E M). cbn [fst snd].
      split; [assumption|split; [discriminate|split; [discriminate|]]].
      split; [exact Sub|exact Others].
  - rewrite (update_mastery_level_create _ _ _ _ _ E). cbn [fst snd].
    split; [|split; [discriminate|split; [|split; [exact Sub|exact Others]]]].
    + cbn. apply Forall_insert; [assumption|]. split; cbn; [lia|assumption].
    + intros _ p Hp K1 K2. cbn in Hp. unfold insert in Hp.
      apply in_app_iff in Hp as [Hp|[<-|[]]].
      * exfalso. rewrite one_filter_none in E.
        assert (K' : progress_key user_id question_id p = true)
          by now apply progress_key_spec.
        rewrite (E p Hp) in K'. discriminate.
      * cbn. eauto.
Qed.

Lemma mastery_level_bounded_witness :
  Forall bounded_row
    (question_progress
       (fst (ProgressService.update_mastery_level "u-1" "q-1" 1 Sample.t1
               Sample.with_progress))) /\
  (forall p,
     In p (question_progress
             (fst (ProgressService.update_mastery_level "u-1" "q-1" 1 Sample.t1
                     Sample.with_progress))) ->
     p_user_id p = "u-1" -> p_question_id p = "q-1" ->
     exists m', p_mastery_level p = Some m' /\ in_unit m').
Proof.
  assert (B : Forall bounded_row (question_progress Sample.with_progress)).
  { repeat constructor; cbn; unfold Qle; cbn; lia. }
  assert (U : in_unit 1).
  { split; unfold Qle; cbn; lia. }
  destruct (mastery_level_bounded Sample.with_progress "u-1" "q-1" 1 Sample.t1 B U)
    as (H1 & _ & H3 & _).
  split; [exact H1|]. apply H3. reflexivity.
Defined.


(* ================================================================== *)
(** * Registration                                                      *)
(* ================================================================== *)

Section Registration.
Variable get_password_hash : string -> string.
Variable default_id : UUID.
Variable default_created_at : datetime.

Let register := UserRoutes.register_user get_password_hash default_id default_created_at.

Lemma register_user_taken user s row :
  one (filter (fun u => String.eqb (u_email u) (uc_email user)) (users s)) = Some row ->
  register user s = (s, Raise (HTTPException 400 "Email already registered")).
Proof.
  intros H. unfold register, UserRoutes.register_user, bind, gets, raise.
  now rewrite H.
Qed.

Lemma register_user_fresh user s :
  one (filter (fun u => String.eqb (u_email u) (uc_email user)) (users s)) = None ->
  register user s =
    (set_users (insert (mkUserInDB (uc_email user) (uc_username user) (uc_full_name user)
                          default_id (get_password_hash (uc_password user))
                          default_created_at true [] [] [])) s,
     Ok (mkUser (uc_email user) (uc_username user) (uc_full_name user)
           default_id true default_created_at [] [] [])).
Proof.
  intros H. unfold register, UserRoutes.register_user, bind, gets, modify, ret.
  now rewrite H.
Qed.

Lemma register_user_then_taken user s :
  exists row,
    one (filter (fun u => String.eqb (u_email u) (uc_email user))
                (users (fst (register user s)))) = Some row.
Proof.
  apply one_filter_exists.
  destruct (one (filter (fun u => String.eqb (u_email u) (uc_email user)) (users s)))
    as [row|] eqn:E.
  - rewrite (register_user_taken _ _ _ E). cbn.
    exists row. exact (one_filter_some _ _ _ E).
  - rewrite (register_user_fresh _ _ E). cbn. eexists. split.
    + unfold insert. apply in_or_app. right. left. reflexivity.
    + cbn. apply String.eqb_refl.
Qed.
End Registration.

(** C4: of two consecutive [register_user] calls that carry the same
    email, the second raises 400 "Email already registered" and leaves
    every table as the first call left it; a call whose email no row of
    [users] carries succeeds, returns that user and appends exactly one
    row, the only one with that email; and a call whose email some row
    carries raises the same error and changes nothing. *)
Theorem register_user_no_duplicate
  (get_password_hash : string -> string) (default_id : UUID)
  (default_created_at : datetime) (first second : UserCreate) (s : session) :
  let register :=
    UserRoutes.register_user get_password_hash default_id default_created_at in
  let s1 := fst (register first s) in
  (uc_email second = uc_email first ->
   register second s1 = (s1, Raise (HTTPException 400 "Email already registered")))
  /\
  ((forall u, In u (users s) -> u_email u <> uc_email first) ->
   exists row,
     snd (register first s) =
       Ok (mkUser (uc_email first) (uc_username first) (uc_full_name first)
             default_id true default_created_at [] [] []) /\
     users s1 = (users s ++ [row])%list /\
     u_email row = uc_email first /\
     u_username row = uc_username first /\
     u_full_name row = uc_full_name first /\
     u_hashed_password row = get_password_hash (uc_password first) /\
     filter (fun u => String.eqb (u_email u) (uc_email first)) (users s1) = [row])
  /\
  ((exists u, In u (users s) /\ u_email u = uc_email first) ->
   register first s = (s, Raise (HTTPException 400 "Email already registered"))).
Proof.
  cbv zeta. split; [|split].
  2: { intros Hfresh.
    assert (E : one (filter (fun u => String.eqb (u_email u) (uc_email first)) (users s))
                = None).
    { apply one_filter_none. intros u Hu. apply String.eqb_neq. now apply Hfresh. }
    rewrite (register_user_fresh _ _ _ _ _ E). cbn. eexists.
    split; [reflexivity|]. split; [reflexivity|]. cbn. repeat split.
    unfold insert. rewrite filter_app. cbn. rewrite String.eqb_refl.
    replace (filter _ (users s)) with (@nil UserInDB); [reflexivity|].
    symmetry. destruct (filter _ (users s)) eqn:F; [reflexivity|]. cbn in E. discriminate. }
  2: { intros (u & Hu & He).
    destruct (one_filter_exists (fun u => String.eqb (u_email u) (uc_email first))
                (users s)) as [row Hrow].
    { exists u. split; [assumption|]. now apply String.eqb_eq. }
    apply (register_user_taken _ _ _ _ _ _ Hrow). }
  - intros Heq.
    destruct (register_user_then_taken get_password_hash default_id default_created_at
                first s) as [row Hrow].
    rewrite <- Heq in Hrow.
    apply (register_user_taken _ _ _ _ _ _ Hrow).
Qed.

Lemma register_user_no_duplicate_witness :
  let register := UserRoutes.register_user Sample.hash "u-0" Sample.t0 in
  let s1 := fst (register Sample.bob Db.empty) in
  register Sample.bob_again s1 =
    (s1, Raise (HTTPException 400 "Email already registered")) /\
  (exists row,
     snd (register Sample.bob Db.empty) =
       Ok (mkUser "bob@example.com" "bob" "Bob B" "u-0" true Sample.t0 [] [] []) /\
     users s1 = [row] /\
     u_email row = "bob@example.com" /\
     u_username row = "bob" /\
     u_full_name row = "Bob B" /\
     u_hashed_password row = "hashed:pw1" /\
     filter (fun u => String.eqb (u_email u) "bob@example.com") (users s1) = [row]).
Proof.
  destruct (register_user_no_duplicate Sample.hash "u-0" Sample.t0
              Sample.bob Sample.bob_again Db.empty) as (H1 & H2 & _).
  split.
  - apply H1. reflexivity.
  - apply H2. intros u [].
Defined.

(* ================================================================== *)
(** * Question catalogue                                                *)
(* ================================================================== *)

Lemma when_given_true param test :
  InterviewRoutes.when_given param test = true ->
  forall v, given param v -> test v = true.
Proof.
  unfold InterviewRoutes.when_given, given. intros H v [-> Hv].
  destruct v; [contradiction|]. exact H.
Qed.

Lemma when_given_intro param test :
  (forall v, given param v -> test v = true) ->
  InterviewRoutes.when_given param test = true.
Proof.
  unfold InterviewRoutes.when_given, given. intros H.
  destruct param as [[|c v]|]; cbn; try reflexivity.
  apply H. split; [reflexivity|discriminate].
Qed.

Lemma existsb_eqb_In (x : string) (l : list string) :
  existsb (String.eqb x) l = true -> In x l.
Proof.
  intros H. apply existsb_exists in H as (y & Hy & E).
  apply String.eqb_eq in E. now subst.
Qed.


Lemma mapM_unpack_row {Row Model : Type} (rows : list Row) :
  mapM (unpack_row (Model := Model)) rows =
    match rows with [] => Ok [] | _ :: _ => Raise TypeError end.
Proof. destruct rows; reflexivity. Qed.

Lemma conditions_spec category difficulty tag company (q : InterviewQuestion) :
  InterviewRoutes.conditions category difficulty tag company q = true <->
  (forall c, given category c -> q_category q = c) /\
  (forall d, given difficulty d -> q_difficulty q = d) /\
  (forall t, given tag t -> In t (q_tags q)) /\
  (forall c, given company c -> In c (q_company_tags q)).
Proof.
  unfold InterviewRoutes.conditions. rewrite !andb_true_iff. split.
  - intros [[[C1 C2] C3] C4]. repeat split.
    + intros c G. apply String.eqb_eq. exact (when_given_true _ _ C1 c G).
    + intros d G. apply String.eqb_eq. exact (when_given_true _ _ C2 d G).
    + intros t G. apply existsb_eqb_In. exact (when_given_true _ _ C3 t G).
    + intros c G. apply existsb_eqb_In. exact (when_given_true _ _ C4 c G).
  - intros (H1 & H2 & H3 & H4). repeat split; apply when_given_intro.
    + intros c G. apply String.eqb_eq. auto.
    + intros d G. apply String.eqb_eq. auto.
    + intros t G. apply existsb_exists. exists t. split; [auto|apply String.eqb_refl].
    + intros c G. apply existsb_exists. exists c. split; [auto|apply String.eqb_refl].
Qed.

Lemma limit_nil_iff {A} (n : Z) (rows : list A) :
  Db.limit n rows = [] <-> n <= 0 \/ rows = [].
Proof.
  unfold Db.limit. split.
  - intros H. destruct rows as [|x rows]; [now right|]. left.
    destruct (Z.to_nat n) eqn:E; [lia|discriminate H].
  - intros [H| ->]; [|apply firstn_nil].
    replace (Z.to_nat n) with O by lia. reflexivity.
Qed.

(** What [get_questions] answers, over the rows the query selects: a
    limit above 50 is refused; when the query selects no row the answer
    is the empty list; when it selects a row, building the model from it
    raises [TypeError]. *)
Lemma get_questions_run category difficulty tag company limit current_user s :
  InterviewRoutes.get_questions category difficulty tag company limit current_user s =
    (s, if (50 <? limit)%Z then Raise RequestValidationError
        else match Db.limit limit
                     (filter (InterviewRoutes.conditions category difficulty tag company)
                             (interview_questions s)) with
             | [] => Ok []
             | _ :: _ => Raise TypeError
             end).
Proof.
  unfold InterviewRoutes.get_questions, bind, gets, raise, lift.
  destruct (50 <? limit)%Z; [reflexivity|]. now rewrite mapM_unpack_row.
Qed.



(* ================================================================== *)
(** * Strings: [in] and the case mapping                                *)
(* ================================================================== *)

Lemma startswith_spec (s sub : string) :
  startswith s sub = true <-> exists post, s = (sub ++ post)%string.
Proof.
  revert s. induction sub as [|a sub IH]; intros s; cbn.
  - split; [intros _; now exists s|reflexivity].
  - destruct s as [|b s].
    + split; [discriminate|intros [post H]; discriminate].
    + rewrite andb_true_iff, Ascii.eqb_eq, IH. split.
      * intros [-> [post ->]]. now exists post.
      * intros [post H]. injection H as -> ->. split; [reflexivity|now exists post].
Qed.

Lemma contains_spec (s sub : string) :
  contains s sub = true <-> occurs_in sub s.
Proof.
  unfold occurs_in. induction s as [|b s IH].
  - cbn. rewrite orb_false_r, startswith_spec. split.
    + intros [post H]. now exists ""%string, post.
    + intros (pre & post & H). destruct pre; [now exists post|discriminate].
  - cbn [contains]. rewrite orb_true_iff, IH, startswith_spec. split.
    + intros [[post H]|(pre & post & H)].
      * now exists ""%string, post.
      * exists (String b pre), post. cbn. now rewrite H.
    + intros (pre & post & H). destruct pre as [|c pre].
      * left. now exists post.
      * right. cbn in H. injection H as -> ->. now exists pre, post.
Qed.

Lemma lower_app (a b : string) : ascii_lower (a ++ b) = (ascii_lower a ++ ascii_lower b)%string.
Proof. induction a; cbn; [reflexivity|now rewrite IHa]. Qed.

Lemma lower_split (t a b : string) :
  ascii_lower t = (a ++ b)%string ->
  exists a' b', t = (a' ++ b')%string /\ ascii_lower a' = a /\ ascii_lower b' = b.
Proof.
  revert t. induction a as [|c a IH]; intros t H.
  - exists ""%string, t. auto.
  - destruct t as [|d t]; [discriminate|]. cbn in H. injection H as Hc Ht.
    destruct (IH t Ht) as (a' & b' & -> & Ha & Hb).
    exists (String d a'), b'. cbn. now rewrite Hc, Ha.
Qed.

(** With the ASCII case mapping, a match of the lower-case forms is a
    stretch of the text that equals the needle up to letter case. *)
Lemma occurs_lowered_ascii (sub s : string) :
  occurs_lowered ascii_lower sub s <-> occurs_ignoring_case sub s.
Proof.
  unfold occurs_lowered, occurs_ignoring_case, occurs_in. split.
  - intros (pre & post & H).
    destruct (lower_split _ _ _ H) as (pre' & rest & -> & Hpre & Hrest).
    destruct (lower_split _ _ _ Hrest) as (mid & post' & -> & Hmid & Hpost).
    now exists pre', mid, post'.
  - intros (pre & mid & post & -> & H).
    exists (ascii_lower pre), (ascii_lower post). now rewrite !lower_app, H.
Qed.

Lemma contains_lower_spec (s sub : string) :
  contains (ascii_lower s) (ascii_lower sub) = true <-> occurs_ignoring_case sub s.
Proof. rewrite contains_spec. apply occurs_lowered_ascii. Qed.

Lemma mentioned_spec (str_lower : string -> string) (transcript keyword : string) :
  VoiceService.mentioned str_lower transcript keyword = true <->
  occurs_lowered str_lower keyword transcript.
Proof. unfold VoiceService.mentioned, occurs_lowered. apply contains_spec. Qed.

Lemma counts_filter {A} (P : A -> Prop) (f : A -> bool) (l : list A) (n : nat) :
  (forall x, f x = true <-> P x) -> counts P l n -> List.length (filter f l) = n.
Proof.
  intros Hf C. induction C; cbn.
  - reflexivity.
  - rewrite (proj2 (Hf x)) by assumption. cbn. now rewrite IHC.
  - destruct (f x) eqn:E; [|assumption]. apply Hf in E. contradiction.
Qed.

Lemma counts_total {A} (P : A -> Prop) (f : A -> bool) (l : list A) :
  (forall x, f x = true <-> P x) -> counts P l (List.length (filter f l)).
Proof.
  intros Hf. induction l as [|x l IH]; cbn; [constructor|].
  destruct (f x) eqn:E; cbn.
  - apply counts_yes; [now apply Hf|assumption].
  - apply counts_no; [|assumption]. intros HP. apply Hf in HP. congruence.
Qed.

(* ================================================================== *)
(** * Keyword coverage                                                  *)
(* ================================================================== *)

Lemma ratio_of_counts (k n : nat) :
  (0 < n)%nat ->
  (inject_Z (Z.of_nat k) / inject_Z (Z.of_nat n) == Z.of_nat k # Pos.of_nat n)%Q.
Proof.
  intros Hn. destruct n as [|n']; [lia|].
  unfold Qdiv, Qinv, inject_Z, Qeq, Qmult. cbn [Qnum Qden Z.of_nat].
  rewrite Pos.of_nat_succ. cbn. lia.
Qed.

Lemma analyze_interview_response_found str_lower transcript question_id s question :
  one (filter (fun q => String.eqb (q_id q) question_id) (interview_questions s)) =
    Some question ->
  let found :=
    filter (VoiceService.mentioned str_lower transcript) (q_keywords question) in
  let missing :=
    filter (fun k => negb (VoiceService.mentioned str_lower transcript k))
           (q_keywords question) in
  let keyword_score :=
    match q_keywords question with
    | [] => 0%Q
    | _ => (inject_Z (len found) / inject_Z (len (q_keywords question)))%Q
    end in
  VoiceService.analyze_interview_response str_lower transcript question_id s =
    (s, Ok (VoiceService.mkAnalysis keyword_score
              (VoiceService._generate_feedback keyword_score found missing)
              found missing)).
Proof.
  intros H. cbv zeta.
  unfold VoiceService.analyze_interview_response, bind, gets, lift, ret, truediv.
  rewrite H, partition_as_filter.
  destruct (q_keywords question) as [|kw kws] eqn:K; [reflexivity|].
  cbn [truthy_list]. unfold len at 2. cbn [inject_Z Qnum List.length].
  destruct (Z.of_nat (S (List.length kws)) =? 0)%Z eqn:E; [|reflexivity].
  apply Z.eqb_eq in E. lia.
Qed.

(** C6: for every transcript and the question the lookup finds, with [n]
    required keywords of which exactly [k] are found in the transcript
    by case-insensitive substring match (the lower-case form of the
    keyword occurs in the lower-case form of the transcript, whatever
    the case mapping [str_lower] does to the characters),
    [analyze_interview_response] returns (it raises nothing, so no
    division by zero is reached) a score equal to [k/n] when [n > 0] and
    the score [0] when [n = 0]; the keywords it reports as mentioned are
    those [k], the others are reported missing. *)
Theorem analyze_interview_response_score
  (str_lower : string -> string)
  (transcript : string) (question_id : UUID) (s : session)
  (question : InterviewQuestion) (n k : nat) :
  one (filter (fun q => String.eqb (q_id q) question_id) (interview_questions s)) =
    Some question ->
  List.length (q_keywords question) = n ->
  counts (fun keyword => occurs_lowered str_lower keyword transcript)
         (q_keywords question) k ->
  exists a,
    VoiceService.analyze_interview_response str_lower transcript question_id s =
      (s, Ok a) /\
    ((0 < n)%nat -> (VoiceService.score a == Z.of_nat k # Pos.of_nat n)%Q) /\
    (n = 0%nat -> VoiceService.score a = 0%Q) /\
    List.length (VoiceService.keywords_mentioned a) = k /\
    (forall keyword,
       In keyword (VoiceService.keywords_mentioned a) <->
       In keyword (q_keywords question) /\ occurs_lowered str_lower keyword transcript) /\
    (forall keyword,
       In keyword (VoiceService.missing_keywords a) <->
       In keyword (q_keywords question) /\
       ~ occurs_lowered str_lower keyword transcript).
Proof.
  intros H Hn C. eexists. split.
  { apply (analyze_interview_response_found str_lower transcript question_id s question H). }
  pose proof (counts_filter _ (VoiceService.mentioned str_lower transcript) _ _
                (mentioned_spec str_lower transcript) C) as Hk.
  cbn [VoiceService.score VoiceService.keywords_mentioned VoiceService.missing_keywords].
  split; [|split; [|split; [|split]]].
  - intros Hpos. destruct (q_keywords question) as [|kw kws] eqn:K; [cbn in Hn; lia|].
    unfold len. rewrite Hk, Hn. now apply ratio_of_counts.
  - intros ->. destruct (q_keywords question); [reflexivity|discriminate].
  - exact Hk.
  - intros keyword. rewrite filter_In, mentioned_spec. reflexivity.
  - intros keyword. rewrite filter_In, negb_true_iff, <- not_true_iff_false, mentioned_spec.
    reflexivity.
Qed.

(** Two instances with text whose capitals are ASCII: the keywords
    hash, Map and complexity against "A hash MAP works" (two of three
    found, Map through its capitals), and a question without keywords. *)
Lemma analyze_interview_response_score_witness :
  (exists a,
     VoiceService.analyze_interview_response ascii_lower "A hash MAP works" "q-1"
       Sample.with_questions = (Sample.with_questions, Ok a) /\
     (VoiceService.score a == 2 # 3)%Q /\
     List.length (VoiceService.keywords_mentioned a) = 2%nat /\
     In "Map" (VoiceService.keywords_mentioned a) /\
     In "complexity" (VoiceService.missing_keywords a)) /\
  (exists a,
     VoiceService.analyze_interview_response ascii_lower "The GIL is a lock" "q-2"
       Sample.with_questions = (Sample.with_questions, Ok a) /\
     VoiceService.score a = 0%Q).
Proof.
  split.
  - destruct (analyze_interview_response_score ascii_lower "A hash MAP works" "q-1"
                Sample.with_questions Sample.q1 3 2)
      as (a & E & Hs & _ & Hk & Hm & Hx).
    + reflexivity.
    + reflexivity.
    + exact (counts_total _ _ _ (mentioned_spec ascii_lower "A hash MAP works")).
    + exists a. split; [exact E|]. split; [apply Hs; lia|]. split; [exact Hk|]. split.
      * apply Hm. split; [right; left; reflexivity|].
        apply (mentioned_spec ascii_lower). reflexivity.
      * apply Hx. split; [right; right; left; reflexivity|].
        intros O. apply (mentioned_spec ascii_lower) in O. discriminate O.
  - destruct (analyze_interview_response_score ascii_lower "The GIL is a lock" "q-2"
                Sample.with_questions Sample.q2 0 0)
      as (a & E & _ & Hz & _).
    + reflexivity.
    + reflexivity.
    + constructor.
    + exists a. split; [exact E|]. now apply Hz.
Defined.

(* ================================================================== *)
(** * Job ranking                                                       *)
(* ================================================================== *)

Section SortedReverse.
Context {A : Type} (key : A -> Z).

Let ge_key (a b : A) : Prop := key b <= key a.

Lemma insert_desc_perm x l : Permutation (insert_desc key x l) (x :: l).
Proof.
  induction l as [|y l IH]; cbn; [reflexivity|].
  destruct (key y <=? key x)%Z; [reflexivity|].
  rewrite IH. apply perm_swap.
Qed.

Lemma sorted_reverse_perm l : Permutation (sorted_reverse key l) l.
Proof.
  induction l as [|x l IH]; cbn; [reflexivity|].
  rewrite insert_desc_perm. now constructor.
Qed.

Lemma insert_desc_sorted x l :
  StronglySorted ge_key l -> StronglySorted ge_key (insert_desc key x l).
Proof.
  induction 1 as [|y l Hl IH Hy]; cbn.
  - repeat constructor.
  - destruct (key y <=? key x)%Z eqn:E.
    + apply Z.leb_le in E. constructor; [now constructor|].
      constructor; [exact E|].
      eapply Forall_impl; [|exact Hy]. unfold ge_key. intros; lia.
    + apply Z.leb_gt in E. constructor; [assumption|].
      eapply Permutation_Forall.
      * symmetry. apply insert_desc_perm.
      * constructor; [unfold ge_key; lia|assumption].
Qed.

Lemma sorted_reverse_sorted l : StronglySorted ge_key (sorted_reverse key l).
Proof.
  induction l; cbn; [constructor|now apply insert_desc_sorted].
Qed.

Lemma insert_desc_stable v x l :
  filter (fun a => key a =? v)%Z (insert_desc key x l) =
  filter (fun a => key a =? v)%Z (x :: l).
Proof.
  induction l as [|y l IH]; [reflexivity|].
  cbn [insert_desc]. destruct (key y <=? key x)%Z eqn:E; [reflexivity|].
  apply Z.leb_gt in E. cbn [filter] in *. rewrite IH.
  destruct (key y =? v)%Z eqn:Ey, (key x =? v)%Z eqn:Ex; try reflexivity.
  apply Z.eqb_eq in Ey, Ex. lia.
Qed.

Lemma sorted_reverse_stable v l :
  filter (fun a => key a =? v)%Z (sorted_reverse key l) =
  filter (fun a => key a =? v)%Z l.
Proof.
  induction l as [|x l IH]; [reflexivity|].
  cbn [sorted_reverse]. rewrite insert_desc_stable. cbn. now rewrite IH.
Qed.

Lemma sorted_precedes a b l :
  StronglySorted ge_key l -> In a l -> In b l -> key b < key a -> precedes a b l.
Proof.
  unfold precedes. induction 1 as [|x l Hl IH Hx]; [intros []|].
  intros Ha Hb Hlt. rewrite Forall_forall in Hx.
  assert (Hbl : In b l).
  { destruct Hb as [->|Hb]; [|assumption]. exfalso.
    destruct Ha as [->|Ha]; [lia|]. specialize (Hx a Ha). unfold ge_key in Hx. lia. }
  destruct Ha as [->|Ha].
  - apply in_split in Hbl as (l2 & l3 & ->). now exists [], l2, l3.
  - destruct (IH Ha Hbl Hlt) as (l1 & l2 & l3 & ->). now exists (x :: l1), l2, l3.
Qed.
End SortedReverse.

Lemma skill_matches_spec (str_lower : string -> string)
  (job : JobService.JobPosting) (skill : string) :
  existsb (fun req => contains (str_lower req) (str_lower skill))
          (JobService.j_skills_required job) = true <->
  skill_matches str_lower job skill.
Proof.
  unfold skill_matches. rewrite existsb_exists.
  split; intros (req & Hin & H); exists req; (split; [assumption|]);
    now apply (mentioned_spec str_lower req skill).
Qed.

Lemma calculate_relevance_counts (str_lower : string -> string)
  (user_skills : list string) (job : JobService.JobPosting) (n : nat) :
  counts (skill_matches str_lower job) user_skills n ->
  JobService.calculate_relevance str_lower user_skills job = Z.of_nat n.
Proof.
  intros C. unfold JobService.calculate_relevance, len. f_equal.
  apply (counts_filter _ _ _ _ (skill_matches_spec str_lower job) C).
Qed.

(** C7: the list [_sort_jobs_by_relevance] returns is a permutation of
    the postings, in descending order of relevance, where the relevance
    of a posting is the number of user skills that occur, by
    case-insensitive substring match (whatever the case mapping
    [str_lower] does to the characters), in at least one of its
    required-skill strings; postings of equal relevance keep their
    original relative order, and a posting stands before every posting
    of strictly lower relevance, so one with 2 matching skills before
    one with none. *)
Theorem sort_jobs_by_relevance_ranking
  (str_lower : string -> string)
  (jobs : list JobService.JobPosting) (user_skills : list string) :
  let relevance := JobService.calculate_relevance str_lower user_skills in
  let ranked := JobService._sort_jobs_by_relevance str_lower jobs user_skills in
  (forall job, exists n,
     counts (skill_matches str_lower job) user_skills n /\
     relevance job = Z.of_nat n) /\
  (forall job n,
     counts (skill_matches str_lower job) user_skills n -> relevance job = Z.of_nat n) /\
  Permutation ranked jobs /\
  StronglySorted (fun a b => relevance b <= relevance a) ranked /\
  (forall v, filter (fun j => relevance j =? v)%Z ranked =
             filter (fun j => relevance j =? v)%Z jobs) /\
  (forall a b, In a jobs -> In b jobs -> relevance b < relevance a ->
               precedes a b ranked) /\
  (forall a b n m, In a jobs -> In b jobs ->
     counts (skill_matches str_lower a) user_skills n ->
     counts (skill_matches str_lower b) user_skills m ->
     (m < n)%nat -> precedes a b ranked).
Proof.
  cbv zeta. unfold JobService._sort_jobs_by_relevance.
  assert (Hprec : forall a b, In a jobs -> In b jobs ->
            JobService.calculate_relevance str_lower user_skills b <
            JobService.calculate_relevance str_lower user_skills a ->
            precedes a b
              (sorted_reverse (JobService.calculate_relevance str_lower user_skills) jobs)).
  { intros a b Ha Hb Hlt.
    apply (sorted_precedes (JobService.calculate_relevance str_lower user_skills)).
    - apply sorted_reverse_sorted.
    - eapply Permutation_in; [symmetry; apply sorted_reverse_perm|assumption].
    - eapply Permutation_in; [symmetry; apply sorted_reverse_perm|assumption].
    - assumption. }
  split; [|split; [|split; [|split; [|split; [|split]]]]].
  - intros job. eexists. split; [|reflexivity].
    apply counts_total. intros skill. apply skill_matches_spec.
  - intros job n. apply calculate_relevance_counts.
  - apply sorted_reverse_perm.
  - apply sorted_reverse_sorted.
  - intros v. apply sorted_reverse_stable.
  - exact Hprec.
  - intros a b n m Ha Hb Ca Cb Hlt. apply Hprec; [assumption|assumption|].
    rewrite (calculate_relevance_counts _ _ _ _ Ca),
            (calculate_relevance_counts _ _ _ _ Cb). lia.
Qed.

(** The instance of the specification: for the skills python and sql, P1
    (two matches) is ranked before P2 (none), whatever the input order. *)
Example ranking_P1_before_P2 :
  JobService.calculate_relevance ascii_lower ["python"; "sql"] Sample.P1 = 2 /\
  JobService.calculate_relevance ascii_lower ["python"; "sql"] Sample.P2 = 0 /\
  JobService._sort_jobs_by_relevance ascii_lower [Sample.P2; Sample.P1] ["python"; "sql"] =
    [Sample.P1; Sample.P2] /\
  JobService._sort_jobs_by_relevance ascii_lower [Sample.P1; Sample.P2] ["python"; "sql"] =
    [Sample.P1; Sample.P2].
Proof. repeat split. Qed.

Lemma sort_jobs_by_relevance_ranking_witness :
  precedes Sample.P1 Sample.P2
    (JobService._sort_jobs_by_relevance ascii_lower [Sample.P2; Sample.P1] ["python"; "sql"]).
Proof.
  pose proof (sort_jobs_by_relevance_ranking ascii_lower [Sample.P2; Sample.P1]
                ["python"; "sql"]) as H.
  cbv zeta in H. destruct H as (_ & _ & _ & _ & _ & _ & H).
  apply (H Sample.P1 Sample.P2 2%nat 0%nat).
  - right. left. reflexivity.
  - left. reflexivity.
  - apply counts_yes; [|apply counts_yes; [|constructor]].
    + exists "Python 3". split; [left; reflexivity|].
      apply (mentioned_spec ascii_lower). reflexivity.
    + exists "PostgreSQL". split; [right; left; reflexivity|].
      apply (mentioned_spec ascii_lower). reflexivity.
  - apply counts_no; [|apply counts_no; [|constructor]].
    + intros M. apply (skill_matches_spec ascii_lower) in M. discriminate M.
    + intros M. apply (skill_matches_spec ascii_lower) in M. discriminate M.
  - lia.
Defined.

(* ================================================================== *)
(** * Deleting a file                                                   *)
(* ================================================================== *)

(** C9: when the lookup finds the requester's file, [delete_file] calls
    the object store first.  If that call raises, the handler raises 500
    with the text of the exception and the database is exactly as it was:
    the metadata row is still there.  If it succeeds, the handler then
    removes the rows with that id from [media_files] and reports
    success. *)
Theorem delete_file_storage_first
  {S3 : Type} (delete_object : string -> string -> S3 -> S3 * option string)
  (BUCKET_NAME : string) (file_id : UUID) (current_user : User)
  (w : MediaRoutes.world S3) (file_info : MediaFile) :
  one (filter (fun m => (String.eqb (m_id m) file_id
                         && String.eqb (m_user_id m) (usr_id current_user))%bool)
              (media_files (MediaRoutes.db w))) = Some file_info ->
  let key := ("uploads/" ++ usr_id current_user ++ "/" ++ m_filename file_info)%string in
  let call := delete_object BUCKET_NAME key (MediaRoutes.s3 w) in
  let out := MediaRoutes.delete_file delete_object BUCKET_NAME file_id current_user w in
  (forall msg, snd call = Some msg ->
     out = (MediaRoutes.mkWorld (MediaRoutes.db w) (fst call),
            Raise (HTTPException 500 msg)) /\
     In file_info (media_files (MediaRoutes.db (fst out)))) /\
  (snd call = None ->
     snd out = Ok "File deleted successfully" /\
     MediaRoutes.s3 (fst out) = fst call /\
     MediaRoutes.db (fst out) =
       set_media_files (delete_where (fun m => String.eqb (m_id m) file_id))
         (MediaRoutes.db w) /\
     (forall m, In m (media_files (MediaRoutes.db (fst out))) <->
                In m (media_files (MediaRoutes.db w)) /\ m_id m <> file_id)).
Proof.
  intros H. cbv zeta.
  unfold MediaRoutes.delete_file, MediaRoutes.on_db, MediaRoutes.s3_delete_object,
    bind, gets, modify, raise, ret.
  cbn [fst snd MediaRoutes.db MediaRoutes.s3]. rewrite H. cbn [MediaRoutes.db MediaRoutes.s3].
  destruct (delete_object BUCKET_NAME _ (MediaRoutes.s3 w)) as [st e]. cbn [fst snd].
  split.
  - intros msg ->. split; [reflexivity|]. cbn.
    now apply one_filter_some in H.
  - intros ->. cbn. split; [reflexivity|]. split; [reflexivity|]. split; [reflexivity|].
    intros m. unfold delete_where.
    rewrite filter_In, negb_true_iff, String.eqb_neq. reflexivity.
Qed.

Lemma delete_file_storage_first_witness :
  (let out := MediaRoutes.delete_file Sample.delete_denied "media" "f-1" Sample.alice
                Sample.with_files in
   out = (Sample.with_files, Raise (HTTPException 500 "AccessDenied")) /\
   In Sample.cv (media_files (MediaRoutes.db (fst out)))) /\
  (let out := MediaRoutes.delete_file Sample.delete_ok "media" "f-1" Sample.alice
                Sample.with_files in
   snd out = Ok "File deleted successfully" /\
   MediaRoutes.s3 (fst out) = ["uploads/u-2/77.png"] /\
   MediaRoutes.db (fst out) = mkSession [] [] [] [] [Sample.photo] /\
   (forall m, In m (media_files (MediaRoutes.db (fst out))) <->
              In m [Sample.cv; Sample.photo] /\ m_id m <> "f-1")).
Proof.
  split.
  - apply (proj1 (delete_file_storage_first Sample.delete_denied "media" "f-1"
                    Sample.alice Sample.with_files Sample.cv eq_refl)
                 "AccessDenied" eq_refl).
  - apply (proj2 (delete_file_storage_first Sample.delete_ok "media" "f-1"
                    Sample.alice Sample.with_files Sample.cv eq_refl)
                 eq_refl).
Defined.

(* ================================================================== *)
(** * Progress statistics                                               *)
(* ================================================================== *)

Section Grouping.
Context {K : Type} (eqb : K -> K -> bool).
Hypothesis eqb_spec : forall a b, eqb a b = true <-> a = b.
Variable key_of_answer : UserAnswer -> option K.

Lemma touch_keys_present k f (d : list (K * ProgressService.bucket)) :
  In k (map fst d) -> map fst (ProgressService.touch eqb k f d) = map fst d.
Proof.
  induction d as [|[k' b] d IH]; cbn; [intros []|].
  destruct (eqb k' k) eqn:E; [reflexivity|].
  intros [->|Hin].
  - assert (eqb k k = true) by now apply eqb_spec. congruence.
  - cbn. now rewrite IH.
Qed.

Lemma touch_absent k f (d : list (K * ProgressService.bucket)) :
  ~ In k (map fst d) ->
  ProgressService.touch eqb k f d = (d ++ [(k, f ProgressService.default_bucket)])%list.
Proof.
  induction d as [|[k' b] d IH]; cbn; [reflexivity|].
  intros N. destruct (eqb k' k) eqn:E.
  - apply eqb_spec in E. tauto.
  - rewrite IH by tauto. reflexivity.
Qed.

Lemma touch_In k f (d : list (K * ProgressService.bucket)) k' b' :
  NoDup (map fst d) ->
  In (k', b') (ProgressService.touch eqb k f d) ->
  (k' <> k /\ In (k', b') d) \/
  (k' = k /\ ((exists b, In (k, b) d /\ b' = f b) \/
              (~ In k (map fst d) /\ b' = f ProgressService.default_bucket))).
Proof.
  induction d as [|[k0 b0] d IH]; cbn.
  - intros _ [H|[]]. injection H as <- <-. right. split; [reflexivity|]. right. tauto.
  - intros ND. inversion ND as [|? ? Hnin ND']; subst.
    destruct (eqb k0 k) eqn:E.
    + apply eqb_spec in E. subst k0. intros [H|H].
      * injection H as <- <-. right. split; [reflexivity|]. left. eauto.
      * left. split; [|now right]. intros ->. apply Hnin.
        change k with (fst (k, b')). now apply in_map.
    + intros [H|H].
      * injection H as <- <-. left. split; [|now left].
        intros ->. assert (eqb k k = true) by now apply eqb_spec. congruence.
      * destruct (IH ND' H) as [[N Hin]|[-> [(b & Hin & ->)|[N ->]]]].
        -- left. split; [assumption|now right].
        -- right. split; [reflexivity|]. left. exists b. split; [now right|reflexivity].
        -- right. split; [reflexivity|]. right. split; [|reflexivity].
           intros [->|Hk]; [|contradiction].
           assert (eqb k k = true) by now apply eqb_spec. congruence.
Qed.

Lemma members_snoc k done answer :
  members eqb key_of_answer k (done ++ [answer]) =
  (members eqb key_of_answer k done ++
   (if in_bucket eqb key_of_answer k answer then [answer] else []))%list.
Proof.
  unfold members. rewrite filter_app. cbn.
  now destruct (in_bucket eqb key_of_answer k answer).
Qed.

Lemma count_answer_bucket answer (l : list UserAnswer) :
  ProgressService.count_answer answer
    (ProgressService.mkBucket (len l) 0%Q (nonzero_scores l)) =
  ProgressService.mkBucket (len (l ++ [answer])) 0%Q (nonzero_scores (l ++ [answer])).
Proof.
  unfold ProgressService.count_answer, nonzero_scores, len.
  rewrite flat_map_app, length_app. cbn.
  replace (Z.of_nat (List.length l) + 1) with (Z.of_nat (List.length l + 1)) by lia.
  destruct (a_confidence_score answer) as [c|]; [destruct (truthy_float c)|];
    cbn; now rewrite ?app_nil_r.
Qed.

Lemma grouped_nil : grouped eqb key_of_answer [] [].
Proof.
  split; [constructor|]. split.
  - intros k b [].
  - intros k H. now contradiction H.
Qed.

Lemma grouped_step d done answer :
  grouped eqb key_of_answer d done ->
  grouped eqb key_of_answer (group_step eqb key_of_answer d answer) (done ++ [answer]).
Proof.
  intros (ND & Hin & Hkeys). unfold group_step.
  destruct (key_of_answer answer) as [k|] eqn:Ek.
  - assert (Hk : in_bucket eqb key_of_answer k answer = true).
    { unfold in_bucket. rewrite Ek. now apply eqb_spec. }
    assert (Hother : forall k', k' <> k -> in_bucket eqb key_of_answer k' answer = false).
    { intros k' N. unfold in_bucket. rewrite Ek.
      destruct (eqb k k') eqn:E; [|reflexivity]. apply eqb_spec in E.
      subst k'. now contradiction N. }
    assert (Hdec : In k (map fst d) \/ ~ In k (map fst d)).
    { destruct (members eqb key_of_answer k done) eqn:M.
      - right. intros Hk'. apply in_map_iff in Hk' as ([k0 b0] & E0 & Hb).
        cbn in E0. subst k0. apply Hin in Hb as [Hne _]. contradiction.
      - left. apply Hkeys. congruence. }
    split; [|split].
    + destruct Hdec as [Hp|Ha].
      * now rewrite touch_keys_present.
      * rewrite (touch_absent _ _ _ Ha), map_app. cbn.
        apply NoDup_app; [assumption|repeat constructor; intros []|].
        intros x Hx [<-|[]]. contradiction.
    + intros k' b' H. rewrite members_snoc.
      apply touch_In in H as [[N H]|[-> H]]; [| |assumption].
      * rewrite (Hother k' N), app_nil_r. now apply Hin.
      * rewrite Hk. split; [intros E; now apply app_eq_nil in E as [_ E]|].
        destruct H as [(b & Hb & ->)|[Ha ->]].
        -- apply Hin in Hb as [_ ->]. apply count_answer_bucket.
        -- assert (M : members eqb key_of_answer k done = []).
           { destruct (members eqb key_of_answer k done) eqn:M; [reflexivity|].
             exfalso. apply Ha, Hkeys. congruence. }
           rewrite M. apply (count_answer_bucket answer []).
    + intros k'. rewrite members_snoc. intros Hne.
      destruct (in_bucket eqb key_of_answer k' answer) eqn:Ib.
      * assert (k' = k).
        { unfold in_bucket in Ib. rewrite Ek in Ib. apply eqb_spec in Ib. now symmetry. }
        subst k'. destruct Hdec as [Hp|Ha].
        -- now rewrite touch_keys_present.
        -- rewrite (touch_absent _ _ _ Ha), map_app. apply in_or_app. right. now left.
      * rewrite app_nil_r in Hne. pose proof (Hkeys k' Hne) as Hk'.
        destruct Hdec as [Hp|Ha].
        -- now rewrite touch_keys_present.
        -- rewrite (touch_absent _ _ _ Ha), map_app. apply in_or_app. now left.
  - assert (Hno : forall k, in_bucket eqb key_of_answer k answer = false).
    { intros k. unfold in_bucket. now rewrite Ek. }
    split; [assumption|split].
    + intros k b H. rewrite members_snoc, Hno, app_nil_r. now apply Hin.
    + intros k. rewrite members_snoc, Hno, app_nil_r. apply Hkeys.
Qed.

Lemma grouped_fold answers d done :
  grouped eqb key_of_answer d done ->
  grouped eqb key_of_answer
    (fold_left (group_step eqb key_of_answer) answers d) (done ++ answers).
Proof.
  revert d done. induction answers as [|a answers IH]; intros d done G; cbn.
  - now rewrite app_nil_r.
  - replace (done ++ a :: answers)%list with ((done ++ [a]) ++ answers)%list
      by (rewrite <- app_assoc; reflexivity).
    apply IH. now apply grouped_step.
Qed.
End Grouping.

Lemma summarise_ok (b : ProgressService.bucket) :
  ProgressService.summarise b =
    Ok (ProgressService.mkSummary (ProgressService.questions_attempted b)
          match ProgressService.scores b with
          | [] => ProgressService.average_score b
          | l => mean l
          end).
Proof.
  unfold ProgressService.summarise, truediv, mean.
  destruct (ProgressService.scores b) as [|c l]; [reflexivity|].
  cbn [truthy_list inject_Z Qnum]. unfold len. cbn [List.length].
  destruct (Z.of_nat (S (List.length l)) =? 0)%Z eqn:E; [|reflexivity].
  apply Z.eqb_eq in E. lia.
Qed.

Lemma summarise_all_ok {K} (d : list (K * ProgressService.bucket)) :
  exists out,
    ProgressService.summarise_all d = Ok out /\
    map fst out = map fst d /\
    (forall k sm, In (k, sm) out ->
       exists b, In (k, b) d /\ ProgressService.summarise b = Ok sm).
Proof.
  unfold ProgressService.summarise_all.
  induction d as [|[k b] d (out & E & Hk & Hin)]; cbn.
  - exists []. repeat split. intros k sm [].
  - rewrite summarise_ok, E. cbn. eexists. split; [reflexivity|]. cbn. split.
    + now rewrite Hk.
    + intros k' sm [H|H].
      * injection H as <- <-. exists b. split; [now left|apply summarise_ok].
      * destruct (Hin k' sm H) as (b' & Hb' & Hs). exists b'. split; [now right|assumption].
Qed.

(** What the two aggregations report, for any bucketing: one entry per
    bucket that received an answer; its [questions_attempted] is the
    number of answers of the bucket, and its [average_score] is the mean
    of the non-zero scores present on them, or [0] when there is none. *)
Lemma grouped_report {K} (eqb : K -> K -> bool) (key_of_answer : UserAnswer -> option K)
  (answers : list UserAnswer) :
  (forall a b, eqb a b = true <-> a = b) ->
  exists out,
    ProgressService.summarise_all
      (fold_left (group_step eqb key_of_answer) answers []) = Ok out /\
    NoDup (map fst out) /\
    (forall k, members eqb key_of_answer k answers <> [] -> In k (map fst out)) /\
    (forall k sm, In (k, sm) out ->
       members eqb key_of_answer k answers <> [] /\
       ProgressService.sm_questions_attempted sm =
         len (members eqb key_of_answer k answers) /\
       ProgressService.sm_average_score sm =
         match nonzero_scores (members eqb key_of_answer k answers) with
         | [] => 0%Q
         | l => mean l
         end).
Proof.
  intros eqb_spec.
  destruct (grouped_fold eqb eqb_spec key_of_answer answers [] []
              (grouped_nil eqb key_of_answer)) as (ND & Hin & Hkeys).
  cbn [app] in ND, Hin, Hkeys.
  destruct (summarise_all_ok (fold_left (group_step eqb key_of_answer) answers []))
    as (out & E & Hk & Hout).
  exists out. split; [exact E|]. rewrite Hk. split; [exact ND|]. split; [exact Hkeys|].
  intros k sm H. destruct (Hout k sm H) as (b & Hb & Hs).
  destruct (Hin k b Hb) as [Hne ->]. rewrite summarise_ok in Hs. injection Hs as <-.
  cbn. auto.
Qed.

Lemma week_start_spec (answer : UserAnswer) :
  monday (ProgressService.week_start answer) /\
  ProgressService.week_start answer <= day_of answer <= ProgressService.week_start answer + 6.
Proof.
  unfold monday, ProgressService.week_start, date_sub_days, dt_date, weekday, day_of.
  generalize (dt_ordinal (a_created_at answer)). intros d.
  Z.div_mod_to_equations. lia.
Qed.

Lemma week_unique (week week' day : Z) :
  monday week -> monday week' ->
  week <= day <= week + 6 -> week' <= day <= week' + 6 -> week = week'.
Proof. unfold monday. intros. Z.div_mod_to_equations. lia. Qed.

Lemma in_week_spec (week : Z) (answer : UserAnswer) :
  monday week ->
  in_week week answer = (ProgressService.week_start answer =? week)%Z.
Proof.
  intros M. destruct (week_start_spec answer) as [M' R]. unfold in_week.
  destruct (ProgressService.week_start answer =? week)%Z eqn:E.
  - apply Z.eqb_eq in E. rewrite <- E.
    apply andb_true_iff. split; apply Z.leb_le; lia.
  - apply Z.eqb_neq in E. apply not_true_iff_false. intros H.
    apply andb_true_iff in H as [H1 H2]. apply Z.leb_le in H1, H2.
    apply E. apply (week_unique _ _ (day_of answer)); auto.
Qed.

(** [_get_weekly_progress] reports one entry per calendar week,
    Monday to Sunday, in which an answer was given.  The key of an entry
    is the Monday the week starts on; every answer falls in the week of
    one entry; the entry counts the answers dated from its Monday to the
    following Sunday and gives the mean of their non-zero scores ([0]
    when there is none). *)
Theorem weekly_progress_reports (answers : list UserAnswer) :
  exists out,
    ProgressService._get_weekly_progress answers = Ok out /\
    NoDup (map fst out) /\
    (forall a, In a answers ->
       exists week sm, In (week, sm) out /\ week <= day_of a <= week + 6) /\
    (forall week sm, In (week, sm) out ->
       monday week /\
       let bucket := filter (in_week week) answers in
       bucket <> [] /\
       ProgressService.sm_questions_attempted sm = len bucket /\
       ProgressService.sm_average_score sm =
         match nonzero_scores bucket with [] => 0%Q | l => mean l end).
Proof.
  destruct (grouped_report Z.eqb (fun a => Some (ProgressService.week_start a))
              answers Z.eqb_eq) as (out & E & ND & Hkeys & Hout).
  exists out. split; [exact E|]. split; [exact ND|]. split.
  - intros a Ha.
    assert (Hk : In (ProgressService.week_start a) (map fst out)).
    { apply Hkeys. intros M.
      assert (Hm : In a (members Z.eqb (fun a => Some (ProgressService.week_start a))
                           (ProgressService.week_start a) answers)).
      { apply filter_In. split; [assumption|]. apply Z.eqb_refl. }
      rewrite M in Hm. contradiction. }
    apply in_map_iff in Hk as ([week sm] & Hw & Hin). cbn in Hw. subst week.
    exists (ProgressService.week_start a), sm. split; [assumption|].
    apply week_start_spec.
  - intros week sm Hin. destruct (Hout week sm Hin) as (Hne & Hn & Havg).
    assert (M : monday week).
    { destruct (members Z.eqb (fun a => Some (ProgressService.week_start a)) week answers)
        as [|a0 l] eqn:Em; [contradiction|].
      assert (H0 : In a0 (members Z.eqb (fun a => Some (ProgressService.week_start a))
                            week answers)) by (rewrite Em; now left).
      apply filter_In in H0 as [_ H0]. cbn in H0. apply Z.eqb_eq in H0.
      rewrite <- H0. apply week_start_spec. }
    split; [exact M|]. cbv zeta.
    assert (Eb : filter (in_week week) answers =
                 members Z.eqb (fun a => Some (ProgressService.week_start a)) week answers).
    { unfold members. apply filter_ext. intros a. now apply in_week_spec. }
    rewrite Eb. auto.
Qed.

Lemma weekly_progress_reports_witness :
  exists out sm,
    ProgressService._get_weekly_progress [Sample.zero_scored; Sample.full_scored] = Ok out /\
    In (737997, sm) out /\
    ProgressService.sm_questions_attempted sm = 2.
Proof.
  destruct (weekly_progress_reports [Sample.zero_scored; Sample.full_scored])
    as (out & E & _ & Hcover & Hentry).
  destruct (Hcover Sample.zero_scored) as (week & sm & Hin & Hr); [now left|].
  destruct (Hentry week sm Hin) as (M & _ & Hn & _).
  assert (W : week = 737997).
  { unfold monday in M. change (day_of Sample.zero_scored) with 738000 in Hr.
    Z.div_mod_to_equations. lia. }
  subst week. exists out, sm. split; [exact E|]. split; [exact Hin|]. exact Hn.
Defined.

Lemma category_of_spec (s : session) (question_id : UUID) (c : string) :
  ProgressService.category_of s question_id = Some c <->
  category_of_question s question_id c.
Proof.
  unfold ProgressService.category_of, category_of_question.
  induction (interview_questions s) as [|x l IH]; cbn.
  - split; [discriminate|]. intros (before & q & after & H & _).
    destruct before; discriminate H.
  - destruct (String.eqb (q_id x) question_id) eqn:E; cbn.
    + apply String.eqb_eq in E. split.
      * intros H. injection H as <-. exists [], x, l. cbn.
        repeat split; auto; intros q' [].
      * intros (before & q & after & H & Hb & Hq & Hc).
        destruct before as [|y before]; cbn in H; injection H as -> ->.
        -- now rewrite Hc.
        -- exfalso. apply (Hb y); [now left|assumption].
    + apply String.eqb_neq in E. rewrite IH. split.
      * intros (before & q & after & H & Hb & Hq & Hc).
        exists (x :: before), q, after. cbn. rewrite H. repeat split; auto.
        intros q' [<-|Hq']; [assumption|now apply Hb].
      * intros (before & q & after & H & Hb & Hq & Hc).
        destruct before as [|y before]; cbn in H; injection H as -> ->.
        -- contradiction.
        -- exists before, q, after. repeat split; auto.
           intros q' Hq'. apply Hb. now right.
Qed.

(** [_get_category_performance] reports one entry per category of a
    stored question that an answer refers to.  Every answer whose
    question is stored falls under the entry of that question's
    category; the entry counts the answers whose question has the
    category and gives the mean of their non-zero scores ([0] when there
    is none).  Answers to questions that are not stored are left out. *)
Theorem category_performance_reports (s : session) (answers : list UserAnswer) :
  exists out,
    ProgressService._get_category_performance s answers = Ok out /\
    NoDup (map fst out) /\
    (forall a category, In a answers ->
       category_of_question s (a_question_id a) category ->
       In category (map fst out)) /\
    (forall category sm, In (category, sm) out ->
       exists keep,
         (forall a, keep a = true <->
                    category_of_question s (a_question_id a) category) /\
         let bucket := filter keep answers in
         bucket <> [] /\
         ProgressService.sm_questions_attempted sm = len bucket /\
         ProgressService.sm_average_score sm =
           match nonzero_scores bucket with [] => 0%Q | l => mean l end).
Proof.
  destruct (grouped_report String.eqb
              (fun a => ProgressService.category_of s (a_question_id a))
              answers String.eqb_eq) as (out & E & ND & Hkeys & Hout).
  exists out. split; [exact E|]. split; [exact ND|]. split.
  - intros a category Ha Hc. apply category_of_spec in Hc. apply Hkeys. intros M.
    assert (Hm : In a (members String.eqb
                         (fun a => ProgressService.category_of s (a_question_id a))
                         category answers)).
    { apply filter_In. split; [assumption|]. unfold in_bucket. rewrite Hc.
      apply String.eqb_refl. }
    rewrite M in Hm. contradiction.
  - intros category sm Hin.
    exists (in_bucket String.eqb
              (fun a => ProgressService.category_of s (a_question_id a)) category).
    split; [|exact (Hout category sm Hin)].
    intros a. rewrite <- category_of_spec. unfold in_bucket.
    destruct (ProgressService.category_of s (a_question_id a)) as [c|].
    + rewrite String.eqb_eq. split; [now intros ->|]. intros H. now injection H.
    + split; discriminate.
Qed.

Lemma category_performance_reports_witness :
  exists out sm,
    ProgressService._get_category_performance Sample.with_questions
      [Sample.zero_scored; Sample.full_scored] = Ok out /\
    In ("algorithms", sm) out /\
    ProgressService.sm_questions_attempted sm = 2 /\
    ~ In "python" (map fst out).
Proof.
  destruct (category_performance_reports Sample.with_questions
              [Sample.zero_scored; Sample.full_scored])
    as (out & E & _ & Hcover & Hentry).
  assert (Q1 : category_of_question Sample.with_questions "q-1" "algorithms").
  { exists [], Sample.q1, [Sample.q2]. repeat split. intros q' []. }
  assert (Hk : In "algorithms" (map fst out)).
  { apply (Hcover Sample.zero_scored); [now left|exact Q1]. }
  apply in_map_iff in Hk as ([c sm] & Hc & Hin). cbn in Hc. subst c.
  exists out, sm. split; [exact E|]. split; [exact Hin|]. split.
  - destruct (Hentry "algorithms" sm Hin) as (keep & Hkeep & _ & Hn & _).
    rewrite Hn. cbn [filter].
    rewrite (proj2 (Hkeep Sample.zero_scored) Q1), (proj2 (Hkeep Sample.full_scored) Q1).
    reflexivity.
  - intros Hp. apply in_map_iff in Hp as ([c sm'] & Hc & Hin'). cbn in Hc. subst c.
    destruct (Hentry "python" sm' Hin') as (keep & Hkeep & Hne & _).
    apply Hne. cbn [filter].
    assert (N : forall a, In a [Sample.zero_scored; Sample.full_scored] -> keep a = false).
    { intros a Ha. apply not_true_iff_false. intros K. apply Hkeep in K.
      apply category_of_spec in K.
      destruct Ha as [<-|[<-|[]]]; discriminate K. }
    rewrite (N Sample.zero_scored), (N Sample.full_scored); auto.
    + right. now left.
    + now left.
Defined.

(** Where no score is zero, the scores taken are the scores present. *)
Lemma nonzero_scores_available (answers : list UserAnswer) :
  (forall a c, In a answers -> a_confidence_score a = Some c -> ~ (c == 0)%Q) ->
  nonzero_scores answers = available_scores answers.
Proof.
  unfold nonzero_scores, available_scores.
  induction answers as [|a answers IH]; [reflexivity|].
  intros H. cbn. rewrite IH by (intros; eapply H; [right|]; eassumption).
  destruct (a_confidence_score a) as [c|] eqn:Ec; [|reflexivity].
  unfold truthy_float. destruct (Qnum c =? 0)%Z eqn:E; [|reflexivity].
  exfalso. apply (H a c); [now left|assumption|].
  apply Z.eqb_eq in E. unfold Qeq. rewrite E. reflexivity.
Qed.

(** C8 at two answers of one week and one category, scored 0.0 and 1.0:
    both are counted as attempted, but the score 0.0 fails the truth test
    on [answer.confidence_score] and is not taken, so the week and the
    category report the average 1 where the mean of the two scores
    present is 1/2. *)
Theorem zero_score_left_out_of_average :
  let answers := [Sample.zero_scored; Sample.full_scored] in
  available_scores answers = [0%Q; 1%Q] /\
  (mean (available_scores answers) == 1 # 2)%Q /\
  ProgressService._get_weekly_progress answers =
    Ok [(737997, ProgressService.mkSummary 2 1)] /\
  ProgressService._get_category_performance Sample.with_questions answers =
    Ok [("algorithms", ProgressService.mkSummary 2 1)] /\
  ~ (1 == mean (available_scores answers))%Q.
Proof.
  cbv zeta. split; [reflexivity|]. split; [reflexivity|].
  split; [reflexivity|]. split; [reflexivity|]. intros H. discriminate H.
Qed.

(* ================================================================== *)
(** * Further properties: progress rows and submissions                 *)
(* ================================================================== *)

Lemma updates_leave_one_row_witness :
  exists m,
    question_progress (replay "u-3" "q-1" Sample.t1 [1 # 2; 1; 0]%Q Sample.with_progress) =
      (question_progress Sample.with_progress ++
       [mkQuestionProgress "u-3" "q-1" "in_progress" 3 (Some Sample.t1) (Some m) None])%list /\
    in_unit m.
Proof.
  destruct (updates_leave_one_row Sample.with_progress "u-3" "q-1" Sample.t1
              (1 # 2) [1; 0]%Q) as (m & E & _ & Hunit).
  - intros p [<-|[<-|[]]] [K _]; discriminate K.
  - exists m. split; [exact E|]. apply Hunit.
    repeat constructor; cbn; discriminate.
Defined.

Lemma submit_answer_status answer current_user s :
  Forall (fun p => p_status p = "in_progress") (question_progress s) ->
  Forall (fun p => p_status p = "in_progress")
    (question_progress (fst (InterviewRoutes.submit_answer answer current_user s))).
Proof.
  intros B.
  destruct (one (filter (fun q => String.eqb (q_id q) (a_question_id answer))
                        (interview_questions s))) as [q|] eqn:Eq.
  - destruct (one (filter (progress_key (usr_id current_user) (a_question_id answer))
                          (question_progress s))) as [p|] eqn:Ep.
    + rewrite (submit_answer_update _ _ _ _ _ Eq Ep). cbn.
      apply Forall_update_where; [|assumption]. intros r Hr _. exact Hr.
    + rewrite (submit_answer_create _ _ _ _ Eq Ep). cbn.
      apply Forall_insert; [assumption|reflexivity].
  - now rewrite (submit_answer_missing _ _ _ Eq).
Qed.

Lemma update_mastery_level_status user_id question_id confidence_score now s :
  Forall (fun p => p_status p = "in_progress") (question_progress s) ->
  Forall (fun p => p_status p = "in_progress")
    (question_progress
       (fst (ProgressService.update_mastery_level
               user_id question_id confidence_score now s))).
Proof.
  intros B.
  destruct (one (filter (progress_key user_id question_id) (question_progress s)))
    as [cp|] eqn:E.
  - destruct (p_mastery_level cp) as [m|] eqn:M.
    + destruct (Z.eq_dec (p_attempts cp) (-1)) as [A|A].
      * now rewrite (update_mastery_level_zero _ _ _ _ _ _ _ E M A).
      * rewrite (update_mastery_level_update _ _ _ _ _ _ _ E M A). cbn.
        apply Forall_update_where; [|assumption]. intros r Hr _. exact Hr.
    + now rewrite (update_mastery_level_null _ _ _ _ _ _ E M).
  - rewrite (update_mastery_level_create _ _ _ _ _ E). cbn.
    apply Forall_insert; [assumption|reflexivity].
Qed.

Lemma reachable_status s :
  reachable s -> Forall (fun p => p_status p = "in_progress") (question_progress s).
Proof.
  induction 1 as [s E|s s' R IH E|s answer current_user R IH|s u q c now R IH].
  - rewrite E. constructor.
  - now rewrite E.
  - now apply submit_answer_status.
  - now apply update_mastery_level_status.
Qed.

Lemma upload_file_progress {S3} upload_fileobj bucket splitext_ext file category tags
  current_user name_uuid row_uuid now (w : MediaRoutes.world S3) :
  question_progress
    (MediaRoutes.db (fst (MediaFiles.upload_file upload_fileobj bucket splitext_ext
                            file category tags current_user name_uuid row_uuid now w))) =
  question_progress (MediaRoutes.db w).
Proof.
  unfold MediaFiles.upload_file, MediaFiles.s3_upload_fileobj, MediaRoutes.on_db,
    bind, gets, modify, raise, ret.
  cbn. destruct (upload_fileobj _ _ _ _) as [st [msg|]]; reflexivity.
Qed.

(** Every handler that writes to the store takes a reachable store to a
    reachable one: those that leave [question_progress] alone fall under
    [reach_other]. *)
Lemma reachable_closed (s : session) :
  reachable s ->
  (forall question current_user,
     reachable (fst (InterviewRoutes.create_question question current_user s))) /\
  (forall answer current_user,
     reachable (fst (InterviewRoutes.submit_answer answer current_user s))) /\
  (forall question_id current_user,
     reachable (fst (Catalogue.like_question question_id current_user s))) /\
  (forall user_id question_id confidence_score now,
     reachable (fst (ProgressService.update_mastery_level
                       user_id question_id confidence_score now s))) /\
  (forall hash default_id default_created_at user,
     reachable (fst (UserRoutes.register_user hash default_id default_created_at user s))) /\
  (forall user_update current_user,
     reachable (fst (Accounts.update_user user_update current_user s))) /\
  (forall skills current_user,
     reachable (fst (Accounts.update_skills skills current_user s))) /\
  (forall (S3 : Type) upload_fileobj bucket splitext_ext file category tags current_user
          name_uuid row_uuid now (w : MediaRoutes.world S3),
     MediaRoutes.db w = s ->
     reachable (MediaRoutes.db
                  (fst (MediaFiles.upload_file upload_fileobj bucket splitext_ext
                          file category tags current_user name_uuid row_uuid now w)))) /\
  (forall (S3 : Type) delete_object bucket file_id current_user (w : MediaRoutes.world S3),
     MediaRoutes.db w = s ->
     reachable (MediaRoutes.db
                  (fst (MediaRoutes.delete_file delete_object bucket
                          file_id current_user w)))).
Proof.
  intros R. repeat split; intros.
  - now apply (reach_other s).
  - now apply reach_submit_answer.
  - now apply (reach_other s).
  - now apply reach_update_mastery_level.
  - apply (reach_other s); [assumption|apply register_user_progress].
  - now apply (reach_other s).
  - now apply (reach_other s).
  - subst s. apply (reach_other (MediaRoutes.db w)); [assumption|apply upload_file_progress].
  - subst s. apply (reach_other (MediaRoutes.db w)); [assumption|apply delete_file_progress].
Qed.

(** In every store the handlers can produce from an empty
    [question_progress] table, a (user, question) pair has at most one
    progress row, every row counts at least one attempt, and every row
    has the status "in_progress": no handler ever marks a question
    completed. *)
Theorem progress_rows_invariant (s : session) :
  reachable s ->
  (forall p, In p (question_progress s) ->
     1 <= p_attempts p /\ p_status p = "in_progress") /\
  (forall p p', In p (question_progress s) -> In p' (question_progress s) ->
     p_user_id p = p_user_id p' -> p_question_id p = p_question_id p' -> p = p').
Proof.
  intros R. destruct (reachable_progress_wf s R) as [Hatt ND].
  pose proof (reachable_status s R) as Hst.
  rewrite Forall_forall in Hatt, Hst. split.
  - intros p Hp. split; [now apply Hatt|now apply Hst].
  - intros p p' Hp Hp' Hu Hq. apply (unique_row (question_progress s)); auto.
    unfold key_of. now rewrite Hu, Hq.
Qed.

(** A store with questions, after an answer of alice and a mastery
    update for another user. *)
Lemma progress_rows_invariant_witness :
  let s :=
    fst (ProgressService.update_mastery_level "u-2" "q-1" (1 # 2) Sample.t0
           (fst (InterviewRoutes.submit_answer Sample.ans1 Sample.alice
                   Sample.with_questions))) in
  List.length (question_progress s) = 2%nat /\
  (forall p, In p (question_progress s) ->
     1 <= p_attempts p /\ p_status p = "in_progress") /\
  (forall p p', In p (question_progress s) -> In p' (question_progress s) ->
     p_user_id p = p_user_id p' -> p_question_id p = p_question_id p' -> p = p').
Proof.
  cbv zeta. split; [reflexivity|].
  apply progress_rows_invariant.
  apply reach_update_mastery_level, reach_submit_answer, reach_start. reflexivity.
Defined.

Lemma last_cons {A} (l : list A) (x d : A) : last (x :: l) d = last l x.
Proof.
  revert x d. induction l as [|y l IH]; intros x d; [reflexivity|].
  change (last (x :: y :: l) d) with (last (y :: l) d). now rewrite !IH.
Qed.

Lemma last_map_default {A B} (f : A -> B) (l : list A) (d : A) :
  last (map f l) (f d) = f (last l d).
Proof.
  revert d. induction l as [|x l IH]; intros d; [reflexivity|].
  cbn [map]. now rewrite !last_cons, IH.
Qed.

Lemma submit_all_last_row current_user question_id (answers : list UserAnswer) :
  forall s t a d,
    (exists q, In q (interview_questions s) /\ q_id q = question_id) ->
    (forall x, In x answers -> a_question_id x = question_id) ->
    question_progress s =
      (t ++ [mkQuestionProgress (usr_id current_user) question_id "in_progress" a
               (Some d) None None])%list ->
    (forall p, In p t ->
       ~ (p_user_id p = usr_id current_user /\ p_question_id p = question_id)) ->
    let s' := submit_all answers current_user s in
    user_answers s' =
      (user_answers s ++
       map (fun x => mkUserAnswer (a_id x) (usr_id current_user) question_id
                       (a_answer_text x) (a_voice_recording_url x) (a_feedback x)
                       (a_confidence_score x) (a_created_at x) None) answers)%list /\
    question_progress s' =
      (t ++ [mkQuestionProgress (usr_id current_user) question_id "in_progress"
               (a + len answers)
               (Some (last (map a_created_at answers) d)) None None])%list /\
    interview_questions s' = interview_questions s /\
    users s' = users s /\ media_files s' = media_files s.
Proof.
  induction answers as [|x answers IH]; intros s t a d Hq Hall E Hno; cbv zeta.
  - cbn. rewrite app_nil_r. unfold len. cbn. rewrite Z.add_0_r. auto.
  - assert (Hx : a_question_id x = question_id) by (apply Hall; now left).
    destruct (question_lookup x s) as [q Eq]; [now rewrite Hx|].
    set (row := mkQuestionProgress (usr_id current_user) question_id "in_progress" a
                  (Some d) None None) in *.
    assert (Ep : one (filter (progress_key (usr_id current_user) (a_question_id x))
                             (question_progress s)) = Some row)
      by (rewrite E, Hx; now apply select_last).
    pose proof (submit_answer_update x current_user s q row Eq Ep) as Run.
    cbn [submit_all].
    destruct (IH (fst (InterviewRoutes.submit_answer x current_user s)) t (a + 1)
                (a_created_at x)) as (Ha & Hp & Hi & Hu & Hm).
    + rewrite Run. exact Hq.
    + intros y Hy. apply Hall. now right.
    + rewrite Run. cbn [fst question_progress]. rewrite E, Hx.
      now rewrite (update_where_last t row (usr_id current_user) question_id).
    + assumption.
    + rewrite Ha, Hp, Hi, Hu, Hm, Run. cbn [fst user_answers interview_questions users
                                               media_files].
      unfold insert, InterviewRoutes.stored_answer. rewrite Hx.
      rewrite <- app_assoc. cbn [map app]. rewrite last_cons.
      replace (a + 1 + len answers) with (a + len (x :: answers))
        by (unfold len; cbn [List.length]; lia).
      auto.
Qed.

(** Answers submitted one after the other by a user for a question
    of the catalogue, for which the user had no progress row.  Every
    answer is stored, in order, with its own id, text, recording,
    feedback, score and creation time, under the id of the caller
    (whatever [user_id] it carries) and without [updated_at]; the
    progress table gains one row for the pair, which counts as many
    attempts as answers were submitted, bears the time of the last one
    and the status "in_progress", and has no mastery level; the other
    tables stay as they were. *)
Theorem attempts_count_submissions
  (s : session) (current_user : User) (question_id : UUID)
  (first : UserAnswer) (rest : list UserAnswer) :
  (exists q, In q (interview_questions s) /\ q_id q = question_id) ->
  (forall a, In a (first :: rest) -> a_question_id a = question_id) ->
  (forall p, In p (question_progress s) ->
     ~ (p_user_id p = usr_id current_user /\ p_question_id p = question_id)) ->
  let s' := submit_all (first :: rest) current_user s in
  user_answers s' =
    (user_answers s ++
     map (fun a => mkUserAnswer (a_id a) (usr_id current_user) question_id
                     (a_answer_text a) (a_voice_recording_url a) (a_feedback a)
                     (a_confidence_score a) (a_created_at a) None)
         (first :: rest))%list /\
  question_progress s' =
    (question_progress s ++
     [mkQuestionProgress (usr_id current_user) question_id "in_progress"
        (len (first :: rest))
        (Some (a_created_at (last rest first))) None None])%list /\
  interview_questions s' = interview_questions s /\
  users s' = users s /\ media_files s' = media_files s.
Proof.
  intros Hq Hall Hnone. cbv zeta.
  assert (Ha : a_question_id first = question_id) by (apply Hall; now left).
  destruct (question_lookup first s) as [q Eq]; [now rewrite Ha|].
  assert (Ep : one (filter (progress_key (usr_id current_user) (a_question_id first))
                           (question_progress s)) = None).
  { apply one_filter_none. intros p Hp.
    destruct (progress_key (usr_id current_user) (a_question_id first) p) eqn:K;
      [|reflexivity].
    apply progress_key_spec in K. rewrite Ha in K. now destruct (Hnone p Hp). }
  pose proof (submit_answer_create first current_user s q Eq Ep) as E.
  cbn [submit_all].
  destruct (submit_all_last_row current_user question_id rest
              (fst (InterviewRoutes.submit_answer first current_user s))
              (question_progress s) 1 (a_created_at first))
    as (Hans & Hp & Hi & Hu & Hm).
  - rewrite E. exact Hq.
  - intros a' Ha'. apply Hall. now right.
  - rewrite E. cbn [fst question_progress]. unfold insert, InterviewRoutes.created_progress.
    now rewrite Ha.
  - assumption.
  - rewrite Hans, Hp, Hi, Hu, Hm, E.
    cbn [fst user_answers interview_questions users media_files].
    unfold insert, InterviewRoutes.stored_answer. rewrite Ha.
    rewrite <- app_assoc. cbn [map app].
    replace (1 + len rest) with (len (first :: rest))
      by (unfold len; cbn [List.length]; lia).
    replace (last (map a_created_at rest) (a_created_at first))
      with (a_created_at (last rest first))
      by (symmetry; apply (last_map_default a_created_at)).
    auto.
Qed.

Lemma attempts_count_submissions_witness :
  let s' := submit_all [Sample.for_someone_else; SampleMore.ans2] Sample.alice
              Sample.with_questions in
  user_answers s' =
    [mkUserAnswer "a-5" "u-1" "q-1" "Posted under another id" (Some "s3://rec/5")
       (Some "fine") (Some (1 # 4)) Sample.t1 None;
     mkUserAnswer "a-4" "u-1" "q-1" "Second try" None None (Some (3 # 4)) Sample.t1 None] /\
  question_progress s' =
    [mkQuestionProgress "u-1" "q-1" "in_progress" 2 (Some Sample.t1) None None] /\
  interview_questions s' = [Sample.q1; Sample.q2] /\
  users s' = [] /\ media_files s' = [].
Proof.
  apply (attempts_count_submissions Sample.with_questions Sample.alice "q-1"
           Sample.for_someone_else [SampleMore.ans2]).
  - exists Sample.q1. split; [now left|reflexivity].
  - intros a [<-|[<-|[]]]; reflexivity.
  - intros p [].
Defined.

(* ================================================================== *)
(** * Further properties: the question catalogue                        *)
(* ================================================================== *)

Lemma like_times_questions k question_id current_user :
  forall s,
    interview_questions (like_times k question_id current_user s) =
    map (fun q => if String.eqb (q_id q) question_id
                  then mkInterviewQuestion (q_id q) (q_category q) (q_difficulty q)
                         (q_title q) (q_description q) (q_sample_answer q)
                         (q_keywords q) (q_created_at q) (q_tags q) (q_company_tags q)
                         (q_likes q + Z.of_nat k) (q_views q)
                  else q)
        (interview_questions s).
Proof.
  induction k as [|k IH]; intros s.
  - cbn [like_times Z.of_nat]. rewrite <- (map_id (interview_questions s)) at 1.
    apply map_ext. intros q. destruct (String.eqb (q_id q) question_id); [|reflexivity].
    destruct q. cbn. f_equal. lia.
  - cbn [like_times]. rewrite IH. cbn. unfold update_where. rewrite map_map.
    apply map_ext. intros q. destruct (String.eqb (q_id q) question_id) eqn:E.
    + cbn. rewrite E. f_equal. lia.
    + now rewrite E.
Qed.

Lemma like_times_frame k question_id current_user :
  forall s,
    user_answers (like_times k question_id current_user s) = user_answers s /\
    question_progress (like_times k question_id current_user s) = question_progress s /\
    users (like_times k question_id current_user s) = users s /\
    media_files (like_times k question_id current_user s) = media_files s.
Proof.
  induction k as [|k IH]; intros s; [repeat split|].
  cbn [like_times].
  destruct (IH (fst (Catalogue.like_question question_id current_user s)))
    as (H1 & H2 & H3 & H4).
  rewrite H1, H2, H3, H4. repeat split.
Qed.

(** [like_question] always answers "Question liked successfully".  After
    [k] likes of an id, each question with that id has [k] more likes
    and is otherwise as before, every other question and every other
    table is untouched; so liking an id no question has changes
    nothing. *)
Theorem like_question_counts
  (k : nat) (question_id : UUID) (current_user : User) (s : session) :
  let s' := like_times k question_id current_user s in
  snd (Catalogue.like_question question_id current_user s) =
    Ok [("message", "Question liked successfully")] /\
  Forall2 (fun q q' =>
             (q_id q = question_id ->
              q' = mkInterviewQuestion (q_id q) (q_category q) (q_difficulty q)
                     (q_title q) (q_description q) (q_sample_answer q)
                     (q_keywords q) (q_created_at q) (q_tags q) (q_company_tags q)
                     (q_likes q + Z.of_nat k) (q_views q)) /\
             (q_id q <> question_id -> q' = q))
          (interview_questions s) (interview_questions s') /\
  user_answers s' = user_answers s /\
  question_progress s' = question_progress s /\
  users s' = users s /\ media_files s' = media_files s /\
  ((forall q, In q (interview_questions s) -> q_id q <> question_id) -> s' = s).
Proof.
  cbv zeta. split; [reflexivity|].
  destruct (like_times_frame k question_id current_user s) as (H1 & H2 & H3 & H4).
  pose proof (like_times_questions k question_id current_user s) as Hq.
  split; [|split; [exact H1|split; [exact H2|split; [exact H3|split; [exact H4|]]]]].
  - rewrite Hq. clear. induction (interview_questions s) as [|q l IH]; cbn; constructor.
    + destruct (String.eqb (q_id q) question_id) eqn:E.
      * split; [reflexivity|]. intros N. apply String.eqb_eq in E. contradiction.
      * split; [|reflexivity]. intros N. apply String.eqb_neq in E. contradiction.
    + exact IH.
  - intros Hno.
    assert (Hsame : interview_questions (like_times k question_id current_user s)
                    = interview_questions s).
    { rewrite Hq. rewrite <- (map_id (interview_questions s)) at 2.
      apply map_ext_in. intros q Hin.
      destruct (String.eqb (q_id q) question_id) eqn:E; [|reflexivity].
      apply String.eqb_eq in E. now destruct (Hno q Hin). }
    destruct (like_times k question_id current_user s), s. cbn in *. congruence.
Qed.

Lemma like_question_counts_witness :
  like_times 3 "q-9" Sample.alice Sample.with_questions = Sample.with_questions.
Proof.
  apply (like_question_counts 3 "q-9" Sample.alice Sample.with_questions).
  intros q [<-|[<-|[]]]; discriminate.
Defined.

(** A question stored by [create_question] is appended to the
    catalogue and accepted as the target of [submit_answer], but the
    catalogue can then not be listed through it: for every combination
    of filters the question satisfies and every limit from 1 to 50,
    [get_questions] raises [TypeError] and returns nothing. *)
Theorem created_question_breaks_listing
  (question : InterviewQuestion) (current_user : User) (s : session)
  (category difficulty tag company : option string) (limit : Z) :
  1 <= limit <= 50 ->
  (forall c, given category c -> q_category question = c) ->
  (forall d, given difficulty d -> q_difficulty question = d) ->
  (forall t, given tag t -> In t (q_tags question)) ->
  (forall c, given company c -> In c (q_company_tags question)) ->
  let s1 := fst (InterviewRoutes.create_question question current_user s) in
  snd (InterviewRoutes.create_question question current_user s) = Ok question /\
  interview_questions s1 = (interview_questions s ++ [question])%list /\
  InterviewRoutes.get_questions category difficulty tag company limit current_user s1 =
    (s1, Raise TypeError) /\
  (forall answer, a_question_id answer = q_id question ->
     snd (InterviewRoutes.submit_answer answer current_user s1) = Ok answer).
Proof.
  intros Hlim H1 H2 H3 H4. cbv zeta. split; [reflexivity|]. split; [reflexivity|]. split.
  - rewrite get_questions_run.
    assert (L : (50 <? limit)%Z = false) by (apply Z.ltb_ge; lia). rewrite L.
    destruct (Db.limit _ _) eqn:E; [|reflexivity]. exfalso.
    apply limit_nil_iff in E as [E|E]; [lia|].
    assert (Hf : In question
                   (filter (InterviewRoutes.conditions category difficulty tag company)
                      (interview_questions
                         (fst (InterviewRoutes.create_question question current_user s))))).
    { apply filter_In. split.
      - cbn. unfold insert. apply in_or_app. right. now left.
      - apply conditions_spec. auto. }
    rewrite E in Hf. destruct Hf.
  - intros answer Ha.
    destruct (question_lookup answer
                (fst (InterviewRoutes.create_question question current_user s)))
      as [q Eq].
    { exists question. split; [|now symmetry]. cbn. unfold insert.
      apply in_or_app. right. now left. }
    destruct (one (filter (progress_key (usr_id current_user) (a_question_id answer))
                          (question_progress
                             (fst (InterviewRoutes.create_question
                                     question current_user s))))) as [p|] eqn:Ep.
    + now rewrite (submit_answer_update _ _ _ _ _ Eq Ep).
    + now rewrite (submit_answer_create _ _ _ _ Eq Ep).
Qed.

Lemma created_question_breaks_listing_witness :
  let s1 := fst (InterviewRoutes.create_question Sample.q2 Sample.alice Db.empty) in
  snd (InterviewRoutes.get_questions None None None None 10 Sample.alice Db.empty) =
    Ok [] /\
  snd (InterviewRoutes.create_question Sample.q2 Sample.alice Db.empty) = Ok Sample.q2 /\
  interview_questions s1 = [Sample.q2] /\
  InterviewRoutes.get_questions (Some "python") (Some "hard") (Some "runtime") None
    10 Sample.alice s1 = (s1, Raise TypeError) /\
  (forall answer, a_question_id answer = q_id Sample.q2 ->
     snd (InterviewRoutes.submit_answer answer Sample.alice s1) = Ok answer).
Proof.
  cbv zeta. split; [reflexivity|].
  apply (created_question_breaks_listing Sample.q2 Sample.alice Db.empty
           (Some "python") (Some "hard") (Some "runtime") None 10).
  - lia.
  - intros c [E _]. now injection E as <-.
  - intros d [E _]. now injection E as <-.
  - intros t [E _]. injection E as <-. now left.
  - intros c [E _]. discriminate.
Defined.

(* ================================================================== *)
(** * Further properties: the analysis of a response                    *)
(* ================================================================== *)

Lemma coverage_ratio (a b : Z) :
  0 <= a <= b -> 0 < b ->
  in_unit (inject_Z a / inject_Z b)%Q /\
  ((inject_Z a / inject_Z b == 1)%Q <-> a = b) /\
  ((inject_Z a / inject_Z b == 0)%Q <-> a = 0).
Proof.
  intros [Ha Hab] Hb.
  assert (Hb' : (0 < inject_Z b)%Q)
    by (change 0%Q with (inject_Z 0); now rewrite <- Zlt_Qlt).
  assert (Hb0 : ~ (inject_Z b == 0)%Q) by (intros E; rewrite E in Hb'; discriminate).
  assert (Ha' : (0 <= inject_Z a)%Q)
    by (change 0%Q with (inject_Z 0); now rewrite <- Zle_Qle).
  assert (Hab' : (inject_Z a <= inject_Z b)%Q) by now rewrite <- Zle_Qle.
  split; [split|split].
  - apply Qle_shift_div_l; [assumption|]. lra.
  - apply Qle_shift_div_r; [assumption|]. lra.
  - split.
    + intros E. apply inject_Z_injective.
      setoid_replace (inject_Z a) with (inject_Z a / inject_Z b * inject_Z b)%Q
        by (field; assumption).
      rewrite E. ring.
    + intros ->. field. assumption.
  - split.
    + intros E. apply inject_Z_injective.
      setoid_replace (inject_Z a) with (inject_Z a / inject_Z b * inject_Z b)%Q
        by (field; assumption).
      rewrite E. ring.
    + intros ->. change (inject_Z 0) with 0%Q. field. assumption.
Qed.

Lemma filter_split_perm {A} (f : A -> bool) (l : list A) :
  Permutation (filter f l ++ filter (fun x => negb (f x)) l) l.
Proof.
  induction l as [|x l IH]; cbn; [constructor|].
  destruct (f x); cbn.
  - now constructor.
  - symmetry. apply Permutation_cons_app. now symmetry.
Qed.

Lemma filter_all {A} (f : A -> bool) (l : list A) :
  filter (fun x => negb (f x)) l = [] -> filter f l = l.
Proof.
  induction l as [|x l IH]; cbn; [reflexivity|].
  destruct (f x); cbn; [intros H; now rewrite IH|discriminate].
Qed.

(** [analyze_interview_response] never raises and never changes the
    store, and its score lies in [0,1].  For an unknown question it
    answers score 0 with "Question not found".  For a known one, the
    keywords reported as mentioned and as missing together are exactly
    the required keywords, and when at least one keyword is required the
    score is 1 exactly when none is missing and 0 exactly when none is
    mentioned. *)
Theorem analysis_score_in_unit
  (str_lower : string -> string)
  (transcript : string) (question_id : UUID) (s : session) :
  exists a,
    VoiceService.analyze_interview_response str_lower transcript question_id s = (s, Ok a) /\
    in_unit (VoiceService.score a) /\
    (one (filter (fun q => String.eqb (q_id q) question_id) (interview_questions s))
       = None ->
     a = VoiceService.mkAnalysis 0 "Question not found" [] []) /\
    (forall question,
       one (filter (fun q => String.eqb (q_id q) question_id) (interview_questions s))
         = Some question ->
       Permutation (VoiceService.keywords_mentioned a ++ VoiceService.missing_keywords a)
                   (q_keywords question) /\
       (q_keywords question <> [] ->
        ((VoiceService.score a == 1)%Q <-> VoiceService.missing_keywords a = []) /\
        ((VoiceService.score a == 0)%Q <-> VoiceService.keywords_mentioned a = []))).
Proof.
  destruct (one (filter (fun q => String.eqb (q_id q) question_id)
                        (interview_questions s))) as [question|] eqn:E.
  - eexists. split.
    { apply (analyze_interview_response_found str_lower transcript question_id s question E). }
    cbn [VoiceService.score VoiceService.keywords_mentioned VoiceService.missing_keywords].
    pose proof (filter_length (VoiceService.mentioned str_lower transcript) (q_keywords question))
      as Hlen.
    set (found := filter (VoiceService.mentioned str_lower transcript) (q_keywords question)) in *.
    set (missing := filter (fun k => negb (VoiceService.mentioned str_lower transcript k))
                           (q_keywords question)) in *.
    assert (Hratio : q_keywords question <> [] ->
              in_unit (inject_Z (len found) / inject_Z (len (q_keywords question)))%Q /\
              ((inject_Z (len found) / inject_Z (len (q_keywords question)) == 1)%Q
               <-> len found = len (q_keywords question)) /\
              ((inject_Z (len found) / inject_Z (len (q_keywords question)) == 0)%Q
               <-> len found = 0)).
    { intros Hne. apply coverage_ratio; unfold len.
      - lia.
      - destruct (q_keywords question); [contradiction|cbn; lia]. }
    split; [|split; [discriminate|]].
    + destruct (q_keywords question) as [|kw kws] eqn:K.
      * split; unfold Qle; cbn; lia.
      * apply Hratio. discriminate.
    + intros q' Hq'. injection Hq' as <-. split; [apply filter_split_perm|].
      intros Hne. destruct (q_keywords question) as [|kw kws] eqn:K; [contradiction|].
      destruct (Hratio Hne) as (_ & H1 & H0). split.
      * rewrite H1. unfold len. split.
        -- intros Hl. apply length_zero_iff_nil. lia.
        -- intros Hm. rewrite Hm in Hlen.
           change (List.length (@nil string)) with 0%nat in Hlen. lia.
      * rewrite H0. unfold len. split.
        -- intros Hl. apply length_zero_iff_nil. lia.
        -- intros Hm. now rewrite Hm.
  - eexists. split.
    { unfold VoiceService.analyze_interview_response, bind, gets, ret.
      rewrite E. reflexivity. }
    cbn. split; [split; unfold Qle; cbn; lia|]. split; [reflexivity|discriminate].
Qed.

(** The feedback for a known question with at least one required
    keyword: when no keyword is missing it is the "Excellent" sentence
    followed by the list of all keywords as mentioned, and when no
    keyword is mentioned it is the "review this topic" sentence followed
    by the list of all keywords to include. *)
Theorem feedback_at_full_and_no_coverage
  (str_lower : string -> string)
  (transcript : string) (question_id : UUID) (s : session)
  (question : InterviewQuestion) (a : VoiceService.analysis) :
  one (filter (fun q => String.eqb (q_id q) question_id) (interview_questions s))
    = Some question ->
  q_keywords question <> [] ->
  VoiceService.analyze_interview_response str_lower transcript question_id s = (s, Ok a) ->
  (VoiceService.missing_keywords a = [] ->
   VoiceService.feedback a =
     ("Excellent response! You covered most of the key points."
      ++ " " ++ "You effectively mentioned: " ++ join ", " (q_keywords question))%string) /\
  (VoiceService.keywords_mentioned a = [] ->
   VoiceService.feedback a =
     ("You might want to review this topic and try again."
      ++ " " ++ "Consider including these points in your answer: "
      ++ join ", " (q_keywords question))%string).
Proof.
  intros E Hne Hrun.
  rewrite (analyze_interview_response_found str_lower transcript question_id s question E) in Hrun.
  injection Hrun as <-.
  cbn [VoiceService.feedback VoiceService.keywords_mentioned VoiceService.missing_keywords].
  pose proof (filter_length (VoiceService.mentioned str_lower transcript) (q_keywords question))
    as Hlen.
  destruct (q_keywords question) as [|kw kws] eqn:K; [contradiction|]. rewrite <- K in *.
  assert (Hpos : 0 < len (q_keywords question)) by (rewrite K; unfold len; cbn; lia).
  split.
  - intros Hm. pose proof (filter_all _ _ Hm) as Hf. rewrite Hm, Hf.
    unfold VoiceService._generate_feedback.
    assert (Hs : Qle_bool (8 # 10)
                   (inject_Z (len (q_keywords question))
                    / inject_Z (len (q_keywords question))) = true).
    { apply Qle_bool_iff.
      destruct (coverage_ratio (len (q_keywords question)) (len (q_keywords question)))
        as (_ & H1 & _); [lia|assumption|].
      rewrite (proj2 H1 eq_refl). unfold Qle. cbn. lia. }
    rewrite K in *. rewrite Hs. reflexivity.
  - intros Hm.
    assert (Hf : filter (fun k => negb (VoiceService.mentioned str_lower transcript k))
                        (q_keywords question) = q_keywords question).
    { apply (filter_all (fun k => negb (VoiceService.mentioned str_lower transcript k))).
      rewrite <- Hm. apply filter_ext. intros k. now rewrite negb_involutive. }
    rewrite Hm, Hf. unfold VoiceService._generate_feedback.
    rewrite K. reflexivity.
Qed.

Lemma feedback_at_full_and_no_coverage_witness :
  exists a,
    VoiceService.analyze_interview_response ascii_lower "Hash map, complexity" "q-1"
      Sample.with_questions = (Sample.with_questions, Ok a) /\
    VoiceService.feedback a =
      ("Excellent response! You covered most of the key points."
       ++ " " ++ "You effectively mentioned: " ++ "hash, Map, complexity")%string.
Proof.
  eexists. split; [vm_compute; reflexivity|].
  apply (feedback_at_full_and_no_coverage ascii_lower "Hash map, complexity" "q-1"
           Sample.with_questions Sample.q1 _ eq_refl).
  - discriminate.
  - reflexivity.
  - reflexivity.
Defined.

(* ================================================================== *)
(** * Further properties: job search and ranking                        *)
(* ================================================================== *)

(** [_extract_skills] returns the entries of its fixed skill list
    that are found in the description by case-insensitive substring
    match (whatever the case mapping [str_lower] does to the
    characters), in the order of that list and each at most once; since
    the match is by substring and the case mapping leaves the two
    lower-case names as they are, a description that yields "javascript"
    always yields "java" too. *)
Theorem extract_skills_by_substring
  (str_lower : string -> string) (description : string) :
  (forall skill,
     In skill (JobSearch._extract_skills str_lower description) <->
     In skill JobSearch.common_skills /\ occurs_lowered str_lower skill description) /\
  NoDup (JobSearch._extract_skills str_lower description) /\
  (exists keep,
     JobSearch._extract_skills str_lower description =
       filter keep JobSearch.common_skills) /\
  (str_lower "java" = "java" -> str_lower "javascript" = "javascript" ->
   In "javascript" (JobSearch._extract_skills str_lower description) ->
   In "java" (JobSearch._extract_skills str_lower description)).
Proof.
  assert (Hchar : forall skill,
            In skill (JobSearch._extract_skills str_lower description) <->
            In skill JobSearch.common_skills /\
            occurs_lowered str_lower skill description).
  { intros skill. unfold JobSearch._extract_skills. rewrite filter_In.
    now rewrite (mentioned_spec str_lower description skill). }
  split; [exact Hchar|]. split; [|split].
  - unfold JobSearch._extract_skills. apply NoDup_filter.
    unfold JobSearch.common_skills.
    repeat (constructor; [cbn; intuition discriminate|]). constructor.
  - eexists. reflexivity.
  - intros Ej Ejs H. apply Hchar in H as [_ H]. apply Hchar. split.
    + right. left. reflexivity.
    + unfold occurs_lowered in *. rewrite Ejs in H. rewrite Ej.
      destruct H as (pre & post & Hd). exists pre, ("script" ++ post)%string.
      rewrite Hd. reflexivity.
Qed.

Lemma extract_skills_by_substring_witness :
  In "java" (JobSearch._extract_skills ascii_lower "Senior JavaScript and SQL engineer") /\
  ~ In "python" (JobSearch._extract_skills ascii_lower "Senior JavaScript and SQL engineer").
Proof.
  destruct (extract_skills_by_substring ascii_lower "Senior JavaScript and SQL engineer")
    as (Hchar & _ & _ & Hjava).
  split.
  - apply Hjava; [reflexivity|reflexivity|].
    apply Hchar. split; [right; right; left; reflexivity|].
    apply (mentioned_spec ascii_lower). reflexivity.
  - intros H. apply Hchar in H as [_ H]. apply (mentioned_spec ascii_lower) in H.
    discriminate H.
Defined.

(** [_extract_experience_level] answers "senior" exactly when the
    description mentions senior (in any letter case), even if it also
    mentions junior; "junior" exactly when it mentions junior and not
    senior; and "mid-level" otherwise. *)
Theorem experience_level_senior_first (description : string) :
  let level := JobSearch._extract_experience_level description in
  (level = "senior" <-> occurs_ignoring_case "senior" description) /\
  (level = "junior" <->
   occurs_ignoring_case "junior" description /\
   ~ occurs_ignoring_case "senior" description) /\
  (level = "mid-level" <->
   ~ occurs_ignoring_case "junior" description /\
   ~ occurs_ignoring_case "senior" description).
Proof.
  cbv zeta. unfold JobSearch._extract_experience_level.
  pose proof (contains_lower_spec description "senior") as Hs.
  pose proof (contains_lower_spec description "junior") as Hj.
  change (ascii_lower "senior") with "senior" in Hs.
  change (ascii_lower "junior") with "junior" in Hj.
  destruct (contains (ascii_lower description) "senior") eqn:Es.
  - assert (Ps : occurs_ignoring_case "senior" description)
      by (apply (proj1 Hs); reflexivity).
    cbv iota. split; [split; [intros _; exact Ps|reflexivity]|].
    split; (split; [intros H; discriminate H|intros [_ N]; contradiction]).
  - assert (Ns : ~ occurs_ignoring_case "senior" description).
    { intros P. apply (proj2 Hs) in P. discriminate P. }
    destruct (contains (ascii_lower description) "junior") eqn:Ej; cbv iota;
      (split; [split; [intros H; discriminate H|intros P; contradiction]|]).
    + assert (Pj : occurs_ignoring_case "junior" description)
        by (apply (proj1 Hj); reflexivity).
      split; [split; [intros _; split; assumption|reflexivity]|].
      split; [intros H; discriminate H|intros [N _]; contradiction].
    + assert (Nj : ~ occurs_ignoring_case "junior" description).
      { intros P. apply (proj2 Hj) in P. discriminate P. }
      split; [split; [intros H; discriminate H|intros [P _]; contradiction]|].
      split; [intros _; split; assumption|reflexivity].
Qed.

Lemma StronglySorted_app_inv {A} (R : A -> A -> Prop) (l1 l2 : list A) :
  StronglySorted R (l1 ++ l2) ->
  StronglySorted R l1 /\ (forall a b, In a l1 -> In b l2 -> R a b).
Proof.
  induction l1 as [|x l1 IH]; cbn; intros H.
  - split; [constructor|intros a b []].
  - inversion H as [|? ? Hs Hx]; subst. destruct (IH Hs) as [H1 H2]. split.
    + constructor; [assumption|]. rewrite Forall_forall in *.
      intros y Hy. apply Hx. apply in_or_app. now left.
    + intros a b [<-|Ha] Hb.
      * rewrite Forall_forall in Hx. apply Hx. apply in_or_app. now right.
      * now apply H2.
Qed.

Lemma sorted_reverse_fixed {A} (key : A -> Z) (l : list A) :
  StronglySorted (fun a b => key b <= key a) l -> sorted_reverse key l = l.
Proof.
  induction 1 as [|x l Hl IH Hx]; [reflexivity|].
  cbn [sorted_reverse]. rewrite IH. destruct l as [|y l]; [reflexivity|].
  cbn [insert_desc]. inversion Hx as [|? ? Hy _]; subst.
  destruct (key y <=? key x)%Z eqn:E; [reflexivity|]. apply Z.leb_gt in E. lia.
Qed.

(** Ranking a list that [_sort_jobs_by_relevance] has already
    ranked for the same skills returns it unchanged. *)
Theorem sort_jobs_by_relevance_idempotent
  (str_lower : string -> string)
  (jobs : list JobService.JobPosting) (user_skills : list string) :
  JobService._sort_jobs_by_relevance str_lower
    (JobService._sort_jobs_by_relevance str_lower jobs user_skills) user_skills =
  JobService._sort_jobs_by_relevance str_lower jobs user_skills.
Proof.
  unfold JobService._sort_jobs_by_relevance.
  apply sorted_reverse_fixed, sorted_reverse_sorted.
Qed.

(** For a stored user, job boards that answer and a limit that is not
    negative, [get_recommended_jobs] leaves the store alone and returns
    at most [limit] of the fetched postings, ranked for the user's
    stored skills: they are in descending order of relevance and every
    posting left out is at most as relevant as each one returned. *)
Theorem recommended_jobs_are_most_relevant
  (str_lower : string -> string)
  (fetch_linkedin_jobs fetch_indeed_jobs :
     list string -> string -> result (list JobService.JobPosting))
  (user_id : UUID) (limit : Z) (s : session) (user_data : UserInDB)
  (linkedin_jobs indeed_jobs : list JobService.JobPosting) :
  one (filter (fun u => String.eqb (u_id u) user_id) (users s)) = Some user_data ->
  fetch_linkedin_jobs (u_skills user_data)
    (dict_get (u_preferences user_data) "preferred_location" "") = Ok linkedin_jobs ->
  fetch_indeed_jobs (u_skills user_data)
    (dict_get (u_preferences user_data) "preferred_location" "") = Ok indeed_jobs ->
  0 <= limit ->
  let relevance := JobService.calculate_relevance str_lower (u_skills user_data) in
  exists jobs rest,
    JobSearch.get_recommended_jobs str_lower fetch_linkedin_jobs fetch_indeed_jobs
      user_id limit s = (s, Ok jobs) /\
    Z.of_nat (List.length jobs) =
      Z.min limit (Z.of_nat (List.length (linkedin_jobs ++ indeed_jobs))) /\
    Permutation (jobs ++ rest) (linkedin_jobs ++ indeed_jobs) /\
    StronglySorted (fun a b => relevance b <= relevance a) jobs /\
    (forall a b, In a jobs -> In b rest -> relevance b <= relevance a).
Proof.
  intros Hu Hl Hi Hlim. cbv zeta.
  set (ranked := JobService._sort_jobs_by_relevance str_lower (linkedin_jobs ++ indeed_jobs)
                   (u_skills user_data)).
  exists (firstn (Z.to_nat limit) ranked), (skipn (Z.to_nat limit) ranked).
  assert (Hperm : Permutation ranked (linkedin_jobs ++ indeed_jobs))
    by apply sorted_reverse_perm.
  assert (Hsorted : StronglySorted
            (fun a b => JobService.calculate_relevance str_lower (u_skills user_data) b
                        <= JobService.calculate_relevance str_lower (u_skills user_data) a)
            (firstn (Z.to_nat limit) ranked ++ skipn (Z.to_nat limit) ranked)).
  { rewrite firstn_skipn. apply sorted_reverse_sorted. }
  apply StronglySorted_app_inv in Hsorted as [Hs1 Hs2].
  split; [|split; [|split; [|split]]].
  - unfold JobSearch.get_recommended_jobs, bind, gets, lift, ret.
    rewrite Hu, Hl, Hi. unfold slice_to.
    destruct (0 <=? limit)%Z eqn:E; [reflexivity|]. apply Z.leb_gt in E. lia.
  - rewrite length_firstn, (Permutation_length Hperm). lia.
  - now rewrite firstn_skipn.
  - exact Hs1.
  - exact Hs2.
Qed.

Lemma recommended_jobs_are_most_relevant_witness :
  let relevance := JobService.calculate_relevance ascii_lower ["Python"; "sql"] in
  exists jobs rest,
    JobSearch.get_recommended_jobs ascii_lower SampleMore.linkedin SampleMore.indeed
      "u-3" 2 SampleMore.with_carol = (SampleMore.with_carol, Ok jobs) /\
    Z.of_nat (List.length jobs) =
      Z.min 2 (Z.of_nat (List.length ([Sample.P2; SampleMore.P3] ++ [Sample.P1]))) /\
    Permutation (jobs ++ rest) ([Sample.P2; SampleMore.P3] ++ [Sample.P1]) /\
    StronglySorted (fun a b => relevance b <= relevance a) jobs /\
    (forall a b, In a jobs -> In b rest -> relevance b <= relevance a).
Proof.
  apply (recommended_jobs_are_most_relevant ascii_lower SampleMore.linkedin SampleMore.indeed
           "u-3" 2 SampleMore.with_carol SampleMore.carol
           [Sample.P2; SampleMore.P3] [Sample.P1]).
  - reflexivity.
  - reflexivity.
  - reflexivity.
  - lia.
Defined.

(** [search_jobs], when the job boards answer for the keywords it
    passes on (the given ones, or the caller's stored skills when none
    are given): it leaves the store alone and returns the fetched
    postings in their order, keeping exactly those whose experience
    level has the same lower-case form as the requested one (whatever
    the case mapping [str_lower] does to the characters); without a
    requested level, or with an empty one, it returns them all. *)
Theorem search_jobs_filters_by_level
  (str_lower : string -> string)
  (fetch_linkedin_jobs fetch_indeed_jobs :
     list string -> string -> result (list JobService.JobPosting))
  (keywords : option (list string)) (location experience_level : option string)
  (current_user : User) (s : session)
  (linkedin_jobs indeed_jobs : list JobService.JobPosting) :
  let used_keywords :=
    match keywords with
    | Some (k :: ks) => k :: ks
    | _ => match one (filter (fun u => String.eqb (u_id u) (usr_id current_user))
                             (users s)) with
           | Some user_data => u_skills user_data
           | None => []
           end
    end in
  let used_location :=
    match location with Some (String c l) => String c l | _ => "" end in
  fetch_linkedin_jobs used_keywords used_location = Ok linkedin_jobs ->
  fetch_indeed_jobs used_keywords used_location = Ok indeed_jobs ->
  exists jobs keep,
    JobSearch.search_jobs str_lower fetch_linkedin_jobs fetch_indeed_jobs
      keywords location experience_level current_user s = (s, Ok jobs) /\
    jobs = filter keep (linkedin_jobs ++ indeed_jobs) /\
    (forall job,
       In job jobs <->
       In job (linkedin_jobs ++ indeed_jobs) /\
       (forall level, given experience_level level ->
          same_ignoring_case str_lower (JobService.j_experience_level job) level)).
Proof.
  cbv zeta. intros Hl Hi.
  assert (Hrun : forall kws,
    kws = match keywords with
          | Some (k :: ks) => k :: ks
          | _ => match one (filter (fun u => String.eqb (u_id u) (usr_id current_user))
                                   (users s)) with
                 | Some user_data => u_skills user_data
                 | None => []
                 end
          end ->
    JobSearch.search_jobs str_lower fetch_linkedin_jobs fetch_indeed_jobs
      keywords location experience_level current_user s =
    (s, Ok match experience_level with
           | Some level =>
               if truthy_str level
               then filter (fun job =>
                              String.eqb (str_lower (JobService.j_experience_level job))
                                         (str_lower level))
                           (linkedin_jobs ++ indeed_jobs)
               else (linkedin_jobs ++ indeed_jobs)%list
           | None => (linkedin_jobs ++ indeed_jobs)%list
           end)).
  { intros kws ->. unfold JobSearch.search_jobs, bind, gets, lift, ret.
    destruct keywords as [[|k ks]|]; cbn [truthy_opt truthy_list negb];
      replace (match location with
               | Some l => if truthy_str l then l else ""
               | None => ""
               end)
        with (match location with Some (String c l) => String c l | _ => "" end)
        by (destruct location as [[|c l]|]; reflexivity);
      rewrite Hl, Hi; reflexivity. }
  rewrite (Hrun _ eq_refl). unfold same_ignoring_case.
  destruct experience_level as [[|c level]|]; cbn [truthy_str].
  - exists (linkedin_jobs ++ indeed_jobs)%list, (fun _ => true).
    split; [reflexivity|]. split.
    + symmetry. apply forallb_filter_id. now apply forallb_forall.
    + intros job. split; [intros H; split; [assumption|]|tauto].
      intros level [E N]. injection E as <-. contradiction.
  - eexists. eexists. split; [reflexivity|]. split; [reflexivity|].
    intros job. rewrite filter_In, String.eqb_eq. split.
    + intros [H E]. split; [assumption|]. intros lv [E' _]. now injection E' as <-.
    + intros [H E]. split; [assumption|]. apply E. split; [reflexivity|discriminate].
  - exists (linkedin_jobs ++ indeed_jobs)%list, (fun _ => true).
    split; [reflexivity|]. split.
    + symmetry. apply forallb_filter_id. now apply forallb_forall.
    + intros job. split; [intros H; split; [assumption|]|tauto].
      intros level [E _]. discriminate.
Qed.

(** A search for the level SENIOR over postings marked senior and one
    marked Junior: the senior ones are returned, in the order fetched. *)
Lemma search_jobs_filters_by_level_witness :
  JobSearch.search_jobs ascii_lower SampleMore.linkedin SampleMore.indeed_more
    None None (Some "SENIOR") SampleMore.carol_user SampleMore.with_carol
    = (SampleMore.with_carol, Ok [Sample.P2; SampleMore.P3; Sample.P1]).
Proof.
  destruct (search_jobs_filters_by_level ascii_lower SampleMore.linkedin SampleMore.indeed_more
              None None (Some "SENIOR") SampleMore.carol_user SampleMore.with_carol
              [Sample.P2; SampleMore.P3] [SampleMore.trainee; Sample.P1]
              eq_refl eq_refl) as (jobs & keep & E & Hjobs & Hin).
  rewrite E. do 2 f_equal.
  assert (Hyes : forall job,
            In job [Sample.P2; SampleMore.P3; Sample.P1] -> keep job = true).
  { intros job Hj.
    assert (H : In job jobs).
    { apply Hin. split.
      - destruct Hj as [<-|[<-|[<-|[]]]];
          [left|right; left|right; right; right; left]; reflexivity.
      - intros level [El _]. injection El as <-. unfold same_ignoring_case.
        destruct Hj as [<-|[<-|[<-|[]]]]; vm_compute; reflexivity. }
    rewrite Hjobs in H. now apply filter_In in H. }
  assert (Hno : keep SampleMore.trainee = false).
  { apply not_true_iff_false. intros K.
    assert (H : In SampleMore.trainee jobs).
    { rewrite Hjobs. apply filter_In. split; [|exact K].
      right; right; left; reflexivity. }
    apply Hin in H as [_ H].
    assert (G : given (Some "SENIOR") "SENIOR") by (split; [reflexivity|discriminate]).
    specialize (H "SENIOR" G). unfold same_ignoring_case in H.
    vm_compute in H. discriminate H. }
  rewrite Hjobs. cbn [app filter].
  rewrite (Hyes Sample.P2) by (left; reflexivity).
  rewrite (Hyes SampleMore.P3) by (right; left; reflexivity).
  rewrite (Hyes Sample.P1) by (right; right; left; reflexivity).
  rewrite Hno. reflexivity.
Defined.

(* ================================================================== *)
(** * Further properties: accounts                                      *)
(* ================================================================== *)

Lemma filter_none_nil {A} (f : A -> bool) (l : list A) :
  (forall x, In x l -> f x = false) -> filter f l = [].
Proof.
  induction l as [|x l IH]; cbn; intros H; [reflexivity|].
  rewrite (H x) by now left. apply IH. intros y Hy. apply H. now right.
Qed.

(** [register_user] keeps the emails of the [users] table pairwise
    distinct. *)
Theorem register_user_keeps_emails_unique
  (get_password_hash : string -> string) (default_id : UUID)
  (default_created_at : datetime) (user : UserCreate) (s : session) :
  NoDup (map u_email (users s)) ->
  NoDup (map u_email
           (users (fst (UserRoutes.register_user get_password_hash default_id
                          default_created_at user s)))).
Proof.
  intros ND.
  destruct (one (filter (fun u => String.eqb (u_email u) (uc_email user)) (users s)))
    as [row|] eqn:E.
  - now rewrite (register_user_taken _ _ _ _ _ _ E).
  - rewrite (register_user_fresh _ _ _ _ _ E). cbn. unfold insert. rewrite map_app. cbn.
    apply NoDup_app; [assumption|repeat constructor; intros []|].
    intros e He [<-|[]]. apply in_map_iff in He as (u & Hu & Hin).
    rewrite one_filter_none in E. specialize (E u Hin). apply String.eqb_neq in E.
    contradiction.
Qed.

Lemma register_user_keeps_emails_unique_witness :
  NoDup (map u_email
           (users (fst (UserRoutes.register_user Sample.hash "u-0" Sample.t0
                          Sample.bob SampleMore.with_carol)))).
Proof.
  apply (register_user_keeps_emails_unique Sample.hash "u-0" Sample.t0 Sample.bob
           SampleMore.with_carol).
  repeat constructor. intros [].
Defined.

(** A user registered under an email and a username that no stored user
    has can log in with the registered password, provided the password
    check accepts a password against its own hash: [login] answers a
    bearer token made for that username with a 30 minute expiry.  A
    password the check rejects, or a username no stored user has, is
    refused with 401. *)
Theorem registered_user_can_log_in
  (get_password_hash : string -> string) (default_id : UUID)
  (default_created_at : datetime)
  (verify_password : string -> string -> bool) (create_access_token : dict -> Z -> string)
  (user : UserCreate) (s : session) :
  (forall p, verify_password p (get_password_hash p) = true) ->
  (forall u, In u (users s) -> u_email u <> uc_email user) ->
  (forall u, In u (users s) -> u_username u <> uc_username user) ->
  let s1 := fst (UserRoutes.register_user get_password_hash default_id
                   default_created_at user s) in
  let refused :=
    Accounts.Refused 401 "Incorrect username or password"
      [("WWW-Authenticate", "Bearer")] in
  Accounts.login verify_password create_access_token
    (uc_username user) (uc_password user) s1 =
    Accounts.Token (create_access_token [("sub", uc_username user)] 30) "bearer" /\
  (forall password,
     verify_password password (get_password_hash (uc_password user)) = false ->
     Accounts.login verify_password create_access_token (uc_username user) password s1
       = refused) /\
  (forall username password,
     (forall u, In u (users s1) -> u_username u <> username) ->
     Accounts.login verify_password create_access_token username password s1 = refused).
Proof.
  intros Hv He Hn. cbv zeta.
  assert (E : one (filter (fun u => String.eqb (u_email u) (uc_email user)) (users s))
              = None).
  { apply one_filter_none. intros u Hu. apply String.eqb_neq. now apply He. }
  rewrite (register_user_fresh _ _ _ _ _ E). cbn [fst].
  assert (Hsel : one (filter (fun u => String.eqb (u_username u) (uc_username user))
                        (users (set_users
                           (insert (mkUserInDB (uc_email user) (uc_username user)
                                      (uc_full_name user) default_id
                                      (get_password_hash (uc_password user))
                                      default_created_at true [] [] [])) s)))
                 = Some (mkUserInDB (uc_email user) (uc_username user)
                           (uc_full_name user) default_id
                           (get_password_hash (uc_password user))
                           default_created_at true [] [] [])).
  { cbn. unfold insert. rewrite filter_app, filter_none_nil.
    - cbn. now rewrite String.eqb_refl.
    - intros u Hu. apply String.eqb_neq. now apply Hn. }
  split; [|split].
  - unfold Accounts.login. rewrite Hsel. cbn. now rewrite Hv.
  - intros password Hbad. unfold Accounts.login. rewrite Hsel. cbn. now rewrite Hbad.
  - intros username password Hnone. unfold Accounts.login.
    replace (one (filter (fun u => String.eqb (u_username u) username) _))
      with (@None UserInDB); [reflexivity|].
    symmetry. apply one_filter_none. intros u Hu. apply String.eqb_neq. now apply Hnone.
Qed.

Lemma registered_user_can_log_in_witness :
  Accounts.login SampleMore.verify SampleMore.make_token "bob" "pw1"
    (fst (UserRoutes.register_user Sample.hash "u-0" Sample.t0 Sample.bob
            SampleMore.with_carol)) =
  Accounts.Token "token:bob" "bearer".
Proof.
  apply (registered_user_can_log_in Sample.hash "u-0" Sample.t0
           SampleMore.verify SampleMore.make_token Sample.bob SampleMore.with_carol).
  - intros p. apply String.eqb_refl.
  - intros u [<-|[]]. discriminate.
  - intros u [<-|[]]. discriminate.
Defined.

Lemma one_filter_update_where {A} (cond : A -> bool) (set : A -> A) (t : list A) :
  (forall r, cond (set r) = cond r) ->
  one (filter cond (update_where cond set t)) = option_map set (one (filter cond t)).
Proof.
  intros H. induction t as [|r t IH]; [reflexivity|].
  cbn. destruct (cond r) eqn:E.
  - rewrite H, E. reflexivity.
  - rewrite E. exact IH.
Qed.

(** After [update_skills], the recommendations of that user are ranked
    for the new skills: the job boards are asked for them (at the user's
    stored preferred location) and the postings are ordered by their
    relevance to them. *)
Theorem recommendations_follow_updated_skills
  (str_lower : string -> string)
  (fetch_linkedin_jobs fetch_indeed_jobs :
     list string -> string -> result (list JobService.JobPosting))
  (skills : list string) (current_user : User) (limit : Z) (s : session)
  (row : UserInDB) (linkedin_jobs indeed_jobs : list JobService.JobPosting) :
  one (filter (fun u => String.eqb (u_id u) (usr_id current_user)) (users s)) = Some row ->
  fetch_linkedin_jobs skills
    (dict_get (u_preferences row) "preferred_location" "") = Ok linkedin_jobs ->
  fetch_indeed_jobs skills
    (dict_get (u_preferences row) "preferred_location" "") = Ok indeed_jobs ->
  let s1 := fst (Accounts.update_skills skills current_user s) in
  snd (Accounts.update_skills skills current_user s) =
    Ok [("message", "Skills updated successfully")] /\
  JobSearch.get_recommended_jobs str_lower fetch_linkedin_jobs fetch_indeed_jobs
    (usr_id current_user) limit s1 =
    (s1, Ok (slice_to limit
               (JobService._sort_jobs_by_relevance str_lower
                  (linkedin_jobs ++ indeed_jobs) skills))).
Proof.
  intros Hrow Hl Hi. cbv zeta. split; [reflexivity|].
  unfold JobSearch.get_recommended_jobs, bind, gets, lift, ret.
  unfold Accounts.update_skills, bind, modify, ret. cbn [fst users set_users].
  rewrite one_filter_update_where by reflexivity. rewrite Hrow.
  cbn [option_map Accounts.set_skills u_skills u_preferences]. now rewrite Hl, Hi.
Qed.

Lemma recommendations_follow_updated_skills_witness :
  JobSearch.get_recommended_jobs ascii_lower SampleMore.linkedin SampleMore.indeed "u-3" 10
    (fst (Accounts.update_skills ["go"] SampleMore.carol_user SampleMore.with_carol)) =
  (fst (Accounts.update_skills ["go"] SampleMore.carol_user SampleMore.with_carol),
   Ok (slice_to 10
         (JobService._sort_jobs_by_relevance ascii_lower
            ([Sample.P2; SampleMore.P3] ++ [Sample.P1]) ["go"]))).
Proof.
  apply (recommendations_follow_updated_skills ascii_lower SampleMore.linkedin SampleMore.indeed
           ["go"] SampleMore.carol_user 10 SampleMore.with_carol SampleMore.carol
           [Sample.P2; SampleMore.P3] [Sample.P1]).
  - reflexivity.
  - reflexivity.
  - reflexivity.
Defined.

(* ================================================================== *)
(** * Further properties: media files                                   *)
(* ================================================================== *)

Section MediaFacts.
Context {S3 : Type}.
Variable upload_fileobj : string -> string -> string -> S3 -> S3 * option string.
Variable delete_object : string -> string -> S3 -> S3 * option string.
Variable generate_presigned_url : string -> string -> Z -> S3 -> string + string.
Variable BUCKET_NAME : string.
Variable splitext_ext : string -> string.

Lemma upload_file_run file category tags current_user name_uuid row_uuid now
  (w : MediaRoutes.world S3) :
  let unique_filename := (name_uuid ++ splitext_ext (MediaFiles.filename file))%string in
  let call := upload_fileobj (MediaFiles.file file) BUCKET_NAME
                ("uploads/" ++ usr_id current_user ++ "/" ++ unique_filename)
                (MediaRoutes.s3 w) in
  MediaFiles.upload_file upload_fileobj BUCKET_NAME splitext_ext
    file category tags current_user name_uuid row_uuid now w =
  match snd call with
  | Some msg =>
      (MediaRoutes.mkWorld (MediaRoutes.db w) (fst call), Raise (HTTPException 500 msg))
  | None =>
      (MediaRoutes.mkWorld
         (set_media_files
            (insert (mkMediaFile row_uuid (usr_id current_user) unique_filename
                       (MediaFiles.filename file) category tags now
                       (MediaFiles.content_type file) (MediaFiles.size file)))
            (MediaRoutes.db w))
         (fst call),
       Ok [("message", "File uploaded successfully"); ("filename", unique_filename)])
  end.
Proof.
  cbv zeta.
  unfold MediaFiles.upload_file, MediaFiles.s3_upload_fileobj, MediaRoutes.on_db,
    bind, modify, raise, ret.
  destruct (upload_fileobj _ _ _ _) as [st [msg|]]; reflexivity.
Qed.

Lemma file_lookup_new file_id current_user row (t : list MediaFile) :
  (forall m, In m t -> m_id m <> file_id) ->
  m_id row = file_id -> m_user_id row = usr_id current_user ->
  one (filter (fun m => (String.eqb (m_id m) file_id
                         && String.eqb (m_user_id m) (usr_id current_user))%bool)
              (insert row t)) = Some row.
Proof.
  intros Hfresh Hid Hu. unfold insert. rewrite filter_app, filter_none_nil.
  - cbn. rewrite Hid, Hu, !String.eqb_refl. reflexivity.
  - intros m Hm. apply andb_false_iff. left. apply String.eqb_neq. now apply Hfresh.
Qed.
End MediaFacts.

(** [upload_file] writes to the object store first.  If that call
    raises, the handler raises 500 with the text of the exception and
    the database is exactly as it was.  If it succeeds, exactly one
    metadata row is appended: it belongs to the caller, keeps the
    original file name, and is stored under the generated name (the
    first [uuid4()] followed by the extension of the original name),
    which is also the name the handler returns. *)
Theorem upload_file_storage_first
  {S3 : Type} (upload_fileobj : string -> string -> string -> S3 -> S3 * option string)
  (BUCKET_NAME : string) (splitext_ext : string -> string)
  (file : MediaFiles.UploadFile) (category : option string) (tags : option (list string))
  (current_user : User) (name_uuid row_uuid : UUID) (now : datetime)
  (w : MediaRoutes.world S3) :
  let unique_filename := (name_uuid ++ splitext_ext (MediaFiles.filename file))%string in
  let call := upload_fileobj (MediaFiles.file file) BUCKET_NAME
                ("uploads/" ++ usr_id current_user ++ "/" ++ unique_filename)
                (MediaRoutes.s3 w) in
  let out := MediaFiles.upload_file upload_fileobj BUCKET_NAME splitext_ext
               file category tags current_user name_uuid row_uuid now w in
  (forall msg, snd call = Some msg ->
     out = (MediaRoutes.mkWorld (MediaRoutes.db w) (fst call),
            Raise (HTTPException 500 msg))) /\
  (snd call = None ->
     snd out = Ok [("message", "File uploaded successfully");
                   ("filename", unique_filename)] /\
     MediaRoutes.s3 (fst out) = fst call /\
     (exists row,
        media_files (MediaRoutes.db (fst out)) =
          (media_files (MediaRoutes.db w) ++ [row])%list /\
        m_id row = row_uuid /\ m_user_id row = usr_id current_user /\
        m_filename row = unique_filename /\
        m_original_filename row = MediaFiles.filename file /\
        m_category row = category /\ m_tags row = tags) /\
     interview_questions (MediaRoutes.db (fst out)) =
       interview_questions (MediaRoutes.db w) /\
     user_answers (MediaRoutes.db (fst out)) = user_answers (MediaRoutes.db w) /\
     question_progress (MediaRoutes.db (fst out)) = question_progress (MediaRoutes.db w) /\
     users (MediaRoutes.db (fst out)) = users (MediaRoutes.db w)).
Proof.
  cbv zeta. rewrite upload_file_run. cbv zeta.
  destruct (upload_fileobj _ _ _ _) as [st [msg|]]; cbn [fst snd]; split.
  - intros m E. now injection E as <-.
  - discriminate.
  - discriminate.
  - intros _. cbn. repeat split. eexists. split; [reflexivity|]. cbn. repeat split.
Qed.

Lemma upload_file_storage_first_witness :
  MediaFiles.upload_file SampleMore.upload_denied "media" SampleMore.ext
    SampleMore.letter None None Sample.alice "n-1" "f-9" Sample.t1 Sample.with_files =
  (Sample.with_files, Raise (HTTPException 500 "AccessDenied")) /\
  snd (MediaFiles.upload_file SampleMore.upload_ok "media" SampleMore.ext
         SampleMore.letter None None Sample.alice "n-1" "f-9" Sample.t1
         Sample.with_files) =
  Ok [("message", "File uploaded successfully"); ("filename", "n-1.pdf")].
Proof.
  split.
  - apply (proj1 (upload_file_storage_first SampleMore.upload_denied "media"
                    SampleMore.ext SampleMore.letter None None Sample.alice
                    "n-1" "f-9" Sample.t1 Sample.with_files) "AccessDenied" eq_refl).
  - apply (proj2 (upload_file_storage_first SampleMore.upload_ok "media"
                    SampleMore.ext SampleMore.letter None None Sample.alice
                    "n-1" "f-9" Sample.t1 Sample.with_files) eq_refl).
Defined.

(** [list_files] changes nothing and returns exactly the caller's own
    files that satisfy every filter given as a non-empty string: the
    category equal to the row's, the tag among the row's tags.  No file
    of another user is ever listed. *)
Theorem list_files_only_own
  {S3 : Type} (category tag : option string) (current_user : User)
  (w : MediaRoutes.world S3) :
  exists files,
    MediaFiles.list_files category tag current_user w = (w, Ok files) /\
    (forall m,
       In m files <->
       In m (media_files (MediaRoutes.db w)) /\
       m_user_id m = usr_id current_user /\
       (forall c, given category c -> m_category m = Some c) /\
       (forall t, given tag t -> exists ts, m_tags m = Some ts /\ In t ts)).
Proof.
  eexists. split.
  - unfold MediaFiles.list_files, MediaRoutes.on_db, bind, gets, ret.
    destruct w. reflexivity.
  - intros m. rewrite filter_In. unfold MediaFiles.listed.
    rewrite !andb_true_iff, String.eqb_eq. split.
    + intros (Hin & (Hu & Hc) & Ht). split; [assumption|]. split; [assumption|]. split.
      * intros c G. pose proof (when_given_true _ _ Hc c G) as H.
        destruct (m_category m) as [c'|]; [|discriminate].
        apply String.eqb_eq in H. now subst.
      * intros t G. pose proof (when_given_true _ _ Ht t G) as H.
        destruct (m_tags m) as [ts|]; [|discriminate].
        exists ts. split; [reflexivity|]. now apply existsb_eqb_In.
    + intros (Hin & Hu & Hc & Ht). split; [assumption|]. split; [split; [assumption|]|].
      * apply when_given_intro. intros c G. rewrite (Hc c G). apply String.eqb_refl.
      * apply when_given_intro. intros t G. destruct (Ht t G) as (ts & -> & Hts).
        apply existsb_exists. exists t. split; [assumption|apply String.eqb_refl].
Qed.

(** A file id that belongs to no file of the caller is not found:
    [get_file] and [delete_file] both raise 404 "File not found" and
    leave the database and the object store as they were. *)
Theorem foreign_file_is_not_found
  {S3 : Type} (delete_object : string -> string -> S3 -> S3 * option string)
  (generate_presigned_url : string -> string -> Z -> S3 -> string + string)
  (BUCKET_NAME : string) (file_id : UUID) (current_user : User)
  (w : MediaRoutes.world S3) :
  (forall m, In m (media_files (MediaRoutes.db w)) -> m_id m = file_id ->
             m_user_id m <> usr_id current_user) ->
  MediaFiles.get_file generate_presigned_url BUCKET_NAME file_id current_user w =
    (w, Raise (HTTPException 404 "File not found")) /\
  MediaRoutes.delete_file delete_object BUCKET_NAME file_id current_user w =
    (w, Raise (HTTPException 404 "File not found")).
Proof.
  intros Hforeign.
  assert (E : one (filter (fun m => (String.eqb (m_id m) file_id
                                     && String.eqb (m_user_id m) (usr_id current_user))%bool)
                          (media_files (MediaRoutes.db w))) = None).
  { apply one_filter_none. intros m Hm. apply andb_false_iff.
    destruct (String.eqb (m_id m) file_id) eqn:Ei; [|now left].
    right. apply String.eqb_neq. apply String.eqb_eq in Ei. now apply Hforeign. }
  split.
  - unfold MediaFiles.get_file, MediaRoutes.on_db, bind, gets, raise.
    rewrite E. destruct w. reflexivity.
  - unfold MediaRoutes.delete_file, MediaRoutes.on_db, bind, gets, raise.
    rewrite E. destruct w. reflexivity.
Qed.

Lemma foreign_file_is_not_found_witness :
  MediaFiles.get_file SampleMore.presign "media" "f-2" Sample.alice Sample.with_files =
    (Sample.with_files, Raise (HTTPException 404 "File not found")) /\
  MediaRoutes.delete_file Sample.delete_ok "media" "f-2" Sample.alice Sample.with_files =
    (Sample.with_files, Raise (HTTPException 404 "File not found")).
Proof.
  apply (foreign_file_is_not_found Sample.delete_ok SampleMore.presign "media" "f-2"
           Sample.alice Sample.with_files).
  intros m [<-|[<-|[]]]; cbn; intros H; discriminate.
Defined.

Lemma NoDup_map_eq {A B} (f : A -> B) (l : list A) (x y : A) :
  NoDup (map f l) -> In x l -> In y l -> f x = f y -> x = y.
Proof.
  induction l as [|z l IH]; cbn; [intros _ []|].
  intros ND Hx Hy E. inversion ND as [|? ? Hnin ND']; subst.
  destruct Hx as [->|Hx], Hy as [->|Hy]; auto.
  - exfalso. apply Hnin. rewrite E. now apply in_map.
  - exfalso. apply Hnin. rewrite <- E. now apply in_map.
Qed.

(** Where file ids are unique, [delete_file] never removes a file of
    another user, whatever the outcome of the call. *)
Theorem delete_file_keeps_other_users_files
  {S3 : Type} (delete_object : string -> string -> S3 -> S3 * option string)
  (BUCKET_NAME : string) (file_id : UUID) (current_user : User)
  (w : MediaRoutes.world S3) :
  NoDup (map m_id (media_files (MediaRoutes.db w))) ->
  forall m,
    In m (media_files (MediaRoutes.db w)) ->
    m_user_id m <> usr_id current_user ->
    In m (media_files
            (MediaRoutes.db (fst (MediaRoutes.delete_file delete_object BUCKET_NAME
                                    file_id current_user w)))).
Proof.
  intros ND m Hm Hother.
  unfold MediaRoutes.delete_file, MediaRoutes.on_db, MediaRoutes.s3_delete_object,
    bind, gets, modify, raise, ret.
  cbn [fst snd MediaRoutes.db MediaRoutes.s3].
  destruct (one (filter _ (media_files (MediaRoutes.db w)))) as [file_info|] eqn:E;
    cbn [fst MediaRoutes.db MediaRoutes.s3]; [|assumption].
  destruct (delete_object BUCKET_NAME _ (MediaRoutes.s3 w)) as [st [msg|]];
    cbn [fst MediaRoutes.db]; [assumption|].
  cbn. unfold delete_where. apply filter_In. split; [assumption|].
  apply negb_true_iff, String.eqb_neq. intros Hid.
  apply one_filter_some in E as [Hf Hk]. apply andb_true_iff in Hk as [Hk1 Hk2].
  apply String.eqb_eq in Hk1, Hk2.
  assert (m = file_info).
  { apply (NoDup_map_eq m_id (media_files (MediaRoutes.db w))); auto. congruence. }
  subst m. contradiction.
Qed.

Lemma delete_file_keeps_other_users_files_witness :
  In Sample.photo
    (media_files
       (MediaRoutes.db (fst (MediaRoutes.delete_file Sample.delete_ok "media" "f-1"
                               Sample.alice Sample.with_files)))).
Proof.
  apply (delete_file_keeps_other_users_files Sample.delete_ok "media" "f-1"
           Sample.alice Sample.with_files).
  - repeat constructor; cbn; intuition discriminate.
  - right. left. reflexivity.
  - discriminate.
Defined.

(** After a successful upload under a fresh file id, the new file is
    among the caller's listed files, [get_file] signs a URL (valid for
    3600 seconds) for exactly the key the upload wrote, and a successful
    [delete_file] of that id deletes that same key and restores the
    metadata table to what it was before the upload. *)
Theorem uploaded_file_round_trip
  {S3 : Type} (upload_fileobj : string -> string -> string -> S3 -> S3 * option string)
  (delete_object : string -> string -> S3 -> S3 * option string)
  (generate_presigned_url : string -> string -> Z -> S3 -> string + string)
  (BUCKET_NAME : string) (splitext_ext : string -> string)
  (file : MediaFiles.UploadFile) (category : option string) (tags : option (list string))
  (current_user : User) (name_uuid row_uuid : UUID) (now : datetime)
  (w : MediaRoutes.world S3) :
  let key := ("uploads/" ++ usr_id current_user ++ "/"
              ++ name_uuid ++ splitext_ext (MediaFiles.filename file))%string in
  let out := MediaFiles.upload_file upload_fileobj BUCKET_NAME splitext_ext
               file category tags current_user name_uuid row_uuid now w in
  (forall m, In m (media_files (MediaRoutes.db w)) -> m_id m <> row_uuid) ->
  snd (upload_fileobj (MediaFiles.file file) BUCKET_NAME key (MediaRoutes.s3 w)) = None ->
  (exists files row,
     MediaFiles.list_files None None current_user (fst out) = (fst out, Ok files) /\
     In row files /\ m_id row = row_uuid /\
     m_original_filename row = MediaFiles.filename file) /\
  (forall url,
     generate_presigned_url BUCKET_NAME key 3600 (MediaRoutes.s3 (fst out)) = inl url ->
     MediaFiles.get_file generate_presigned_url BUCKET_NAME row_uuid current_user (fst out)
       = (fst out, Ok [("url", url)])) /\
  (forall st,
     delete_object BUCKET_NAME key (MediaRoutes.s3 (fst out)) = (st, None) ->
     MediaRoutes.delete_file delete_object BUCKET_NAME row_uuid current_user (fst out) =
       (MediaRoutes.mkWorld (MediaRoutes.db w) st, Ok "File deleted successfully")).
Proof.
  cbv zeta. intros Hfresh Hup. rewrite upload_file_run. cbv zeta. rewrite Hup.
  cbn [fst].
  set (row := mkMediaFile row_uuid (usr_id current_user)
                (name_uuid ++ splitext_ext (MediaFiles.filename file))
                (MediaFiles.filename file) category tags now
                (MediaFiles.content_type file) (MediaFiles.size file)).
  pose proof (file_lookup_new row_uuid current_user row
                (media_files (MediaRoutes.db w)) Hfresh eq_refl eq_refl) as Hsel.
  split; [|split].
  - eexists. exists row. split.
    + unfold MediaFiles.list_files, MediaRoutes.on_db, bind, gets, ret. reflexivity.
    + split; [|split; reflexivity]. cbn. apply filter_In. split.
      * unfold insert. apply in_or_app. right. now left.
      * unfold MediaFiles.listed. cbn. now rewrite String.eqb_refl.
  - intros url Hurl.
    unfold MediaFiles.get_file, MediaRoutes.on_db, bind, gets, raise.
    cbn [MediaRoutes.db MediaRoutes.s3 media_files set_media_files fst snd] in *.
    rewrite Hsel. cbn [MediaRoutes.db MediaRoutes.s3 m_filename row].
    unfold row at 1. cbn [m_filename]. now rewrite Hurl.
  - intros st Hdel.
    unfold MediaRoutes.delete_file, MediaRoutes.on_db, MediaRoutes.s3_delete_object,
      bind, gets, modify, raise, ret.
    cbn [MediaRoutes.db MediaRoutes.s3 media_files set_media_files fst snd] in *.
    rewrite Hsel. cbn [MediaRoutes.db MediaRoutes.s3 fst snd].
    unfold row at 1. cbn [m_filename]. rewrite Hdel.
    cbn [MediaRoutes.db MediaRoutes.s3 fst snd media_files set_media_files
         interview_questions user_answers question_progress users].
    assert (Hrows : delete_where (fun m => String.eqb (m_id m) row_uuid)
                      (insert row (media_files (MediaRoutes.db w)))
                    = media_files (MediaRoutes.db w)).
    { unfold delete_where, insert. rewrite filter_app. cbn.
      rewrite String.eqb_refl. cbn. rewrite app_nil_r.
      apply forallb_filter_id. apply forallb_forall. intros m Hm.
      apply negb_true_iff, String.eqb_neq. now apply Hfresh. }
    unfold set_media_files.
    cbn [MediaRoutes.db MediaRoutes.s3 fst snd media_files
         interview_questions user_answers question_progress users].
    rewrite Hrows. now destruct (MediaRoutes.db w).
Qed.

Lemma uploaded_file_round_trip_witness :
  let out := MediaFiles.upload_file SampleMore.upload_ok "media" SampleMore.ext
               SampleMore.letter None None Sample.alice "n-1" "f-9" Sample.t1
               Sample.with_files in
  MediaFiles.get_file SampleMore.presign "media" "f-9" Sample.alice (fst out) =
    (fst out, Ok [("url", "https://media/uploads/u-1/n-1.pdf")]).
Proof.
  cbv zeta.
  apply (uploaded_file_round_trip SampleMore.upload_ok Sample.delete_ok SampleMore.presign
           "media" SampleMore.ext SampleMore.letter None None Sample.alice
           "n-1" "f-9" Sample.t1 Sample.with_files).
  - intros m [<-|[<-|[]]]; discriminate.
  - reflexivity.
  - reflexivity.
Defined.

(* ================================================================== *)
(** * Further properties: statistics and study plan                     *)
(* ================================================================== *)

Lemma fold_count_if {A} (f : A -> bool) (l : list A) (n : Z) :
  fold_left (fun n x => if f x then n + 1 else n) l n = n + len (filter f l).
Proof.
  revert n. unfold len. induction l as [|x l IH]; intros n; cbn [fold_left filter].
  - cbn. lia.
  - rewrite IH. destruct (f x); cbn [List.length]; lia.
Qed.

Lemma weekly_progress_total (answers : list UserAnswer) :
  exists weekly, ProgressService._get_weekly_progress answers = Ok weekly.
Proof.
  destruct (summarise_all_ok (ProgressService.weekly_data answers)) as (weekly & Hw & _).
  now exists weekly.
Qed.

Lemma get_user_statistics_run
  (order_by_created_at_desc : list UserAnswer -> list UserAnswer)
  (user_id : UUID) (s : session) (weekly : list (date * ProgressService.summary)) :
  ProgressService._get_weekly_progress
    (order_by_created_at_desc
       (filter (fun a => String.eqb (a_user_id a) user_id) (user_answers s))) = Ok weekly ->
  Statistics.get_user_statistics order_by_created_at_desc user_id s =
    (s, Ok (Statistics.mkStats 0
              (len (filter (fun p => String.eqb (p_status p) "completed")
                           (filter (fun p => String.eqb (p_user_id p) user_id)
                                   (question_progress s))))
              0 0 0 [] [] [] weekly [])).
Proof.
  intros Hw. unfold Statistics.get_user_statistics, bind, gets, lift, ret.
  rewrite Hw. unfold exhausted. cbn. now rewrite fold_count_if.
Qed.

(** [get_user_statistics] never raises and never changes the store.
    Its weekly progress is that of the user's stored answers, and it
    counts as completed every progress row of the user with the status
    "completed".  The first pass over the answers uses their result set
    up, so whatever the user has answered the category performance is
    empty, the number of questions attempted is 0 and the average
    confidence score is 0; the practice figures and the strength,
    weakness and activity lists are always empty. *)
Theorem user_statistics_counts
  (order_by_created_at_desc : list UserAnswer -> list UserAnswer)
  (user_id : UUID) (s : session) :
  let answers :=
    order_by_created_at_desc
      (filter (fun a => String.eqb (a_user_id a) user_id) (user_answers s)) in
  let completed :=
    filter (fun p => String.eqb (p_status p) "completed")
           (filter (fun p => String.eqb (p_user_id p) user_id) (question_progress s)) in
  exists weekly,
    ProgressService._get_weekly_progress answers = Ok weekly /\
    Statistics.get_user_statistics order_by_created_at_desc user_id s =
      (s, Ok (Statistics.mkStats 0 (len completed) 0 0 0 [] [] [] weekly [])).
Proof.
  cbv zeta.
  destruct (weekly_progress_total
              (order_by_created_at_desc
                 (filter (fun a => String.eqb (a_user_id a) user_id) (user_answers s))))
    as [weekly Hw].
  exists weekly. split; [exact Hw|]. now apply get_user_statistics_run.
Qed.

(** After two answers of alice, scored 1/2 and 3/4, and with a row of
    hers marked completed: one week is reported, with both answers, and
    one question completed, but no question attempted and no category. *)
Lemma user_statistics_counts_witness :
  let s :=
    set_question_progress
      (insert (mkQuestionProgress "u-1" "q-2" "completed" 1 (Some Sample.t0) None None))
      (submit_all [Sample.ans1; SampleMore.ans2] Sample.alice Sample.with_questions) in
  List.length (user_answers s) = 2%nat /\
  exists average,
    Statistics.get_user_statistics SampleMore.newest_first "u-1" s =
      (s, Ok (Statistics.mkStats 0 1 0 0 0 [] [] []
                [(737997, ProgressService.mkSummary 2 average)] [])).
Proof.
  cbv zeta. split; [reflexivity|].
  destruct (user_statistics_counts SampleMore.newest_first "u-1"
              (set_question_progress
                 (insert (mkQuestionProgress "u-1" "q-2" "completed" 1 (Some Sample.t0)
                            None None))
                 (submit_all [Sample.ans1; SampleMore.ans2] Sample.alice
                    Sample.with_questions)))
    as (weekly & Hw & Hrun).
  vm_compute in Hw. injection Hw as <-.
  eexists. rewrite Hrun. reflexivity.
Defined.

(** [get_recommended_questions] and [get_study_plan] never raise
    and never change the store, and they answer the same for every user
    and every store, since the statistics they start from never hold a
    category: no recommended question (the recommendation query is not
    run), no focus area, the daily goals "Practice 0 questions from your
    weak areas", "Review previous answers and feedback" and "Update your
    progress tracking", and the estimated improvement time
    "4-6 weeks". *)
Theorem study_plan_is_fixed
  (order_by_created_at_desc : list UserAnswer -> list UserAnswer)
  (unattempted_questions :
     UUID -> string -> Z -> session -> result (list InterviewQuestion))
  (user_id : UUID) (limit : Z) (s : session) :
  Statistics.get_recommended_questions order_by_created_at_desc unattempted_questions
    user_id limit s = (s, Ok []) /\
  Statistics.get_study_plan order_by_created_at_desc unattempted_questions user_id s =
    (s, Ok (Statistics.mkStudyPlan [] []
              ["Practice 0 questions from your weak areas";
               "Review previous answers and feedback";
               "Update your progress tracking"]
              "4-6 weeks")).
Proof.
  destruct (weekly_progress_total
              (order_by_created_at_desc
                 (filter (fun a => String.eqb (a_user_id a) user_id) (user_answers s))))
    as [weekly Hw].
  pose proof (get_user_statistics_run order_by_created_at_desc user_id s weekly Hw) as Hst.
  assert (Hrec : forall limit,
            Statistics.get_recommended_questions order_by_created_at_desc
              unattempted_questions user_id limit s = (s, Ok [])).
  { intros l. unfold Statistics.get_recommended_questions, bind. rewrite Hst.
    reflexivity. }
  split; [apply Hrec|].
  unfold Statistics.get_study_plan, bind, ret. rewrite Hst.
  cbn [Statistics.category_performance sorted_key firstn map]. rewrite Hrec.
  reflexivity.
Qed.

(** The same two answers, and a recommendation query that would answer
    with the whole catalogue. *)
Lemma study_plan_is_fixed_witness :
  let s := submit_all [Sample.ans1; SampleMore.ans2] Sample.alice Sample.with_questions in
  List.length (user_answers s) = 2%nat /\
  SampleMore.whole_catalogue "u-1" "algorithms" 10 s = Ok [Sample.q1; Sample.q2] /\
  Statistics.get_recommended_questions SampleMore.newest_first SampleMore.whole_catalogue
    "u-1" 10 s = (s, Ok []) /\
  Statistics.get_study_plan SampleMore.newest_first SampleMore.whole_catalogue "u-1" s =
    (s, Ok (Statistics.mkStudyPlan [] []
              ["Practice 0 questions from your weak areas";
               "Review previous answers and feedback";
               "Update your progress tracking"]
              "4-6 weeks")).
Proof.
  cbv zeta. split; [reflexivity|]. split; [reflexivity|].
  apply (study_plan_is_fixed SampleMore.newest_first SampleMore.whole_catalogue "u-1" 10
           (submit_all [Sample.ans1; SampleMore.ans2] Sample.alice Sample.with_questions)).
Defined.

(** After [update_user] by a stored user whose id no other row has, and
    with a new username no other row has, [login] under the new username
    with the user's password answers a token made for the new username:
    the update keeps the stored password hash. *)
Theorem updated_user_logs_in_under_new_name
  (verify_password : string -> string -> bool) (create_access_token : dict -> Z -> string)
  (user_update : UserCreate) (current_user : User) (password : string)
  (s : session) (row : UserInDB) :
  In row (users s) ->
  u_id row = usr_id current_user ->
  (forall u, In u (users s) -> u_id u = usr_id current_user -> u = row) ->
  (forall u, In u (users s) -> u <> row -> u_username u <> uc_username user_update) ->
  verify_password password (u_hashed_password row) = true ->
  let s1 := fst (Accounts.update_user user_update current_user s) in
  Accounts.login verify_password create_access_token
    (uc_username user_update) password s1 =
    Accounts.Token (create_access_token [("sub", uc_username user_update)] 30) "bearer" /\
  (exists row',
     In row' (users s1) /\ u_id row' = u_id row /\
     u_email row' = uc_email user_update /\
     u_username row' = uc_username user_update /\
     u_full_name row' = uc_full_name user_update /\
     u_hashed_password row' = u_hashed_password row /\
     u_skills row' = u_skills row) /\
  (forall u, In u (users s) -> u <> row -> In u (users s1)).
Proof.
  intros Hin Hid Huniq Hname Hv. cbv zeta.
  unfold Accounts.update_user, bind, modify, ret. cbn [fst].
  unfold set_users. cbn [users].
  set (cond := fun u => String.eqb (u_id u) (usr_id current_user)).
  assert (Hrow : cond row = true) by (unfold cond; now apply String.eqb_eq).
  assert (Hnew : In (Accounts.set_profile user_update row)
                    (update_where cond (Accounts.set_profile user_update) (users s))).
  { unfold update_where. apply in_map_iff. exists row. now rewrite Hrow. }
  split; [|split].
  - unfold Accounts.login. cbn [users].
    destruct (one_filter_exists
                (fun u => String.eqb (u_username u) (uc_username user_update))
                (update_where cond (Accounts.set_profile user_update) (users s)))
      as [y Hy].
    { exists (Accounts.set_profile user_update row). split; [assumption|].
      cbn. apply String.eqb_refl. }
    rewrite Hy. apply one_filter_some in Hy as [Hy Hn]. apply String.eqb_eq in Hn.
    unfold update_where in Hy. apply in_map_iff in Hy as (u & Hu & Hinu).
    assert (Hy' : y = Accounts.set_profile user_update row).
    { destruct (cond u) eqn:Ec.
      - unfold cond in Ec. apply String.eqb_eq in Ec.
        rewrite (Huniq u Hinu Ec) in Hu. now symmetry.
      - subst y. exfalso. apply (Hname u Hinu); [|assumption].
        intros ->. congruence. }
    rewrite Hy'. unfold Accounts.set_profile. cbn [u_hashed_password u_username].
    now rewrite Hv.
  - exists (Accounts.set_profile user_update row). split; [assumption|]. cbn. repeat split.
  - intros u Hu Hne. unfold update_where. apply in_map_iff. exists u.
    split; [|assumption].
    destruct (cond u) eqn:Ec; [|reflexivity].
    unfold cond in Ec. apply String.eqb_eq in Ec. now destruct (Hne (Huniq u Hu Ec)).
Qed.

Lemma updated_user_logs_in_under_new_name_witness :
  Accounts.login SampleMore.verify SampleMore.make_token "bob" "pw3"
    (fst (Accounts.update_user Sample.bob SampleMore.carol_user SampleMore.with_carol)) =
  Accounts.Token "token:bob" "bearer".
Proof.
  apply (updated_user_logs_in_under_new_name SampleMore.verify SampleMore.make_token
           Sample.bob SampleMore.carol_user "pw3" SampleMore.with_carol SampleMore.carol).
  - left. reflexivity.
  - reflexivity.
  - intros u [<-|[]] _. reflexivity.
  - intros u [<-|[]] N; now contradiction N.
  - reflexivity.
Defined.
